(** * MNEE agent system: the milestone escrow ledger and its transaction executor

    A shallow embedding of [contracts/MNEEEscrow.sol], of the token
    [contracts/MNEE.sol] it holds, of the retry loop and mutation queue of
    [src/agents/EscrowAgent.ts], of the budget agent and of the message bus,
    followed by the properties of the specification that can be stated over
    them.

    Solidity data is modelled as the code has it: [uint256] and [uint8] values
    are integers in [Z] with the checked arithmetic of Solidity 0.8 written
    out (an overflow, an underflow or a division by zero reverts the call),
    addresses are integers, [mapping]s are finite maps read with the zero
    value as default, and a call either returns the new ledger or reverts
    with a reason and leaves the ledger as it was. *)

From Stdlib Require Import ZArith String List Lia Bool Sorting.Sorted.
From stdpp Require Import gmap strings.
Import ListNotations.

Local Open Scope string_scope.
Local Open Scope Z_scope.

(** ** Machine integers *)

Definition address := Z.

Definition MAX_UINT256 : Z := 2 ^ 256 - 1.
Definition MAX_UINT8 : Z := 255.

Definition is_uint256 (x : Z) : bool := (0 <=? x) && (x <=? MAX_UINT256).
Definition is_uint8 (x : Z) : bool := (0 <=? x) && (x <=? MAX_UINT8).
Definition is_address (x : Z) : bool := (0 <=? x) && (x <? 2 ^ 160).

(** ** Data model of the escrow contract *)

Inductive DisputeStatus :=
  NONE | OPEN | RESOLVED_FULL | RESOLVED_PARTIAL | REFUNDED.

#[global] Instance DisputeStatus_eq_dec : EqDecision DisputeStatus.
Proof. solve_decision. Defined.

Record Escrow := mkEscrow {
  payer : address;
  agent : address;
  totalAmount : Z;
  paidAmount : Z;
  totalMilestones : Z;
  milestonesCompleted : Z;
  isActive : bool;
  isCompleted : bool;
  disputeStatus : DisputeStatus
}.

Record WorkProof := mkWorkProof {
  proofAgent : address;
  workHash : Z;
  timestamp : Z;
  isVerified : bool
}.

(** The values a [mapping] returns for a key never written. *)
Definition zeroEscrow : Escrow := mkEscrow 0 0 0 0 0 0 false false NONE.
Definition zeroWorkProof : WorkProof := mkWorkProof 0 0 0 false.

Inductive Role := DEFAULT_ADMIN_ROLE | AGENT_ROLE | JUDGE_ROLE.

#[global] Instance Role_eq_dec : EqDecision Role.
Proof. solve_decision. Defined.

Definition Role_to_nat (r : Role) : nat :=
  match r with DEFAULT_ADMIN_ROLE => 0 | AGENT_ROLE => 1 | JUDGE_ROLE => 2 end%nat.
Definition Role_of_nat (n : nat) : Role :=
  match n with O => DEFAULT_ADMIN_ROLE | S O => AGENT_ROLE | _ => JUDGE_ROLE end.

#[global] Instance Role_countable : Countable Role.
Proof.
  apply (inj_countable' Role_to_nat Role_of_nat).
  intros r; destruct r; reflexivity.
Defined.

(** Events of the escrow contract, and the two events of the token. *)
Inductive Event :=
| EscrowCreated (taskId : string) (payer agent : address) (amount milestones : Z)
| MilestoneReleased (taskId : string) (milestoneIndex amount : Z)
| EscrowCompleted (taskId : string)
| EscrowCancelled (taskId : string) (payer : address) (amount : Z)
| WorkProofSubmitted (taskId : string) (milestoneIndex : Z) (agent : address) (workHash : Z)
| WorkProofVerified (taskId : string) (milestoneIndex : Z)
| DisputeRaised (taskId : string) (raiser : address)
| DisputeResolved (taskId : string) (resolution : DisputeStatus)
| ReputationUpdated (agent : address) (newReputation : Z)
| RoleGranted (role : Role) (account sender : address)
| RoleRevoked (role : Role) (account sender : address)
| Transfer (from to : address) (value : Z)
| Approval (owner spender : address) (value : Z)
| OwnershipTransferred (previousOwner newOwner : address).

(** The MNEE token ([contracts/MNEE.sol], an ERC20 with an owner). *)
Record Token := mkToken {
  balances : gmap Z Z;
  allowances : gmap (Z * Z) Z;
  totalSupply : Z;
  tokenOwner : address
}.

(** The whole chain state the escrow contract can see or change: its own
    address and storage, the token, and the log of emitted events. *)
Record Ledger := mkLedger {
  this : address;
  mneeToken : address;
  tokenState : Token;
  escrows : gmap string Escrow;
  milestoneProofs : gmap (string * Z) WorkProof;
  reputations : gmap Z Z;
  roles : gset (Role * Z);
  events : list Event
}.

Definition set_mneeToken (a : address) (s : Ledger) : Ledger :=
  mkLedger (this s) a (tokenState s) (escrows s) (milestoneProofs s) (reputations s)
    (roles s) (events s).
Definition set_tokenState (t : Token) (s : Ledger) : Ledger :=
  mkLedger (this s) (mneeToken s)
    t (escrows s) (milestoneProofs s) (reputations s) (roles s) (events s).
Definition set_escrows (e : gmap string Escrow) (s : Ledger) : Ledger :=
  mkLedger (this s) (mneeToken s)
    (tokenState s) e (milestoneProofs s) (reputations s) (roles s) (events s).
Definition set_milestoneProofs (p : gmap (string * Z) WorkProof) (s : Ledger) : Ledger :=
  mkLedger (this s) (mneeToken s)
    (tokenState s) (escrows s) p (reputations s) (roles s) (events s).
Definition set_reputations (r : gmap Z Z) (s : Ledger) : Ledger :=
  mkLedger (this s) (mneeToken s)
    (tokenState s) (escrows s) (milestoneProofs s) r (roles s) (events s).
Definition set_roles (r : gset (Role * Z)) (s : Ledger) : Ledger :=
  mkLedger (this s) (mneeToken s)
    (tokenState s) (escrows s) (milestoneProofs s) (reputations s) r (events s).
Definition set_events (l : list Event) (s : Ledger) : Ledger :=
  mkLedger (this s) (mneeToken s)
    (tokenState s) (escrows s) (milestoneProofs s) (reputations s) (roles s) l.

(** Field updates of an escrow held by storage reference. *)
Definition set_paidAmount (v : Z) (e : Escrow) : Escrow :=
  mkEscrow (payer e) (agent e) (totalAmount e) v (totalMilestones e)
    (milestonesCompleted e) (isActive e) (isCompleted e) (disputeStatus e).
Definition set_milestonesCompleted (v : Z) (e : Escrow) : Escrow :=
  mkEscrow (payer e) (agent e) (totalAmount e) (paidAmount e) (totalMilestones e)
    v (isActive e) (isCompleted e) (disputeStatus e).
Definition set_isActive (v : bool) (e : Escrow) : Escrow :=
  mkEscrow (payer e) (agent e) (totalAmount e) (paidAmount e) (totalMilestones e)
    (milestonesCompleted e) v (isCompleted e) (disputeStatus e).
Definition set_isCompleted (v : bool) (e : Escrow) : Escrow :=
  mkEscrow (payer e) (agent e) (totalAmount e) (paidAmount e) (totalMilestones e)
    (milestonesCompleted e) (isActive e) v (disputeStatus e).
Definition set_disputeStatus (v : DisputeStatus) (e : Escrow) : Escrow :=
  mkEscrow (payer e) (agent e) (totalAmount e) (paidAmount e) (totalMilestones e)
    (milestonesCompleted e) (isActive e) (isCompleted e) v.
Definition set_isVerified (v : bool) (p : WorkProof) : WorkProof :=
  mkWorkProof (proofAgent p) (workHash p) (timestamp p) v.

(** ** The transaction monad: ledger state, or a revert *)

Inductive outcome (A : Type) :=
| Ok (a : A)
| Revert (reason : string).
Arguments Ok {A} a.
Arguments Revert {A} reason.

Definition M (A : Type) : Type := Ledger -> outcome (A * Ledger).

#[global] Instance M_ret : MRet M := fun A a s => Ok (a, s).
#[global] Instance M_bind : MBind M := fun A B f m s =>
  match m s with
  | Ok (a, s') => f a s'
  | Revert r => Revert r
  end.

Definition get : M Ledger := fun s => Ok (s, s).
Definition modify (f : Ledger -> Ledger) : M unit := fun s => Ok (tt, f s).
Definition revert {A} (reason : string) : M A := fun _ => Revert reason.
Definition require (cond : bool) (reason : string) : M unit :=
  if cond then mret tt else revert reason.
Definition emit (e : Event) : M unit := modify (fun s => set_events (events s ++ [e]) s).

(** Checked arithmetic of Solidity 0.8: [Panic(0x11)] on overflow or
    underflow, [Panic(0x12)] on division by zero. *)
Definition checked_add (max a b : Z) : M Z :=
  if a + b <=? max then mret (a + b) else revert "Panic(0x11)".
Definition checked_sub (a b : Z) : M Z :=
  if b <=? a then mret (a - b) else revert "Panic(0x11)".
Definition checked_div (a b : Z) : M Z :=
  if b =? 0 then revert "Panic(0x12)" else mret (a / b).

(** The state a call leaves behind: a reverted call changes nothing. *)
Definition exec_state {A} (m : M A) (s : Ledger) : Ledger :=
  match m s with
  | Ok (_, s') => s'
  | Revert _ => s
  end.

Definition succeeds {A} (m : M A) (s : Ledger) : bool :=
  match m s with Ok _ => true | Revert _ => false end.

(** ** The token: [contracts/MNEE.sol] over OpenZeppelin's ERC20 and Ownable

    [MNEE] adds [mint] and [burn] to the ERC20 it inherits; the inherited
    functions are written out as the library has them (version 5, as the
    [Ownable(msg.sender)] constructor requires). Every function takes the
    caller ([msg.sender]) as its first argument. *)

Definition balanceOf (account : address) (t : Token) : Z :=
  default 0 (balances t !! account).
Definition allowance (owner spender : address) (t : Token) : Z :=
  default 0 (allowances t !! (owner, spender)).

Definition set_balance (account : address) (v : Z) (t : Token) : Token :=
  mkToken (<[account := v]> (balances t)) (allowances t) (totalSupply t) (tokenOwner t).
Definition set_allowance (owner spender : address) (v : Z) (t : Token) : Token :=
  mkToken (balances t) (<[(owner, spender) := v]> (allowances t)) (totalSupply t) (tokenOwner t).
Definition set_totalSupply (v : Z) (t : Token) : Token :=
  mkToken (balances t) (allowances t) v (tokenOwner t).
Definition set_tokenOwner (v : address) (t : Token) : Token :=
  mkToken (balances t) (allowances t) (totalSupply t) v.

Definition modifyToken (f : Token -> Token) : M unit :=
  modify (fun s => set_tokenState (f (tokenState s)) s).

Definition _update (from to value : Z) : M unit :=
  s ← get;
  (if from =? 0 then
     supply ← checked_add MAX_UINT256 (totalSupply (tokenState s)) value;
     modifyToken (set_totalSupply supply)
   else
     let fromBalance := balanceOf from (tokenState s) in
     require (value <=? fromBalance) "ERC20InsufficientBalance";;
     modifyToken (set_balance from (fromBalance - value)));;
  (if to =? 0 then
     modifyToken (fun t => set_totalSupply (totalSupply t - value) t)
   else
     modifyToken (fun t => set_balance to (balanceOf to t + value) t));;
  emit (Transfer from to value).

Definition _transfer (from to value : Z) : M unit :=
  require (negb (from =? 0)) "ERC20InvalidSender";;
  require (negb (to =? 0)) "ERC20InvalidReceiver";;
  _update from to value.

Definition _approve (owner spender value : Z) (emitEvent : bool) : M unit :=
  require (negb (owner =? 0)) "ERC20InvalidApprover";;
  require (negb (spender =? 0)) "ERC20InvalidSpender";;
  modifyToken (set_allowance owner spender value);;
  if emitEvent then emit (Approval owner spender value) else mret tt.

Definition _spendAllowance (owner spender value : Z) : M unit :=
  s ← get;
  let currentAllowance := allowance owner spender (tokenState s) in
  if currentAllowance <? MAX_UINT256 then
    require (value <=? currentAllowance) "ERC20InsufficientAllowance";;
    _approve owner spender (currentAllowance - value) false
  else mret tt.

Definition transfer (sender : address) (to value : Z) : M bool :=
  _transfer sender to value;;
  mret true.

Definition transferFrom (sender : address) (from to value : Z) : M bool :=
  _spendAllowance from sender value;;
  _transfer from to value;;
  mret true.

Definition approve (sender : address) (spender value : Z) : M bool :=
  _approve sender spender value true;;
  mret true.

Definition mint (sender : address) (to amount : Z) : M unit :=
  s ← get;
  require (tokenOwner (tokenState s) =? sender) "OwnableUnauthorizedAccount";;
  require (negb (to =? 0)) "ERC20InvalidReceiver";;
  _update 0 to amount.

Definition burn (sender : address) (amount : Z) : M unit :=
  require (negb (sender =? 0)) "ERC20InvalidSender";;
  _update sender 0 amount.

(** The two public functions [MNEE] inherits from Ownable. *)
Definition _transferOwnership (newOwner : address) : M unit :=
  s ← get;
  let oldOwner := tokenOwner (tokenState s) in
  modifyToken (set_tokenOwner newOwner);;
  emit (OwnershipTransferred oldOwner newOwner).

Definition renounceOwnership (sender : address) : M unit :=
  s ← get;
  require (tokenOwner (tokenState s) =? sender) "OwnableUnauthorizedAccount";;
  _transferOwnership 0.

Definition transferOwnership (sender newOwner : address) : M unit :=
  s ← get;
  require (tokenOwner (tokenState s) =? sender) "OwnableUnauthorizedAccount";;
  require (negb (newOwner =? 0)) "OwnableInvalidOwner";;
  _transferOwnership newOwner.

(** The token right after [MNEE]'s constructor ran for [deployer]. *)
Definition MNEE_constructor (deployer : address) : Token :=
  mkToken {[deployer := 10000000 * 10 ^ 18]} ∅ (10000000 * 10 ^ 18) deployer.

(** ** The escrow contract: [contracts/MNEEEscrow.sol] *)

Definition escrowAt (taskId : string) (s : Ledger) : Escrow :=
  default zeroEscrow (escrows s !! taskId).
Definition proofAt (taskId : string) (milestoneIndex : Z) (s : Ledger) : WorkProof :=
  default zeroWorkProof (milestoneProofs s !! (taskId, milestoneIndex)).
Definition reputationOf (account : address) (s : Ledger) : Z :=
  default 0 (reputations s !! account).

(** A write through the storage reference [escrows[taskId]]. *)
Definition updateEscrow (taskId : string) (f : Escrow -> Escrow) : M unit :=
  modify (fun s => set_escrows (<[taskId := f (escrowAt taskId s)]> (escrows s)) s).
Definition updateProof (taskId : string) (milestoneIndex : Z) (f : WorkProof -> WorkProof) : M unit :=
  modify (fun s => set_milestoneProofs
    (<[(taskId, milestoneIndex) := f (proofAt taskId milestoneIndex s)]> (milestoneProofs s)) s).
Definition setReputation (account : address) (v : Z) : M unit :=
  modify (fun s => set_reputations (<[account := v]> (reputations s)) s).

(** OpenZeppelin's AccessControl, as far as the contract uses it. *)
Definition hasRole (role : Role) (account : address) (s : Ledger) : bool :=
  bool_decide ((role, account) ∈ roles s).

Definition onlyRole (role : Role) (sender : address) : M unit :=
  s ← get;
  require (hasRole role sender s) "AccessControlUnauthorizedAccount".

Definition _grantRole (sender : address) (role : Role) (account : address) : M unit :=
  s ← get;
  if hasRole role account s then mret tt
  else
    modify (fun s => set_roles ({[(role, account)]} ∪ roles s) s);;
    emit (RoleGranted role account sender).

Definition _revokeRole (sender : address) (role : Role) (account : address) : M unit :=
  s ← get;
  if hasRole role account s then
    modify (fun s => set_roles (roles s ∖ {[(role, account)]}) s);;
    emit (RoleRevoked role account sender)
  else mret tt.

(** The constructor, run by [sender] on a contract placed at [self] over a
    token whose state is [token]: storage starts out zeroed. *)
Definition blankLedger (self : address) (token : Token) : Ledger :=
  mkLedger self 0 token ∅ ∅ ∅ ∅ [].

Definition constructor (sender _mneeToken : address) : M unit :=
  require (negb (_mneeToken =? 0)) "Invalid token address";;
  modify (set_mneeToken _mneeToken);;
  _grantRole sender DEFAULT_ADMIN_ROLE sender;;
  _grantRole sender AGENT_ROLE sender;;
  _grantRole sender JUDGE_ROLE sender.

Definition _updateReputation (agent : address) (success : bool) : M unit :=
  s ← get;
  let current := reputationOf agent s in
  (if success then
     if current <? 100 then
       raised ← checked_add MAX_UINT256 current 5;
       setReputation agent (if 100 <? raised then 100 else raised)
     else mret tt
   else
     if 10 <? current then
       lowered ← checked_sub current 10;
       setReputation agent (if lowered <? 0 then 0 else lowered)
     else mret tt);;
  s ← get;
  emit (ReputationUpdated agent (reputationOf agent s)).

Definition createEscrow (sender : address) (taskId : string)
    (agent : address) (amount milestones : Z) : M unit :=
  require (0 <? amount) "Amount must be greater than zero";;
  require (negb (agent =? 0)) "Agent address cannot be zero";;
  require (0 <? milestones) "At least one milestone required";;
  s ← get;
  require (negb (isActive (escrowAt taskId s)) && negb (isCompleted (escrowAt taskId s)))
    "Escrow exists";;
  ok ← transferFrom (this s) sender (this s) amount;
  require ok "MNEE transfer failed";;
  updateEscrow taskId (fun _ => mkEscrow sender agent amount 0 milestones 0 true false NONE);;
  s ← get;
  (if reputationOf agent s =? 0 then
     setReputation agent 50;;
     emit (ReputationUpdated agent 50)
   else mret tt);;
  emit (EscrowCreated taskId sender agent amount milestones).

Definition submitWorkProof (sender : address) (now : Z) (taskId : string)
    (milestoneIndex : Z) (workHash : Z) : M unit :=
  s ← get;
  let escrow := escrowAt taskId s in
  require (isActive escrow) "Not active";;
  require (sender =? agent escrow) "Only agent";;
  require (milestoneIndex <? totalMilestones escrow) "Invalid milestone";;
  require (timestamp (proofAt taskId milestoneIndex s) =? 0) "Already submitted";;
  updateProof taskId milestoneIndex (fun _ => mkWorkProof sender workHash now false);;
  emit (WorkProofSubmitted taskId milestoneIndex sender workHash).

Definition verifyWorkProof (sender : address) (taskId : string) (milestoneIndex : Z) : M unit :=
  onlyRole AGENT_ROLE sender;;
  s ← get;
  require (0 <? timestamp (proofAt taskId milestoneIndex s)) "No proof";;
  require (negb (isVerified (proofAt taskId milestoneIndex s))) "Already verified";;
  updateProof taskId milestoneIndex (set_isVerified true);;
  emit (WorkProofVerified taskId milestoneIndex).

Definition releaseMilestone (sender : address) (taskId : string) (milestoneIndex : Z) : M unit :=
  onlyRole AGENT_ROLE sender;;
  s ← get;
  let escrow := escrowAt taskId s in
  require (isActive escrow) "Not active";;
  require (bool_decide (disputeStatus escrow = NONE)) "In dispute";;
  require (milestoneIndex =? milestonesCompleted escrow) "Sequence error";;
  require (isVerified (proofAt taskId milestoneIndex s)) "Not verified";;
  share ← checked_div (totalAmount escrow) (totalMilestones escrow);
  lastIndex ← checked_sub (totalMilestones escrow) 1;
  milestoneAmount ←
    (if milestoneIndex =? lastIndex
     then checked_sub (totalAmount escrow) (paidAmount escrow)
     else mret share);
  paid ← checked_add MAX_UINT256 (paidAmount escrow) milestoneAmount;
  updateEscrow taskId (set_paidAmount paid);;
  completed ← checked_add MAX_UINT8 (milestonesCompleted escrow) 1;
  updateEscrow taskId (set_milestonesCompleted completed);;
  (if completed =? totalMilestones escrow then
     updateEscrow taskId (set_isActive false);;
     updateEscrow taskId (set_isCompleted true);;
     _updateReputation (agent escrow) true;;
     emit (EscrowCompleted taskId)
   else mret tt);;
  ok ← transfer (this s) (agent escrow) milestoneAmount;
  require ok "Transfer failed";;
  emit (MilestoneReleased taskId milestoneIndex milestoneAmount).

Definition raiseDispute (sender : address) (taskId : string) : M unit :=
  s ← get;
  let escrow := escrowAt taskId s in
  require (isActive escrow) "Not active";;
  require ((sender =? payer escrow) || (sender =? agent escrow)) "Not authorized";;
  updateEscrow taskId (set_disputeStatus OPEN);;
  emit (DisputeRaised taskId sender).

Definition resolveDispute (sender : address) (taskId : string) (resolution : DisputeStatus) : M unit :=
  onlyRole JUDGE_ROLE sender;;
  s ← get;
  let escrow := escrowAt taskId s in
  require (bool_decide (disputeStatus escrow = OPEN)) "No open dispute";;
  remaining ← checked_sub (totalAmount escrow) (paidAmount escrow);
  updateEscrow taskId (set_isActive false);;
  updateEscrow taskId (set_disputeStatus resolution);;
  match resolution with
  | RESOLVED_FULL =>
      ok ← transfer (this s) (agent escrow) remaining;
      require ok "Full release failed";;
      _updateReputation (agent escrow) true
  | REFUNDED =>
      ok ← transfer (this s) (payer escrow) remaining;
      require ok "Refund failed";;
      _updateReputation (agent escrow) false
  | RESOLVED_PARTIAL =>
      half ← checked_div remaining 2;
      ok ← transfer (this s) (agent escrow) half;
      require ok "Partial agent failed";;
      rest ← checked_sub remaining half;
      ok ← transfer (this s) (payer escrow) rest;
      require ok "Partial payer failed"
  | _ => mret tt
  end;;
  emit (DisputeResolved taskId resolution).

Definition emergencyRefund (sender : address) (taskId : string) : M unit :=
  onlyRole DEFAULT_ADMIN_ROLE sender;;
  s ← get;
  let escrow := escrowAt taskId s in
  require (isActive escrow) "Not active";;
  remaining ← checked_sub (totalAmount escrow) (paidAmount escrow);
  updateEscrow taskId (set_isActive false);;
  updateEscrow taskId (set_isCompleted false);;
  ok ← transfer (this s) (payer escrow) remaining;
  require ok "Emergency refund failed";;
  emit (EscrowCancelled taskId (payer escrow) remaining).

Definition grantAgentRole (sender : address) (agent : address) : M unit :=
  onlyRole DEFAULT_ADMIN_ROLE sender;;
  _grantRole sender AGENT_ROLE agent.

Definition grantJudgeRole (sender : address) (judge : address) : M unit :=
  onlyRole DEFAULT_ADMIN_ROLE sender;;
  _grantRole sender JUDGE_ROLE judge.

(** ** Transactions and reachable ledgers *)

(** The external functions of the two contracts. [GrantRole], [RevokeRole]
    and [RenounceRole] are the public functions the escrow contract inherits
    from AccessControl; the [Token...] calls are sent to the token, the last
    two being the public functions it inherits from Ownable. *)
Inductive Call :=
| CreateEscrow (taskId : string) (agent : address) (amount milestones : Z)
| SubmitWorkProof (taskId : string) (milestoneIndex workHash : Z)
| VerifyWorkProof (taskId : string) (milestoneIndex : Z)
| ReleaseMilestone (taskId : string) (milestoneIndex : Z)
| RaiseDispute (taskId : string)
| ResolveDispute (taskId : string) (resolution : DisputeStatus)
| EmergencyRefund (taskId : string)
| GrantAgentRole (agent : address)
| GrantJudgeRole (judge : address)
| GrantRole (role : Role) (account : address)
| RevokeRole (role : Role) (account : address)
| RenounceRole (role : Role) (callerConfirmation : address)
| TokenTransfer (to value : Z)
| TokenApprove (spender value : Z)
| TokenTransferFrom (from to value : Z)
| TokenMint (to amount : Z)
| TokenBurn (amount : Z)
| TokenTransferOwnership (newOwner : address)
| TokenRenounceOwnership.

Record Tx := mkTx {
  sender : address;       (* msg.sender *)
  now : Z;                (* block.timestamp *)
  call : Call
}.

(** Arguments that do not fit their Solidity types never reach a function
    body: the ABI decoder reverts first. *)
Definition abi_ok (c : Call) : bool :=
  match c with
  | CreateEscrow _ agent amount milestones =>
      is_address agent && is_uint256 amount && is_uint8 milestones
  | SubmitWorkProof _ milestoneIndex workHash =>
      is_uint8 milestoneIndex && is_uint256 workHash
  | VerifyWorkProof _ milestoneIndex => is_uint8 milestoneIndex
  | ReleaseMilestone _ milestoneIndex => is_uint8 milestoneIndex
  | RaiseDispute _ | ResolveDispute _ _ | EmergencyRefund _ => true
  | GrantAgentRole a | GrantJudgeRole a => is_address a
  | GrantRole _ a | RevokeRole _ a | RenounceRole _ a => is_address a
  | TokenTransfer to value => is_address to && is_uint256 value
  | TokenApprove spender value => is_address spender && is_uint256 value
  | TokenTransferFrom from to value => is_address from && is_address to && is_uint256 value
  | TokenMint to amount => is_address to && is_uint256 amount
  | TokenBurn amount => is_uint256 amount
  | TokenTransferOwnership newOwner => is_address newOwner
  | TokenRenounceOwnership => true
  end.

Definition dispatch (sender : address) (now : Z) (c : Call) : M unit :=
  match c with
  | CreateEscrow taskId agent amount milestones =>
      createEscrow sender taskId agent amount milestones
  | SubmitWorkProof taskId milestoneIndex workHash =>
      submitWorkProof sender now taskId milestoneIndex workHash
  | VerifyWorkProof taskId milestoneIndex => verifyWorkProof sender taskId milestoneIndex
  | ReleaseMilestone taskId milestoneIndex => releaseMilestone sender taskId milestoneIndex
  | RaiseDispute taskId => raiseDispute sender taskId
  | ResolveDispute taskId resolution => resolveDispute sender taskId resolution
  | EmergencyRefund taskId => emergencyRefund sender taskId
  | GrantAgentRole agent => grantAgentRole sender agent
  | GrantJudgeRole judge => grantJudgeRole sender judge
  | GrantRole role account =>
      onlyRole DEFAULT_ADMIN_ROLE sender;; _grantRole sender role account
  | RevokeRole role account =>
      onlyRole DEFAULT_ADMIN_ROLE sender;; _revokeRole sender role account
  | RenounceRole role callerConfirmation =>
      require (callerConfirmation =? sender) "AccessControlBadConfirmation";;
      _revokeRole sender role callerConfirmation
  | TokenTransfer to value => transfer sender to value;; mret tt
  | TokenApprove spender value => approve sender spender value;; mret tt
  | TokenTransferFrom from to value => transferFrom sender from to value;; mret tt
  | TokenMint to amount => mint sender to amount
  | TokenBurn amount => burn sender amount
  | TokenTransferOwnership newOwner => transferOwnership sender newOwner
  | TokenRenounceOwnership => renounceOwnership sender
  end.

Definition exec (tx : Tx) : M unit :=
  require (is_address (sender tx) && negb (sender tx =? 0) && is_uint256 (now tx) && abi_ok (call tx))
    "";;
  dispatch (sender tx) (now tx) (call tx).

(** One transaction: applied in full, or not at all. *)
Definition step (tx : Tx) (s : Ledger) : Ledger := exec_state (exec tx) s.

Definition run (txs : list Tx) (s : Ledger) : Ledger :=
  fold_left (fun s tx => step tx s) txs s.

(** A freshly deployed escrow contract, over a token in any state. *)
Definition deployed (s : Ledger) : Prop :=
  exists deployer self tokenAddress token,
    constructor deployer tokenAddress (blankLedger self token) = Ok (tt, s).

Inductive reachable : Ledger -> Prop :=
| reachable_deployed s : deployed s -> reachable s
| reachable_step s tx : reachable s -> reachable (step tx s).

(** The amounts released on the escrow of [taskId] since it was created,
    read off the event log. *)
Definition releasedStep (taskId : string) (acc : Z) (e : Event) : Z :=
  match e with
  | EscrowCreated t _ _ _ _ => if String.eqb t taskId then 0 else acc
  | MilestoneReleased t _ amount => if String.eqb t taskId then acc + amount else acc
  | _ => acc
  end.

Definition released (taskId : string) (log : list Event) : Z :=
  fold_left (releasedStep taskId) log 0.

(** The token transfers recorded in a log. *)
Definition transfersOf (log : list Event) : list (address * address * Z) :=
  flat_map (fun e => match e with Transfer f t v => [(f, t, v)] | _ => [] end) log.

(** What a successful [_update] between two accounts does to the token. *)
Definition moveTokens (from to value : Z) (t : Token) : Token :=
  let t1 := set_balance from (balanceOf from t - value) t in
  set_balance to (balanceOf to t1 + value) t1.

(** ** Readings of the contract used in the statements below *)

(** The score [_updateReputation] leaves, as a function of the stored one. *)
Definition nextReputation (current : Z) (success : bool) : Z :=
  if success then
    if current <? 100 then (if 100 <? current + 5 then 100 else current + 5) else current
  else
    if 10 <? current then (if current - 10 <? 0 then 0 else current - 10) else current.

(** The amount [releaseMilestone] computes for a milestone. *)
Definition milestonePayout (e : Escrow) (milestoneIndex : Z) : Z :=
  if milestoneIndex =? totalMilestones e - 1
  then totalAmount e - paidAmount e
  else totalAmount e / totalMilestones e.

(** What a resolution moves, and to whom. *)
Definition resolutionTransfers (this : address) (e : Escrow) (resolution : DisputeStatus)
    : list (address * address * Z) :=
  let remaining := totalAmount e - paidAmount e in
  match resolution with
  | RESOLVED_FULL => [(this, agent e, remaining)]
  | REFUNDED => [(this, payer e, remaining)]
  | RESOLVED_PARTIAL =>
      [(this, agent e, remaining / 2); (this, payer e, remaining - remaining / 2)]
  | _ => []
  end.

(** The escrow stored under [t] after a successful transaction, and what
    the guards of the transaction say about the escrow it names. *)
Definition escrowAfter (tx : Tx) (t : string) (e : Escrow) : Escrow :=
  match call tx with
  | CreateEscrow k agent amount milestones =>
      if decide (k = t) then mkEscrow (sender tx) agent amount 0 milestones 0 true false NONE
      else e
  | ReleaseMilestone k milestoneIndex =>
      if decide (k = t) then
        let final := milestonesCompleted e + 1 =? totalMilestones e in
        mkEscrow (payer e) (agent e) (totalAmount e)
          (paidAmount e + milestonePayout e milestoneIndex) (totalMilestones e)
          (milestonesCompleted e + 1) (negb final) (final || isCompleted e) (disputeStatus e)
      else e
  | RaiseDispute k => if decide (k = t) then set_disputeStatus OPEN e else e
  | ResolveDispute k resolution =>
      if decide (k = t) then set_disputeStatus resolution (set_isActive false e) else e
  | EmergencyRefund k =>
      if decide (k = t) then set_isCompleted false (set_isActive false e) else e
  | _ => e
  end.

Definition guardOf (tx : Tx) (s : Ledger) : Prop :=
  match call tx with
  | CreateEscrow k _ amount milestones =>
      isActive (escrowAt k s) = false /\ isCompleted (escrowAt k s) = false /\
      0 < amount /\ 0 < milestones
  | ReleaseMilestone k milestoneIndex =>
      isActive (escrowAt k s) = true /\ disputeStatus (escrowAt k s) = NONE /\
      milestoneIndex = milestonesCompleted (escrowAt k s)
  | RaiseDispute k =>
      isActive (escrowAt k s) = true /\
      (sender tx = payer (escrowAt k s) \/ sender tx = agent (escrowAt k s))
  | ResolveDispute k _ => disputeStatus (escrowAt k s) = OPEN
  | EmergencyRefund k => isActive (escrowAt k s) = true
  | _ => True
  end.

(** Calls that end a dispute on [taskId] or put a new escrow in its place,
    and calls that put a new escrow in its place. *)
Definition settles (taskId : string) (tx : Tx) : bool :=
  match call tx with
  | ResolveDispute k _ | CreateEscrow k _ _ _ => String.eqb k taskId
  | _ => false
  end.

Definition recreates (taskId : string) (tx : Tx) : bool :=
  match call tx with
  | CreateEscrow k _ _ _ => String.eqb k taskId
  | _ => false
  end.

(** The invariant of the ledger: what holds of every stored escrow and of
    every reputation in every reachable state. *)
Definition escrow_ok (e : Escrow) : Prop :=
  0 <= paidAmount e <= totalAmount e /\
  0 <= milestonesCompleted e <= totalMilestones e /\
  (isActive e = true ->
     isCompleted e = false /\
     milestonesCompleted e < totalMilestones e /\
     paidAmount e = milestonesCompleted e * (totalAmount e / totalMilestones e)).

Definition ledger_ok (s : Ledger) : Prop :=
  (forall taskId,
    escrow_ok (escrowAt taskId s) /\
    paidAmount (escrowAt taskId s) = released taskId (events s)) /\
  (forall account, 0 <= reputationOf account s <= 100).

(** Events that do not enter the sum of released amounts. *)
Definition quiet (e : Event) : bool :=
  match e with
  | EscrowCreated _ _ _ _ _ | MilestoneReleased _ _ _ => false
  | _ => true
  end.

(** ** Concrete ledgers

    Account 1 deploys the token and the escrow contract (placed at 1000),
    so it holds the supply and the three roles; account 7 is the agent. *)

Definition genesis : Ledger :=
  exec_state (constructor 1 2000) (blankLedger 1000 (MNEE_constructor 1)).

Definition tx (who : address) (c : Call) : Tx := mkTx who 1700000000 c.

Definition fund (taskId : string) (amount milestones : Z) : list Tx :=
  [tx 1 (TokenApprove 1000 MAX_UINT256); tx 1 (CreateEscrow taskId 7 amount milestones)].

Definition prove (taskId : string) (milestoneIndex : Z) : list Tx :=
  [tx 7 (SubmitWorkProof taskId milestoneIndex 11); tx 1 (VerifyWorkProof taskId milestoneIndex)].

Definition complete (taskId : string) : list Tx :=
  fund taskId 10 1 ++ prove taskId 0 ++ [tx 1 (ReleaseMilestone taskId 0)].

Definition refund (taskId : string) : list Tx :=
  fund taskId 10 1 ++ [tx 1 (RaiseDispute taskId); tx 1 (ResolveDispute taskId REFUNDED)].

Definition approved : Ledger := step (tx 1 (TokenApprove 1000 MAX_UINT256)) genesis.

(** 100 tokens over three milestones, every proof verified. *)
Definition threeProved : Ledger :=
  run (fund "T1" 100 3 ++ prove "T1" 0 ++ prove "T1" 1 ++ prove "T1" 2) genesis.

(** 100 tokens on a single milestone, proof verified; and after its release. *)
Definition oneProved : Ledger := run (fund "T1" 100 1 ++ prove "T1" 0) genesis.
Definition completedOnce : Ledger := step (tx 1 (ReleaseMilestone "T1" 0)) oneProved.

(** 100 tokens over two milestones, the first proof verified. *)
Definition disputed : Ledger := run (fund "T1" 100 2 ++ prove "T1" 0) genesis.

(** Disputes raised by the payer over 51 and over 100 tokens. *)
Definition dispute51 : Ledger := run (fund "D" 51 1 ++ [tx 1 (RaiseDispute "D")]) genesis.
Definition dispute100 : Ledger := run (fund "T1" 100 2 ++ [tx 1 (RaiseDispute "T1")]) genesis.

(** An agent with ten completed tasks, and a dispute on an eleventh. *)
Definition veteranDispute : Ledger :=
  run (flat_map complete ["J0"; "J1"; "J2"; "J3"; "J4"; "J5"; "J6"; "J7"; "J8"; "J9"]
       ++ fund "D" 51 1 ++ [tx 1 (RaiseDispute "D")]) genesis.

(** An agent after four disputes resolved against it. *)
Definition fourRefunds : Ledger :=
  run (flat_map refund ["R1"; "R2"; "R3"; "R4"]) genesis.

(** The deployer hands the token over to account 5, which mints 100 tokens
    for the agent; the agent burns 40 of them. *)
Definition newOwnerMints : list Tx :=
  [tx 1 (TokenTransferOwnership 5); tx 5 (TokenMint 7 100); tx 7 (TokenBurn 40)].

(** The same agent, with a dispute over 51 tokens on a fifth task. *)
Definition lowDispute : Ledger :=
  run (flat_map refund ["R1"; "R2"; "R3"; "R4"] ++ fund "D" 51 1 ++ [tx 1 (RaiseDispute "D")])
      genesis.

(** ** The transaction executor: [src/agents/EscrowAgent.ts]

    [executeTransaction] appends a callback to the promise chain
    [this.mutationQueue]; the callback runs the retry loop. The model keeps
    the chain as the list of its links, in the order of the calls. A link is
    [Queued] until the JavaScript runtime may start its callback, which is
    when the promise before it has settled; it is then [InLoop] between two
    iterations of the [while] loop, and [Done] once its promise has settled.
    The runtime picks which link to resume next, in any order ([Resume]);
    the provider, the chain and [Math.random] answer through [Env], one
    answer per interaction, indexed by the number of interactions so far. *)

Module Executor.

Record JsError := mkError {
  code : string;
  message : string
}.

Record Receipt := mkReceipt {
  receiptHash : Z;
  blockNumber : Z
}.

(** [s.includes(sub)] *)
Definition includes (s sub : string) : bool :=
  match String.index 0 sub s with
  | Some _ => true
  | None => false
  end.

Definition isNonceError (error : JsError) : bool :=
  String.eqb (code error) "NONCE_EXPIRED" || includes (message error) "nonce".

Definition maxAttempts : Z := 5.

Inductive Effect :=
| LogExecuting (context : string) (attempt maxAttempts : Z)
| LogTxSent (context : string) (hash : Z)
| LogConfirmed (context : string) (receipt : option Receipt)
| LogNonceConflict (context : string) (expected : option Z) (attempts maxAttempts : Z)
| LogFailed (context : string) (message : string)
| LogQueueError (context : string) (message : string)
| LogTxOptions (latest : Z) (pending : option Z)
| QueryLatestNonce (answer : option Z)
| QueryPendingNonce (answer : option Z)
| QueryBlockNumber (answer : option Z)
| SendTx (request : string) (nonce : option Z) (answer : JsError + Z)
| WaitTx (hash : Z) (answer : JsError + option Receipt)
| Sleep (ms : Z).

(** The world outside the agent. [None] answers stand for a provider call
    that throws; [random] is the whole number of milliseconds that
    [Math.random() * 1000] adds to a timer. *)
Record Env := mkEnv {
  getTransactionCount : nat -> option Z;
  getNonce : nat -> option Z;
  getBlockNumber : nat -> option Z;
  sendTransaction : nat -> string -> option Z -> JsError + Z;
  waitForReceipt : nat -> Z -> JsError + option Receipt;
  random : nat -> Z
}.

(** Entries of the trace carry the index of the link that caused them. *)
Record World := mkWorld {
  clock : nat;
  trace : list (nat * Effect)
}.

Definition W (A : Type) : Type := World -> A * World.

#[global] Instance W_ret : MRet W := fun A a w => (a, w).
#[global] Instance W_bind : MBind W := fun A B f m w =>
  let (a, w') := m w in f a w'.

Definition record (k : nat) (e : Effect) : W unit :=
  fun w => (tt, mkWorld (clock w) (trace w ++ [(k, e)])).

(** One interaction with the outside: read the answer, note it, advance. *)
Definition ask {A} (k : nat) (answer : nat -> A) (e : A -> Effect) : W A :=
  fun w => (answer (clock w), mkWorld (S (clock w)) (trace w ++ [(k, e (answer (clock w)))])).

Record Job := mkJob {
  context : string;
  request : string       (* the contract method and arguments of the closure *)
}.

Definition getTxOptions (env : Env) (k : nat) : W (option Z) :=
  latest ← ask k (getTransactionCount env) QueryLatestNonce;
  match latest with
  | Some n =>
      pending ← ask k (getNonce env) QueryPendingNonce;
      record k (LogTxOptions n pending);;
      mret (Some n)
  | None => mret None
  end.

(** The closure every caller passes:
    [async () => { const opts = await this.getTxOptions(); return contract.method(..., opts); }] *)
Definition operation (env : Env) (k : nat) (job : Job) : W (JsError + Z) :=
  opts ← getTxOptions env k;
  ask k (fun t => sendTransaction env t (request job) opts) (SendTx (request job) opts).

Inductive Settled :=
| Fulfilled (result : option Receipt)
| Rejected (error : JsError).

Inductive Link :=
| Queued
| InLoop (attempts : Z)
| Done (outcome : Settled).

(** The [catch] block of the loop body. *)
Definition onError (env : Env) (k : nat) (job : Job) (attempts : Z) (error : JsError) : W Link :=
  let attempts := attempts + 1 in
  if isNonceError error && (attempts <? maxAttempts) then
    latest ← ask k (getTransactionCount env) QueryLatestNonce;
    match latest with
    | Some n =>
        ask k (getNonce env) QueryPendingNonce;;
        record k (LogNonceConflict (context job) (Some (n + 1)) attempts maxAttempts)
    | None => record k (LogNonceConflict (context job) None attempts maxAttempts)
    end;;
    jitter ← (fun w => (random env (clock w), w));
    record k (Sleep (1500 + attempts * 1000 + jitter));;
    ask k (getBlockNumber env) QueryBlockNumber;;
    mret (InLoop attempts)
  else
    record k (LogFailed (context job) (message error));;
    mret (Done (Rejected error)).

(** The [try] block of the loop body: the error it throws, or the receipt. *)
Definition attempt (env : Env) (k : nat) (job : Job) (attempts : Z) : W (JsError + option Receipt) :=
  record k (LogExecuting (context job) (attempts + 1) maxAttempts);;
  sent ← operation env k job;
  match sent with
  | inr hash =>
      record k (LogTxSent (context job) hash);;
      mined ← ask k (fun t => waitForReceipt env t hash) (WaitTx hash);
      match mined with
      | inr result =>
          record k (LogConfirmed (context job) result);;
          mret (inr result)
      | inl error => mret (inl error)
      end
  | inl error => mret (inl error)
  end.

(** One turn of [while (attempts < maxAttempts) { try { ... } catch { ... } }]. *)
Definition iteration (env : Env) (k : nat) (job : Job) (attempts : Z) : W Link :=
  if attempts <? maxAttempts then
    outcome ← attempt env k job attempts;
    match outcome with
    | inr result => mret (Done (Fulfilled result))
    | inl error => onError env k job attempts error
    end
  else mret (Done (Fulfilled None)).

(** The [.catch] after the [.then]: log the error and throw it again. *)
Definition catchQueueError (k : nat) (job : Job) (link : Link) : W Link :=
  match link with
  | Done (Rejected error) =>
      record k (LogQueueError (context job) (message error));;
      mret link
  | _ => mret link
  end.

Record Agent := mkAgent {
  mutationQueue : list (Job * Link);
  world : World
}.

Definition initialAgent : Agent := mkAgent [] (mkWorld 0 []).

(** [this.mutationQueue = this.mutationQueue.then(...).catch(...)] *)
Definition executeTransaction (context request : string) (a : Agent) : Agent :=
  mkAgent (mutationQueue a ++ [(mkJob context request, Queued)]) (world a).

(** The promise link [k] was chained on: [Promise.resolve()] for the first. *)
Definition previous (k : nat) (a : Agent) : Link :=
  match k with
  | O => Done (Fulfilled None)
  | S i => match mutationQueue a !! i with
           | Some (_, link) => link
           | None => Queued
           end
  end.

Definition resume (env : Env) (k : nat) (a : Agent) : Agent :=
  match mutationQueue a !! k with
  | Some (job, Queued) =>
      match previous k a with
      | Done (Fulfilled _) =>
          let (link, w) := (iteration env k job 0 ≫= catchQueueError k job) (world a) in
          mkAgent (<[k := (job, link)]> (mutationQueue a)) w
      | Done (Rejected error) =>
          let (link, w) := catchQueueError k job (Done (Rejected error)) (world a) in
          mkAgent (<[k := (job, link)]> (mutationQueue a)) w
      | _ => a
      end
  | Some (job, InLoop attempts) =>
      let (link, w) := (iteration env k job attempts ≫= catchQueueError k job) (world a) in
      mkAgent (<[k := (job, link)]> (mutationQueue a)) w
  | _ => a
  end.

Inductive Action :=
| Submit (context request : string)   (* a handler calls executeTransaction *)
| Resume (k : nat).                   (* the runtime resumes link k *)

Definition act (env : Env) (a : Agent) (x : Action) : Agent :=
  match x with
  | Submit context request => executeTransaction context request a
  | Resume k => resume env k a
  end.

Definition runActions (env : Env) (acts : list Action) (a : Agent) : Agent :=
  fold_left (act env) acts a.

(** Readings of a trace. *)
Definition isExecuting (e : Effect) : bool :=
  match e with LogExecuting _ _ _ => true | _ => false end.

Definition effectsOf (k : nat) (t : list (nat * Effect)) : list Effect :=
  map snd (List.filter (fun p => Nat.eqb (fst p) k) t).

Definition attemptsOf (k : nat) (t : list (nat * Effect)) : nat :=
  length (List.filter isExecuting (effectsOf k t)).

Definition sleepsOf (k : nat) (t : list (nat * Effect)) : list Z :=
  flat_map (fun e => match e with Sleep ms => [ms] | _ => [] end) (effectsOf k t).

(** Scans a trace for a transaction sent with a nonce other than the one the
    provider reported in the same attempt: [fresh] is the answer to the last
    [getTransactionCount] of the running attempt, if there was one. *)
Definition nonceStep (st : option (option (option Z))) (e : Effect) : option (option (option Z)) :=
  match st with
  | None => None
  | Some fresh =>
      match e with
      | LogExecuting _ _ _ => Some None
      | QueryLatestNonce answer => Some (Some answer)
      | SendTx _ nonce _ =>
          match fresh with
          | Some answer => if decide (nonce = answer) then Some None else None
          | None => None
          end
      | _ => Some fresh
      end
  end.


Definition isDone (l : Link) : bool :=
  match l with Done _ => true | _ => false end.

Definition linkAt (k : nat) (a : Agent) : Link :=
  match mutationQueue a !! k with
  | Some (_, link) => link
  | None => Queued
  end.

Definition attemptsBefore (l : Link) : Z :=
  match l with InLoop n => n | _ => 0 end.

Definition execsIn (seg : list (nat * Effect)) : nat :=
  length (List.filter isExecuting (map snd seg)).

Definition sleepsIn (seg : list (nat * Effect)) : list Z :=
  flat_map (fun e => match e with Sleep ms => [ms] | _ => [] end) (map snd seg).

Definition nonceOk (seg : list (nat * Effect)) : Prop :=
  forall st, exists st', fold_left nonceStep (map snd seg) (Some st) = Some st'.

(** What one resumption of link [k] adds to the trace, given the number of
    failed attempts before it and the state it leaves the link in. *)
Definition stepOk (k : nat) (attempts : Z) (after : Link) (seg : list (nat * Effect)) : Prop :=
  Forall (fun p => fst p = k) seg /\
  nonceOk seg /\
  match after with
  | InLoop n =>
      n = attempts + 1 /\ n < maxAttempts /\ execsIn seg = 1%nat /\
      exists ms, sleepsIn seg = [ms] /\ 1500 + n * 1000 <= ms < 1500 + (n + 1) * 1000
  | Done _ => (execsIn seg <= 1)%nat /\ sleepsIn seg = []
  | Queued => False
  end.

(** The invariant of the agent: per link, and of the chain as a whole. *)
Definition linkInv (t : list (nat * Effect)) (k : nat) (l : Link) : Prop :=
  StronglySorted Z.lt (sleepsOf k t) /\
  match l with
  | Queued => effectsOf k t = []
  | InLoop n =>
      1 <= n < maxAttempts /\ Z.of_nat (attemptsOf k t) = n /\
      Forall (fun ms => ms < 1500 + (n + 1) * 1000) (sleepsOf k t)
  | Done _ => (attemptsOf k t <= 5)%nat
  end.

Definition agentInv (a : Agent) : Prop :=
  let q := mutationQueue a in
  let t := trace (world a) in
  (forall k, linkAt k a <> Queued ->
     (k < length q)%nat /\ forall i, (i < k)%nat -> isDone (linkAt i a) = true) /\
  StronglySorted le (map fst t) /\
  (forall p, In p t ->
     (fst p < length q)%nat /\
     forall j, (j < length q)%nat -> isDone (linkAt j a) = false -> (fst p <= j)%nat) /\
  (forall k, linkInv t k (linkAt k a)) /\
  (exists st, fold_left nonceStep (map snd t) (Some None) = Some st).

(** A chain on which the first submission meets a nonce conflict, and two
    calls of [executeTransaction] resumed out of turn. *)
Definition nonceExpired : JsError := mkError "NONCE_EXPIRED" "nonce has already been used".
Definition reverted : JsError := mkError "CALL_EXCEPTION" "execution reverted: Sequence error".

Definition busyChain : Env :=
  mkEnv (fun t => Some (Z.of_nat t)) (fun t => Some (Z.of_nat t)) (fun _ => Some 1)
        (fun t _ _ => if (t <? 6)%nat then inl nonceExpired else inr 77)
        (fun t hash => inr (Some (mkReceipt hash 9)))
        (fun t => 250).

Definition brokenChain : Env :=
  mkEnv (fun t => Some (Z.of_nat t)) (fun t => None) (fun _ => None)
        (fun t _ _ => inl reverted)
        (fun t hash => inr (Some (mkReceipt hash 9)))
        (fun t => 250).

Definition twoCalls : list Action :=
  [Submit "Create Escrow" "createEscrow(T1)";
   Submit "Release Milestone" "releaseMilestone(T1,0)";
   Resume 1; Resume 0; Resume 1; Resume 0; Resume 1].






End Executor.

(** ** Further readings of the ledger *)

(** What every stored escrow satisfies besides [escrow_ok]. *)
Definition escrow_sound (e : Escrow) : Prop :=
  (isCompleted e = true ->
     paidAmount e = totalAmount e /\ milestonesCompleted e = totalMilestones e /\
     disputeStatus e = NONE) /\
  (isActive e = true ->
     agent e <> 0 /\ payer e <> 0 /\ 0 < totalAmount e /\
     (disputeStatus e = NONE \/ disputeStatus e = OPEN)).

(** The scores the contract can store: 0 for an account never named as an
    agent, otherwise a multiple of 5 from 5 to 100. *)
Definition score_ok (r : Z) : Prop := r = 0 \/ (5 <= r <= 100 /\ r mod 5 = 0).

(** The role a call is restricted to by its [onlyRole] modifier. *)
Definition requiredRole (c : Call) : option Role :=
  match c with
  | VerifyWorkProof _ _ | ReleaseMilestone _ _ => Some AGENT_ROLE
  | ResolveDispute _ _ => Some JUDGE_ROLE
  | EmergencyRefund _ | GrantAgentRole _ | GrantJudgeRole _
  | GrantRole _ _ | RevokeRole _ _ => Some DEFAULT_ADMIN_ROLE
  | _ => None
  end.

(** The sum of all balances of the token. *)
Definition sumOf (m : gmap Z Z) : Z := map_fold (fun _ v acc => v + acc) 0 m.
Definition sumBalances (t : Token) : Z := sumOf (balances t).

(** ** Further readings of the executor *)

(** Once a link is rejected, every later link is still queued or rejected
    with the same error, without an attempt of its own. *)
Definition queueBlocked (a : Executor.Agent) : Prop :=
  forall i j error, (i < j)%nat ->
    Executor.linkAt i a = Executor.Done (Executor.Rejected error) ->
    Executor.linkAt j a = Executor.Queued \/
    (Executor.linkAt j a = Executor.Done (Executor.Rejected error) /\
     Executor.attemptsOf j (Executor.trace (Executor.world a)) = 0%nat).

(** The waits of one call, from the [n]-th failed attempt on: each lies in
    the second that [1500 + attempts * 1000 + Math.random() * 1000] leaves
    it. *)
Fixpoint backoffFrom (n : Z) (sleeps : list Z) : bool :=
  match sleeps with
  | [] => true
  | ms :: rest =>
      (1500 + n * 1000 <=? ms) && (ms <? 1500 + (n + 1) * 1000) && backoffFrom (n + 1) rest
  end.

Definition backoffInv (a : Executor.Agent) : Prop :=
  forall k,
    let sleeps := Executor.sleepsOf k (Executor.trace (Executor.world a)) in
    backoffFrom 1 sleeps = true /\
    match Executor.linkAt k a with
    | Executor.Queued => sleeps = []
    | Executor.InLoop n => Z.of_nat (length sleeps) = n
    | Executor.Done _ => (length sleeps <= 4)%nat
    end.

(** ** The error reports of the escrow agent: [categorizeError]

    Every handler of [EscrowAgent] catches what [executeTransaction] throws
    and sends the sender of the request a structured error. [shown] is
    [String(error)], which stands in for a message that is missing or
    empty. *)
Module Reports.




End Reports.

(** ** The budget agent: [BudgetAgent], second class of [src/agents/EscrowAgent.ts]

    Amounts are [bigint]s, so integers without bound; times are the
    milliseconds of [Date.now()]. A check reads the outside world three
    times: the token balance of the agent's wallet and the clock, once in
    [getDailySpending] and once when the record is pushed. The readings are
    part of the check, as the block time is part of a transaction.
    [ethers.formatEther], which only renders amounts in the texts sent back,
    is a parameter. *)
Module Budget.

Record BudgetLimits := mkLimits {
  totalBudget : Z;
  dailyLimit : Z;
  perTaskLimit : Z
}.

Record SpendingRecord := mkRecord {
  amount : Z;
  timestamp : Z;
  purpose : string
}.

(** [ethers.parseEther] of a whole number of tokens. *)
Definition parseEther (tokens : Z) : Z := tokens * 10 ^ 18.

(** [Partial<BudgetLimits>]: each limit may be left out. *)
Record PartialLimits := mkPartial {
  givenTotal : option Z;
  givenDaily : option Z;
  givenPerTask : option Z
}.

(** [given || fallback] on an optional [bigint]: [undefined] and [0n] are
    both falsy. *)
Definition orElse (given : option Z) (fallback : Z) : Z :=
  match given with
  | Some v => if v =? 0 then fallback else v
  | None => fallback
  end.

Record Agent := mkAgent {
  limits : BudgetLimits;
  spendingHistory : list SpendingRecord
}.

Definition constructor (given : option PartialLimits) : Agent :=
  mkAgent
    (mkLimits (orElse (given ≫= givenTotal) (parseEther 10000))
              (orElse (given ≫= givenDaily) (parseEther 1000))
              (orElse (given ≫= givenPerTask) (parseEther 100)))
    [].

Definition getTotalSpending (a : Agent) : Z :=
  fold_left (fun sum record => sum + amount record) (spendingHistory a) 0.

Definition getDailySpending (now : Z) (a : Agent) : Z :=
  let oneDayAgo := now - 24 * 60 * 60 * 1000 in
  fold_left (fun sum record => sum + amount record)
    (List.filter (fun record => oneDayAgo <=? timestamp record) (spendingHistory a)) 0.

(** A [BUDGET_CHECK_REQUEST] as [handleBudgetCheck] meets it. [requested] is
    [ethers.parseEther(request.amount)] and [currentBalance] what
    [getMNEEBalance] returns; either is [None] when the call throws, which
    ends the handler there. *)
Record Check := mkCheck {
  sender : string;               (* message.from *)
  requested : option Z;
  reasonFor : string;            (* request.purpose *)
  currentBalance : option Z;
  clockAtCheck : Z;              (* Date.now() in getDailySpending *)
  clockAtRecord : Z              (* Date.now() when the record is pushed *)
}.

Inductive Verdict := BUDGET_APPROVED | BUDGET_REJECTED.

Record BudgetApproval := mkApproval {
  approved : bool;
  remainingBalance : string;
  reason : option string
}.

(** The message handed to [sendMessage]: recipient, type and payload. *)
Record Answer := mkAnswer {
  recipient : string;
  verdict : Verdict;
  approval : BudgetApproval
}.

Section WithFormat.
Variable formatEther : Z -> string.

Definition reasonsOf (l : BudgetLimits)
    (sufficientBalance withinPerTaskLimit withinDailyLimit withinTotalBudget : bool)
    : list string :=
  (if negb sufficientBalance then ["Insufficient balance"] else []) ++
  (if negb withinPerTaskLimit
   then ["Exceeds per-task limit (" ++ formatEther (perTaskLimit l) ++ " MNEE)"] else []) ++
  (if negb withinDailyLimit
   then ["Exceeds daily limit (" ++ formatEther (dailyLimit l) ++ " MNEE)"] else []) ++
  (if negb withinTotalBudget
   then ["Exceeds total budget (" ++ formatEther (totalBudget l) ++ " MNEE)"] else []).

Definition handleBudgetCheck (c : Check) (a : Agent) : Agent * option Answer :=
  match requested c with
  | None => (a, None)
  | Some amount =>
      match currentBalance c with
      | None => (a, None)
      | Some balance =>
          let sufficientBalance := amount <=? balance in
          let withinPerTaskLimit := amount <=? perTaskLimit (limits a) in
          let withinDailyLimit :=
            getDailySpending (clockAtCheck c) a + amount <=? dailyLimit (limits a) in
          let withinTotalBudget :=
            getTotalSpending a + amount <=? totalBudget (limits a) in
          let approved :=
            forallb id [sufficientBalance; withinPerTaskLimit; withinDailyLimit; withinTotalBudget] in
          let reason :=
            if negb approved
            then Some (String.concat "; "
                         (reasonsOf (limits a) sufficientBalance withinPerTaskLimit
                            withinDailyLimit withinTotalBudget))
            else None in
          let a' :=
            if approved
            then mkAgent (limits a)
                   (spendingHistory a ++ [mkRecord amount (clockAtRecord c) (reasonFor c)])
            else a in
          (a',
           Some (mkAnswer (sender c)
                   (if approved then BUDGET_APPROVED else BUDGET_REJECTED)
                   (mkApproval approved
                      (formatEther (balance - (if approved then amount else 0)))
                      reason)))
      end
  end.

(** The checks of a list handled one after the other. *)
Definition runChecks (checks : list Check) (a : Agent) : Agent :=
  fold_left (fun a c => fst (handleBudgetCheck c a)) checks a.

End WithFormat.

(** The clock never goes back: from [start] on, every reading is at least
    the one before. *)
Fixpoint clockOk (start : Z) (checks : list Check) : bool :=
  match checks with
  | [] => true
  | c :: rest =>
      (start <=? clockAtCheck c) && (clockAtCheck c <=? clockAtRecord c) &&
      clockOk (clockAtRecord c) rest
  end.

Definition lastClock (start : Z) (checks : list Check) : Z :=
  fold_left (fun _ c => clockAtRecord c) checks start.

Definition nonNegative (c : Check) : bool :=
  match requested c with Some v => 0 <=? v | None => true end.

End Budget.

(** ** The message bus: [src/communication/MessageBus.ts]

    The agents reach each other through the bus: [BaseAgent.sendMessage] and
    [BaseAgent.broadcast] stamp a message and hand it to [sendMessage] and
    [broadcast] here. The [Map] of registered agents is kept as the
    language keeps it: the list of its entries in insertion order, in which
    [delete] empties the entry of a key and [set] appends an entry for a new
    key, so that [forEach], which walks the list by index, also comes to the
    agents registered while it runs and passes over those unregistered
    before it reaches them. [emit] notes the event and runs the listeners
    subscribed to it before it returns; a listener may call the bus again in
    the meantime (the handlers of the agents do), so what the listeners do
    with the bus is a parameter [on] of every operation that emits. Code
    that runs on the bus leaves a bus, or does not return ([None]): a walk
    over agents whose listeners keep registering new ones never ends.
    [subscribe] and [unsubscribe] only add and remove listeners of the
    [EventEmitter]; the console lines are left out. *)
Module Bus.

Record Message := mkMessage {
  id : string;
  type : string;           (* a value of the string enum MessageType *)
  from : string;
  to : string;
  timestamp : Z;
  payload : string         (* any value; the bus only passes it on *)
}.

Record Bus := mkBus {
  entries : list (option string);       (* this.agents: [None] is an emptied entry *)
  messageHistory : list Message;
  emitted : list (string * Message)     (* the calls of [this.emit] *)
}.

Definition maxHistorySize : nat := 1000.

Definition newBus : Bus := mkBus [] [] [].

(** The keys of the entries that are not empty. *)
Fixpoint keys (slots : list (option string)) : list string :=
  match slots with
  | [] => []
  | Some agentName :: rest => agentName :: keys rest
  | None :: rest => keys rest
  end.

(** The registered agents, in the order of their registration. *)
Definition agents (b : Bus) : list string := keys (entries b).

Definition Code : Type := Bus -> option Bus.

Definition Listeners : Type := string -> Message -> Code.

(** Listeners that leave the bus alone. *)
Definition silent : Listeners := fun _ _ b => Some b.

Definition has (agentName : string) (b : Bus) : bool :=
  existsb (String.eqb agentName) (agents b).

Definition registerAgent (agentName : string) (b : Bus) : Bus :=
  if has agentName b then b
  else mkBus (entries b ++ [Some agentName])%list (messageHistory b) (emitted b).

(** [Map.prototype.delete]: the entry of the key is emptied, not removed. *)
Definition emptied (agentName : string) (slot : option string) : option string :=
  match slot with
  | Some a => if String.eqb a agentName then None else Some a
  | None => None
  end.

Definition unregisterAgent (agentName : string) (b : Bus) : Bus :=
  mkBus (map (emptied agentName) (entries b)) (messageHistory b) (emitted b).

Definition emit (on : Listeners) (event : string) (message : Message) (b : Bus) : option Bus :=
  on event message
    (mkBus (entries b) (messageHistory b) (emitted b ++ [(event, message)])%list).

Definition sendMessage (on : Listeners) (message : Message) (b : Bus) : option Bus :=
  if negb (has (to message) b) then Some b
  else
    let pushed := (messageHistory b ++ [message])%list in
    let history :=
      if (maxHistorySize <? length pushed)%nat then List.tl pushed else pushed in
    let b := mkBus (entries b) history (emitted b) in
    b ← emit on ("message:" ++ to message) message b;
    emit on "message" message b.

(** [{ ...message, to: agentName }] *)
Definition withTo (agentName : string) (message : Message) : Message :=
  mkMessage (id message) (type message) (from message) agentName
            (timestamp message) (payload message).

(** The callback [broadcast] passes to [forEach]. *)
Definition forward (on : Listeners) (message : Message) (agentName : string) (b : Bus)
    : option Bus :=
  if negb (String.eqb agentName (from message))
  then sendMessage on (withTo agentName message) b
  else Some b.

(** [Map.prototype.forEach]: the walk looks at the entry at [index] of the
    list as it is then, calls [callback] when the entry is not empty, and
    goes on to the next index until it is past the end of the list, which
    [callback] may have made longer. [fuel] bounds the number of entries the
    walk looks at. *)
Fixpoint forEach (fuel : nat) (callback : string -> Code) (index : nat) (b : Bus)
    : option Bus :=
  match entries b !! index with
  | None => Some b
  | Some slot =>
      match fuel with
      | O => None
      | S fuel =>
          match slot with
          | Some agentName =>
              b ← callback agentName b;
              forEach fuel callback (S index) b
          | None => forEach fuel callback (S index) b
          end
      end
  end.

Definition broadcast (fuel : nat) (on : Listeners) (message : Message) (b : Bus) : option Bus :=
  forEach fuel (forward on message) 0 b.

Record Filter := mkFilter {
  byFrom : option string;
  byTo : option string;
  byType : option string
}.

(** A field of the filter counts when it is there and is not the empty
    string: [filter.from && ...]. *)
Definition given (field : option string) : bool :=
  match field with
  | Some s => negb (String.eqb s "")
  | None => false
  end.

Definition differs (field : option string) (value : string) : bool :=
  match field with
  | Some s => negb (String.eqb value s)
  | None => true
  end.

Definition getHistory (filter : option Filter) (b : Bus) : list Message :=
  match filter with
  | None => messageHistory b
  | Some filter =>
      List.filter
        (fun msg =>
           if given (byFrom filter) && differs (byFrom filter) (from msg) then false
           else if given (byTo filter) && differs (byTo filter) (to msg) then false
           else if given (byType filter) && differs (byType filter) (type msg) then false
           else true)
        (messageHistory b)
  end.

Definition getRegisteredAgents (b : Bus) : list string := agents b.

(** What code that uses the bus can do to it: any sequence of its
    operations, chosen by what it reads from the bus, where the listeners
    are such code again. [mayRegister] says whether the code, its listeners
    included, registers or unregisters agents. *)
Inductive busCode (mayRegister : bool) : Code -> Prop :=
| code_skip : busCode mayRegister Some
| code_seq f g :
    busCode mayRegister f -> busCode mayRegister g ->
    busCode mayRegister (fun b => f b ≫= g)
| code_read {X} (read : Bus -> X) (k : X -> Code) :
    (forall x, busCode mayRegister (k x)) -> busCode mayRegister (fun b => k (read b) b)
| code_register agentName :
    mayRegister = true -> busCode mayRegister (fun b => Some (registerAgent agentName b))
| code_unregister agentName :
    mayRegister = true -> busCode mayRegister (fun b => Some (unregisterAgent agentName b))
| code_send on message :
    (forall event m, busCode mayRegister (on event m)) ->
    busCode mayRegister (sendMessage on message)
| code_broadcast fuel on message :
    (forall event m, busCode mayRegister (on event m)) ->
    busCode mayRegister (broadcast fuel on message).

(** The messages taken in by [sendMessage], oldest first: those emitted to
    their recipients. *)
Definition accepted (b : Bus) : list Message :=
  map snd (List.filter (fun p => negb (String.eqb (fst p) "message")) (emitted b)).

Definition lastOf (n : nat) {A} (l : list A) : list A := skipn (length l - n) l.

(** The bus [sendMessage] hands to the listeners of the recipient, with the
    message pushed on the history, and the bus it hands to the listeners of
    every message. *)
Definition pushedOn (message : Message) (b : Bus) : Bus :=
  mkBus (entries b)
    (if (maxHistorySize <? length (messageHistory b ++ [message]))%nat
     then List.tl (messageHistory b ++ [message])
     else (messageHistory b ++ [message])%list)
    (emitted b ++ [(("message:" ++ to message)%string, message)])%list.

Definition noted (message : Message) (b : Bus) : Bus :=
  mkBus (entries b) (messageHistory b) (emitted b ++ [("message", message)])%list.

(** Three agents, and listeners by which [A] registers a fourth, [D], when
    a message reaches it. *)
Definition threeAgents : Bus :=
  registerAgent "C" (registerAgent "B" (registerAgent "A" newBus)).

Definition lateRegistration : Listeners :=
  fun event _ b =>
    if String.eqb event "message:A" then Some (registerAgent "D" b) else Some b.

End Bus.

(** * Properties *)

(** ** Running a transaction, step by step *)

Section Monad.
Context {A B : Type}.

Lemma bind_Ok (m : M A) (f : A -> M B) s r :
  (m ≫= f) s = Ok r <-> exists a s1, m s = Ok (a, s1) /\ f a s1 = Ok r.
Proof.
  unfold mbind, M_bind. destruct (m s) as [[a s1]|msg]; split.
  - intros H. exists a, s1. auto.
  - intros (a' & s1' & [= <- <-] & H). exact H.
  - discriminate.
  - intros (a' & s1' & [=] & _).
Qed.

Lemma bind_step (m : M A) (f : A -> M B) s a s1 :
  m s = Ok (a, s1) -> (m ≫= f) s = f a s1.
Proof. unfold mbind, M_bind. intros ->. reflexivity. Qed.

Lemma bind_Revert_inv (m : M A) (f : A -> M B) s reason :
  (m ≫= f) s = Revert reason ->
  m s = Revert reason \/ exists a s1, m s = Ok (a, s1) /\ f a s1 = Revert reason.
Proof.
  unfold mbind, M_bind. destruct (m s) as [[a s1]|msg]; intros H; [right; eauto | left; congruence].
Qed.

Lemma exec_state_Revert (m : M A) s reason : m s = Revert reason -> exec_state m s = s.
Proof. unfold exec_state. intros ->. reflexivity. Qed.

End Monad.

Lemma require_Ok b msg s r : require b msg s = Ok r <-> b = true /\ r = (tt, s).
Proof.
  destruct b; cbn; split; try intros [? ?]; try intros [= <-];
    try discriminate; subst; auto.
Qed.

Lemma require_Revert b msg s reason : require b msg s = Revert reason -> b = false.
Proof. destruct b; [discriminate|reflexivity]. Qed.

Lemma checked_add_Ok max a b s r :
  checked_add max a b s = Ok r <-> a + b <= max /\ r = (a + b, s).
Proof.
  unfold checked_add. destruct (Z.leb_spec (a + b) max); cbn; split;
    try intros [? ?]; try intros [= <-]; try discriminate; subst; auto; lia.
Qed.

Lemma checked_sub_Ok a b s r :
  checked_sub a b s = Ok r <-> b <= a /\ r = (a - b, s).
Proof.
  unfold checked_sub. destruct (Z.leb_spec b a); cbn; split;
    try intros [? ?]; try intros [= <-]; try discriminate; subst; auto; lia.
Qed.

Lemma checked_sub_Revert a b s reason : checked_sub a b s = Revert reason -> a < b.
Proof. unfold checked_sub. destruct (Z.leb_spec b a); [discriminate|auto]. Qed.

Lemma checked_div_Ok a b s r :
  checked_div a b s = Ok r <-> b <> 0 /\ r = (a / b, s).
Proof.
  unfold checked_div. destruct (Z.eqb_spec b 0); cbn; split;
    try intros [? ?]; try intros [= <-]; try discriminate; subst; auto; lia.
Qed.

Lemma checked_div_Revert a b s reason : checked_div a b s = Revert reason -> b = 0.
Proof. unfold checked_div. destruct (Z.eqb_spec b 0); [auto|discriminate]. Qed.

(** Normal form of a ledger expression: fields of an updated ledger are
    read off, and a key just written is looked up. *)
Ltac lcbn :=
  cbn [this mneeToken tokenState escrows milestoneProofs reputations roles events
       set_mneeToken set_tokenState set_escrows set_milestoneProofs set_reputations set_roles set_events
       balances allowances totalSupply tokenOwner set_balance set_allowance set_totalSupply
       payer agent totalAmount paidAmount totalMilestones milestonesCompleted isActive
       isCompleted disputeStatus set_paidAmount set_milestonesCompleted set_isActive
       set_isCompleted set_disputeStatus proofAgent workHash timestamp isVerified
       set_isVerified sender now call fst snd from_option id] in *.

Ltac lnorm :=
  unfold escrowAt, proofAt, reputationOf in *;
  lcbn;
  repeat (progress (rewrite ?lookup_insert_eq, ?insert_insert_eq in * ); lcbn).

Ltac minv_prim H :=
  first
  [ apply require_Ok in H; destruct H as [? H]
  | apply checked_add_Ok in H; destruct H as [? H]
  | apply checked_sub_Ok in H; destruct H as [? H]
  | apply checked_div_Ok in H; destruct H as [? H] ];
  injection H as ? ?; subst.

(** Calls of functions with a lemma of their own; extended below. *)
Ltac minv_call H := fail.

(** Inversion of a successful run, one monadic step at a time. *)
Ltac minv1 :=
  match goal with
  | H : (_ ≫= _) _ = Ok _ |- _ =>
      let a := fresh "a" in let s1 := fresh "s" in let H1 := fresh "Hs" in
      apply bind_Ok in H; destruct H as (a & s1 & H1 & H);
      first
      [ minv_prim H1
      | minv_call H1
      | (unfold get, modify, emit, updateEscrow, updateProof, setReputation,
           modifyToken, modify, mret, M_ret, revert in H1;
         first [ discriminate H1 | injection H1 as ? ?; subst ])
      | idtac ]
  | H : require _ _ _ = Ok _ |- _ => minv_prim H
  | H : checked_add _ _ _ _ = Ok _ |- _ => minv_prim H
  | H : checked_sub _ _ _ = Ok _ |- _ => minv_prim H
  | H : checked_div _ _ _ = Ok _ |- _ => minv_prim H
  | H : emit _ _ = Ok _ |- _ => unfold emit, modify in H; injection H as ?; subst
  | H : modify _ _ = Ok _ |- _ => unfold modify in H; injection H as ?; subst
  | H : updateEscrow _ _ _ = Ok _ |- _ => unfold updateEscrow, modify in H; injection H as ?; subst
  | H : updateProof _ _ _ _ = Ok _ |- _ => unfold updateProof, modify in H; injection H as ?; subst
  | H : setReputation _ _ _ = Ok _ |- _ => unfold setReputation, modify in H; injection H as ?; subst
  | H : modifyToken _ _ = Ok _ |- _ => unfold modifyToken, modify in H; injection H as ?; subst
  | H : mret _ _ = Ok _ |- _ =>
      unfold mret, M_ret in H; first [ injection H as ? ? | injection H as ? ]; subst
  | H : revert _ _ = Ok _ |- _ => discriminate H
  | H : Revert _ = Ok _ |- _ => discriminate H
  | H : (if ?b then _ else _) _ = Ok _ |- _ => destruct b eqn:?
  | H : (match ?r with NONE => _ | _ => _ end) _ = Ok _ |- _ => destruct r
  | H : _ = Ok _ |- _ => minv_call H
  end.
Ltac minv := repeat (minv1; lnorm).

(** ** The token and the reputation update *)

Lemma _transfer_Ok from to value s r :
  _transfer from to value s = Ok r <->
  from <> 0 /\ to <> 0 /\ value <= balanceOf from (tokenState s) /\
  r = (tt, set_events (events s ++ [Transfer from to value])
            (set_tokenState (moveTokens from to value (tokenState s)) s)).
Proof.
  unfold _transfer, _update. split.
  - intros H. minv; try lia. repeat split; try lia.
  - intros (Hf & Ht & Hv & ->). unfold require, get.
    destruct (Z.eqb_spec from 0); [lia|]. destruct (Z.eqb_spec to 0); [lia|].
    cbn. unfold mbind, M_bind, mret, M_ret. cbn.
    destruct (Z.eqb_spec from 0); [lia|]. destruct (Z.eqb_spec to 0); [lia|].
    destruct (Z.leb_spec value (balanceOf from (tokenState s))); [|lia].
    reflexivity.
Qed.

Ltac minv_call H ::=
  apply _transfer_Ok in H as (? & ? & ? & H); injection H as ? ?; subst.

Lemma transfer_Ok sender to value s r :
  transfer sender to value s = Ok r <->
  sender <> 0 /\ to <> 0 /\ value <= balanceOf sender (tokenState s) /\
  r = (true, set_events (events s ++ [Transfer sender to value])
              (set_tokenState (moveTokens sender to value (tokenState s)) s)).
Proof.
  unfold transfer. rewrite bind_Ok. split.
  - intros (a & s1 & H1 & H2). apply _transfer_Ok in H1 as (? & ? & ? & [= -> ->]).
    injection H2 as <-. auto.
  - intros (? & ? & ? & ->). eexists tt, _. split; [apply _transfer_Ok; eauto|reflexivity].
Qed.

Lemma transfer_Revert caller to value s reason :
  transfer caller to value s = Revert reason ->
  caller = 0 \/ to = 0 \/ balanceOf caller (tokenState s) < value.
Proof.
  intros H.
  destruct (Z.eq_dec caller 0); [auto|]. destruct (Z.eq_dec to 0); [auto|].
  destruct (Z_lt_le_dec (balanceOf caller (tokenState s)) value); [auto|].
  exfalso. assert (Hok : transfer caller to value s = Ok (true,
      set_events (events s ++ [Transfer caller to value])
        (set_tokenState (moveTokens caller to value (tokenState s)) s))).
  { apply transfer_Ok. auto. }
  congruence.
Qed.

Lemma transferFrom_Ok sender from to value s r :
  transferFrom sender from to value s = Ok r ->
  exists token',
    r = (true, set_events (events s ++ [Transfer from to value]) (set_tokenState token' s)).
Proof.
  unfold transferFrom, _spendAllowance, _approve. intros H.
  minv; eauto.
Qed.

Lemma balanceOf_moveTokens a from to value t :
  balanceOf a (moveTokens from to value t) =
  balanceOf a t - (if decide (a = from) then value else 0)
                + (if decide (a = to) then value else 0).
Proof.
  unfold moveTokens, balanceOf, set_balance; cbn.
  destruct (decide (a = to)) as [Hto|Hto], (decide (a = from)) as [Hfrom|Hfrom]; subst;
    rewrite ?lookup_insert_eq, ?lookup_insert_ne by congruence; cbn;
    rewrite ?lookup_insert_eq, ?lookup_insert_ne by congruence; cbn; lia.
Qed.

Lemma transfersOf_app l l' : transfersOf (l ++ l') = (transfersOf l ++ transfersOf l')%list.
Proof. unfold transfersOf. apply flat_map_app. Qed.

(** [_updateReputation] never reverts; it stores [nextReputation] for the agent and touches no other score. *)
Lemma _updateReputation_run agent success s :
  exists reps,
    _updateReputation agent success s =
      Ok (tt, set_events
                (events s ++ [ReputationUpdated agent (nextReputation (reputationOf agent s) success)])
                (set_reputations reps s)) /\
    forall a, default 0 (reps !! a) =
      if decide (a = agent) then nextReputation (reputationOf agent s) success
      else reputationOf a s.
Proof.
  set (next := nextReputation (reputationOf agent s) success).
  assert (Hins : forall a, default 0 (<[agent := next]> (reputations s) !! a) =
            if decide (a = agent) then next else reputationOf a s).
  { intros a. destruct (decide (a = agent)) as [->|].
    - rewrite lookup_insert_eq. reflexivity.
    - rewrite lookup_insert_ne by congruence. reflexivity. }
  assert (Hsame : next = reputationOf agent s ->
            forall a, default 0 (reputations s !! a) =
              if decide (a = agent) then next else reputationOf a s).
  { intros -> a. destruct (decide (a = agent)) as [->|]; reflexivity. }
  subst next.
  unfold _updateReputation, nextReputation, get, checked_add, checked_sub, setReputation,
    modify, emit, modify, mbind, M_bind, mret, M_ret, MAX_UINT256 in *.
  destruct success.
  - destruct (Z.ltb_spec (reputationOf agent s) 100).
    + destruct (Z.leb_spec (reputationOf agent s + 5) (2 ^ 256 - 1)); [|lia].
      eexists; split; [|exact Hins]. lnorm. reflexivity.
    + exists (reputations s). split; [destruct s; reflexivity | auto].
  - destruct (Z.ltb_spec 10 (reputationOf agent s)).
    + destruct (Z.leb_spec 10 (reputationOf agent s)); [|lia].
      eexists; split; [|exact Hins]. lnorm. reflexivity.
    + exists (reputations s). split; [destruct s; reflexivity | auto].
Qed.

Lemma _updateReputation_Ok agent success s r :
  _updateReputation agent success s = Ok r ->
  exists reps,
    r = (tt, set_events
                (events s ++ [ReputationUpdated agent (nextReputation (reputationOf agent s) success)])
                (set_reputations reps s)) /\
    forall a, default 0 (reps !! a) =
      if decide (a = agent) then nextReputation (reputationOf agent s) success
      else reputationOf a s.
Proof.
  destruct (_updateReputation_run agent success s) as (reps & -> & H).
  intros [= <-]. eauto.
Qed.

Lemma _updateReputation_Revert agent success s reason :
  _updateReputation agent success s = Revert reason -> False.
Proof. destruct (_updateReputation_run agent success s) as (? & -> & _). discriminate. Qed.

Ltac minv_call H ::=
  first
  [ apply _transfer_Ok in H as (? & ? & ? & H); injection H as ? ?; subst
  | apply transfer_Ok in H as (? & ? & ? & H); injection H as ? ?; subst
  | apply transferFrom_Ok in H as (? & H); injection H as ? ?; subst
  | apply _updateReputation_Ok in H as (? & H & ?); injection H as ? ?; subst ].

(** Inversion of a revert: which step failed. *)
Ltac mrev1 :=
  match goal with
  | H : (_ ≫= _) _ = Revert _ |- _ =>
      let a := fresh "a" in let s1 := fresh "s" in let H1 := fresh "Hs" in
      apply bind_Revert_inv in H; destruct H as [H | (a & s1 & H1 & H)];
      [ | first
          [ minv_prim H1
          | minv_call H1
          | (unfold get, modify, emit, updateEscrow, updateProof, setReputation,
               modifyToken, modify, mret, M_ret, revert in H1;
             first [ discriminate H1 | injection H1 as ? ?; subst ])
          | idtac ] ]
  | H : require _ _ _ = Revert _ |- _ => apply require_Revert in H
  | H : checked_sub _ _ _ = Revert _ |- _ => apply checked_sub_Revert in H
  | H : checked_div _ _ _ = Revert _ |- _ => apply checked_div_Revert in H
  | H : transfer _ _ _ _ = Revert _ |- _ => apply transfer_Revert in H
  | H : _updateReputation _ _ _ = Revert _ |- _ => apply _updateReputation_Revert in H; contradiction
  | H : get _ = Revert _ |- _ => discriminate H
  | H : emit _ _ = Revert _ |- _ => discriminate H
  | H : updateEscrow _ _ _ = Revert _ |- _ => discriminate H
  | H : mret _ _ = Revert _ |- _ => discriminate H
  | H : (match ?r with NONE => _ | _ => _ end) _ = Revert _ |- _ => destruct r
  end.
Ltac mrev := repeat (mrev1; lnorm).

Lemma nextReputation_range current success :
  0 <= current <= 100 -> 0 <= nextReputation current success <= 100.
Proof. unfold nextReputation. intros H. destruct success; repeat case_match; lia. Qed.

Lemma nextReputation_success current :
  0 <= current <= 100 -> nextReputation current true = Z.min 100 (current + 5).
Proof. unfold nextReputation. intros H. repeat case_match; lia. Qed.

Lemma nextReputation_failure current :
  10 < current -> nextReputation current false = current - 10.
Proof. unfold nextReputation. intros H. repeat case_match; lia. Qed.

(** ** The ledger invariant is kept by every transaction *)

Lemma released_app taskId l l' :
  released taskId (l ++ l') = fold_left (releasedStep taskId) l' (released taskId l).
Proof. unfold released. apply fold_left_app. Qed.

Ltac unfold_token :=
  unfold transfer, transferFrom, approve, mint, burn, transferOwnership, renounceOwnership,
    _transferOwnership, _transfer, _spendAllowance, _approve, _update in *.

Ltac unfold_fns :=
  unfold dispatch, createEscrow, submitWorkProof, verifyWorkProof, releaseMilestone,
    raiseDispute, resolveDispute, emergencyRefund, grantAgentRole, grantJudgeRole,
    _grantRole, _revokeRole, onlyRole in *.

Lemma share_bound total n k :
  0 <= total -> 0 <= k < n -> k * (total / n) <= total.
Proof.
  intros Ht Hk.
  assert (0 <= total / n) by (apply Z.div_pos; lia).
  assert (n * (total / n) <= total) by (apply Z.mul_div_le; lia).
  nia.
Qed.

Ltac split_ok Hesc Hrep t :=
  split;
  [ intros t; destruct (Hesc t) as [? ?]; unfold escrow_ok in *; lnorm;
    rewrite ?released_app; cbn [fold_left releasedStep]
  | let a := fresh "a" in intros a; pose proof (Hrep a); lnorm ].

Ltac by_task :=
  match goal with
  | |- context [<[?k := _]> (escrows _) !! ?t] =>
      destruct (String.eqb_spec k t) as [->|?];
      [ rewrite ?lookup_insert_eq | rewrite ?lookup_insert_ne by congruence ]; lnorm
  | |- context [<[?k := _]> _ !! ?t] =>
      destruct (decide (k = t)) as [->|?];
      [ rewrite ?lookup_insert_eq | rewrite ?lookup_insert_ne by congruence ]; lnorm
  end.

Ltac by_account Hx :=
  match goal with
  | |- context [default 0 (_ !! ?a)] =>
      rewrite (Hx a);
      match goal with
      | |- context [decide (?x = ?y)] => destruct (decide (x = y))
      end; [apply nextReputation_range|]; auto
  end.

Ltac name_stored :=
  match goal with
  | |- context [default zeroEscrow (escrows ?s !! ?t)] =>
      let e := fresh "e" in
      set (e := default zeroEscrow (escrows s !! t)) in *; clearbody e; destruct e; lnorm
  end.

Lemma createEscrow_preserves sender taskId agent amount milestones s s' :
  ledger_ok s -> createEscrow sender taskId agent amount milestones s = Ok (tt, s') ->
  ledger_ok s'.
Proof.
  intros [Hesc Hrep] H. unfold_fns. minv.
  all: split_ok Hesc Hrep t.
  all: try by_task.
  all: auto; try lia.
  all: repeat split; lnorm; try lia.
Qed.

Lemma releaseMilestone_preserves sender taskId idx s s' :
  ledger_ok s -> releaseMilestone sender taskId idx s = Ok (tt, s') -> ledger_ok s'.
Proof.
  intros [Hesc Hrep] H. unfold_fns. minv.
  all: pose proof (Hesc taskId) as [Hk _]; unfold escrow_ok in Hk; lnorm.
  all: split_ok Hesc Hrep t.
  all: try by_task.
  all: auto.
  all: try (match goal with Hx : context [nextReputation] |- _ => by_account Hx end).
  all: name_stored.
  all: destruct Hk as (? & ? & Hact); destruct Hact as (? & ? & ?); [assumption|].
  all: repeat split; try discriminate; try lia.
  all: try assumption.
  all: match goal with
       | Hlt : ?k < ?n |- context [?T / ?n] =>
           pose proof (share_bound T n (k + 1));
           assert (0 <= T / n) by (apply Z.div_pos; lia); nia
       end.
Qed.

Lemma submitWorkProof_preserves sender now taskId idx h s s' :
  ledger_ok s -> submitWorkProof sender now taskId idx h s = Ok (tt, s') -> ledger_ok s'.
Proof.
  intros [Hesc Hrep] H. unfold_fns. minv.
  split_ok Hesc Hrep t; auto.
Qed.

Lemma verifyWorkProof_preserves sender taskId idx s s' :
  ledger_ok s -> verifyWorkProof sender taskId idx s = Ok (tt, s') -> ledger_ok s'.
Proof.
  intros [Hesc Hrep] H. unfold_fns. minv.
  split_ok Hesc Hrep t; auto.
Qed.

Lemma raiseDispute_preserves sender taskId s s' :
  ledger_ok s -> raiseDispute sender taskId s = Ok (tt, s') -> ledger_ok s'.
Proof.
  intros [Hesc Hrep] H. unfold_fns. minv.
  split_ok Hesc Hrep t; auto.
  by_task; auto.
Qed.

Lemma resolveDispute_preserves sender taskId resolution s s' :
  ledger_ok s -> resolveDispute sender taskId resolution s = Ok (tt, s') -> ledger_ok s'.
Proof.
  intros [Hesc Hrep] H. unfold_fns. minv.
  all: split_ok Hesc Hrep t; auto.
  all: try (match goal with Hx : context [nextReputation] |- _ => by_account Hx end).
  all: try by_task; auto.
  all: intuition (try discriminate; try lia).
Qed.

Lemma emergencyRefund_preserves sender taskId s s' :
  ledger_ok s -> emergencyRefund sender taskId s = Ok (tt, s') -> ledger_ok s'.
Proof.
  intros [Hesc Hrep] H. unfold_fns. minv.
  all: split_ok Hesc Hrep t; auto.
  all: try by_task; auto.
  all: intuition (try discriminate; try lia).
Qed.

(** Calls that touch neither an escrow nor a reputation. *)
Lemma frame_preserves s s' :
  ledger_ok s ->
  escrows s' = escrows s -> reputations s' = reputations s ->
  (exists new : list Event, events s' = (events s ++ new)%list /\ forallb quiet new = true) ->
  ledger_ok s'.
Proof.
  intros [Hesc Hrep] He Hr (new & Hev & Hq). split.
  - intros t. unfold escrowAt. rewrite He, Hev, released_app.
    replace (fold_left (releasedStep t) new (released t (events s)))
      with (released t (events s)); [apply Hesc|].
    clear Hev. generalize (released t (events s)).
    induction new as [|e new IH]; intros acc; [reflexivity|].
    cbn in Hq. apply andb_prop in Hq as [Hq1 Hq2]. cbn [fold_left].
    rewrite <- IH by exact Hq2. destruct e; try discriminate; reflexivity.
  - intros a. unfold reputationOf. rewrite Hr. apply Hrep.
Qed.

Lemma exec_preserves tx s s' :
  ledger_ok s -> exec tx s = Ok (tt, s') -> ledger_ok s'.
Proof.
  intros Hok H. unfold exec in H. minv. destruct tx as [who time c]. lnorm.
  destruct c; cbn [dispatch] in H.
  1: eapply createEscrow_preserves; eassumption.
  1: eapply submitWorkProof_preserves; eassumption.
  1: eapply verifyWorkProof_preserves; eassumption.
  1: eapply releaseMilestone_preserves; eassumption.
  1: eapply raiseDispute_preserves; eassumption.
  1: eapply resolveDispute_preserves; eassumption.
  1: eapply emergencyRefund_preserves; eassumption.
  all: unfold_fns; unfold_token; minv.
  all: try (apply (frame_preserves _ _ Hok); lnorm; try reflexivity;
            first [ exists []; rewrite app_nil_r; split; reflexivity
                  | eexists; split; [reflexivity|reflexivity]
                  | rewrite <- ?app_assoc; eexists; split; [reflexivity|reflexivity] ]).
  all: try (destruct s'; exact Hok).
Qed.

Lemma step_cases tx s : (exists s', exec tx s = Ok (tt, s') /\ step tx s = s') \/ step tx s = s.
Proof.
  unfold step, exec_state. destruct (exec tx s) as [[[] s']|msg]; [left|right]; eauto.
Qed.

Lemma step_ok tx s : ledger_ok s -> ledger_ok (step tx s).
Proof.
  intros H. destruct (step_cases tx s) as [(s' & He & ->)| ->]; [|exact H].
  exact (exec_preserves _ _ _ H He).
Qed.

Lemma deployed_ok s : deployed s -> ledger_ok s.
Proof.
  intros (d & self & tok & token & H). unfold constructor, blankLedger, _grantRole in H.
  minv.
  all: split; [intros t; unfold escrow_ok, escrowAt, released; lnorm | intros a; unfold reputationOf; lnorm].
  all: rewrite ?lookup_empty; cbn; repeat split; try lia; try discriminate.
Qed.

Lemma reachable_ok s : reachable s -> ledger_ok s.
Proof. induction 1; [apply deployed_ok | apply step_ok]; assumption. Qed.

Lemma reachable_run txs s : reachable s -> reachable (run txs s).
Proof.
  revert s. induction txs as [|tx txs IH]; intros s H; [exact H|].
  cbn. apply IH. apply reachable_step. exact H.
Qed.

Lemma genesis_reachable : reachable genesis.
Proof.
  apply reachable_deployed. exists 1, 1000, 2000, (MNEE_constructor 1).
  vm_compute. reflexivity.
Qed.

(** ** What the ledger operations do *)

Lemma releaseMilestone_Ok caller taskId milestoneIndex s s' :
  releaseMilestone caller taskId milestoneIndex s = Ok (tt, s') ->
  let e := escrowAt taskId s in
  let amount := milestonePayout e milestoneIndex in
  let final := milestonesCompleted e + 1 =? totalMilestones e in
  (hasRole AGENT_ROLE caller s = true /\ isActive e = true /\ disputeStatus e = NONE /\
   milestoneIndex = milestonesCompleted e /\ isVerified (proofAt taskId milestoneIndex s) = true /\
   0 < totalMilestones e /\ (final = (milestoneIndex =? totalMilestones e - 1))) /\
  escrowAt taskId s' =
    mkEscrow (payer e) (agent e) (totalAmount e) (paidAmount e + amount) (totalMilestones e)
      (milestonesCompleted e + 1) (negb final) (final || isCompleted e) (disputeStatus e) /\
  (forall t, t <> taskId -> escrowAt t s' = escrowAt t s) /\
  (this s' = this s /\ roles s' = roles s /\ milestoneProofs s' = milestoneProofs s) /\
  tokenState s' = moveTokens (this s) (agent e) amount (tokenState s) /\
  events s' =
    (events s ++
     (if final
      then [ReputationUpdated (agent e) (nextReputation (reputationOf (agent e) s) true);
            EscrowCompleted taskId]
      else []) ++
     [Transfer (this s) (agent e) amount; MilestoneReleased taskId milestoneIndex amount])%list /\
  (forall a, reputationOf a s' =
     if final && bool_decide (a = agent e)
     then nextReputation (reputationOf a s) true else reputationOf a s).
Proof.
  intros H. unfold releaseMilestone, onlyRole in H. minv.
  all: unfold milestonePayout, escrowAt, reputationOf; lnorm.
  all: match goal with
       | Hb : (_ =? milestonesCompleted _) = true |- _ => apply Z.eqb_eq in Hb; subst
       end.
  all: name_stored.
  all: match goal with Hb : bool_decide _ = true |- _ => apply bool_decide_eq_true in Hb; subst end.
  all: repeat match goal with Hb : (_ =? _) = _ |- _ => rewrite Hb; revert Hb end; intros.
  all: try (exfalso; lia).
  all: cbn [andb orb negb app].
  all: repeat split; auto; try lia.
  all: try (intros t Hne; rewrite lookup_insert_ne by congruence; reflexivity).
  all: try (lnorm; rewrite <- ?app_assoc; reflexivity).
  all: intros acct; match goal with Hx : context [nextReputation] |- _ => rewrite (Hx acct) end.
  all: match goal with
       | |- context [decide (?x = ?y)] =>
           destruct (decide (x = y)) as [->|Hne];
           [ rewrite bool_decide_true by reflexivity | rewrite bool_decide_false by exact Hne ];
           reflexivity
       end.
Qed.

(** Forward evaluation of the guards of [releaseMilestone], in the order of the source. *)
Lemma releaseMilestone_guards caller taskId milestoneIndex s :
  let e := escrowAt taskId s in
  releaseMilestone caller taskId milestoneIndex s =
    if negb (hasRole AGENT_ROLE caller s) then Revert "AccessControlUnauthorizedAccount"
    else if negb (isActive e) then Revert "Not active"
    else if negb (bool_decide (disputeStatus e = NONE)) then Revert "In dispute"
    else if negb (milestoneIndex =? milestonesCompleted e) then Revert "Sequence error"
    else releaseMilestone caller taskId milestoneIndex s.
Proof.
  cbv zeta. unfold releaseMilestone at 1, onlyRole, get, require, mbind, M_bind, mret, M_ret, revert.
  destruct (hasRole AGENT_ROLE caller s) eqn:Hr; cbn [negb]; [|reflexivity].
  destruct (isActive (escrowAt taskId s)) eqn:Ha; cbn [negb]; [|reflexivity].
  destruct (bool_decide (disputeStatus (escrowAt taskId s) = NONE)) eqn:Hd; cbn [negb]; [|reflexivity].
  destruct (milestoneIndex =? milestonesCompleted (escrowAt taskId s)) eqn:Hi; cbn [negb]; [|reflexivity].
  unfold releaseMilestone, onlyRole, get, require, mbind, M_bind, mret, M_ret, revert.
  rewrite Hr, Ha, Hd, Hi. reflexivity.
Qed.

Lemma hasRole_roles role a s s' : roles s' = roles s -> hasRole role a s' = hasRole role a s.
Proof. unfold hasRole. intros ->. reflexivity. Qed.

Lemma resolveDispute_Ok caller taskId resolution s s' :
  resolveDispute caller taskId resolution s = Ok (tt, s') ->
  let e := escrowAt taskId s in
  let remaining := totalAmount e - paidAmount e in
  (hasRole JUDGE_ROLE caller s = true /\ disputeStatus e = OPEN /\
   paidAmount e <= totalAmount e) /\
  escrowAt taskId s' = set_disputeStatus resolution (set_isActive false e) /\
  (forall t, t <> taskId -> escrowAt t s' = escrowAt t s) /\
  (this s' = this s /\ roles s' = roles s /\ milestoneProofs s' = milestoneProofs s) /\
  tokenState s' =
    match resolution with
    | RESOLVED_FULL => moveTokens (this s) (agent e) remaining (tokenState s)
    | REFUNDED => moveTokens (this s) (payer e) remaining (tokenState s)
    | RESOLVED_PARTIAL =>
        moveTokens (this s) (payer e) (remaining - remaining / 2)
          (moveTokens (this s) (agent e) (remaining / 2) (tokenState s))
    | _ => tokenState s
    end /\
  transfersOf (events s') =
    (transfersOf (events s) ++ resolutionTransfers (this s) e resolution)%list /\
  (exists l, events s' = (l ++ [DisputeResolved taskId resolution])%list) /\
  (forall a, reputationOf a s' =
     match resolution with
     | RESOLVED_FULL =>
         if bool_decide (a = agent e) then nextReputation (reputationOf a s) true
         else reputationOf a s
     | REFUNDED =>
         if bool_decide (a = agent e) then nextReputation (reputationOf a s) false
         else reputationOf a s
     | _ => reputationOf a s
     end).
Proof.
  intros H. unfold resolveDispute, onlyRole in H. minv.
  all: unfold resolutionTransfers, escrowAt, reputationOf; lnorm.
  all: match goal with Hb : bool_decide _ = true |- _ => apply bool_decide_eq_true in Hb end.
  all: repeat split; auto; try lia.
  all: try (intros t Hne; rewrite lookup_insert_ne by congruence; reflexivity).
  all: try (rewrite !transfersOf_app; cbn; rewrite ?app_nil_r, <- ?app_assoc; reflexivity).
  all: try (eexists; reflexivity).
  all: intros acct; match goal with Hx : context [nextReputation] |- _ => rewrite (Hx acct) end.
  all: match goal with
       | |- context [decide (?x = ?y)] =>
           destruct (decide (x = y)) as [->|Hne];
           [ rewrite bool_decide_true by reflexivity | rewrite bool_decide_false by exact Hne ];
           reflexivity
       end.
Qed.

Lemma resolveDispute_succeeds caller taskId resolution s :
  let e := escrowAt taskId s in
  hasRole JUDGE_ROLE caller s = true -> disputeStatus e = OPEN ->
  paidAmount e <= totalAmount e ->
  (this s <> 0 /\ agent e <> 0 /\ payer e <> 0 /\
   totalAmount e - paidAmount e <= balanceOf (this s) (tokenState s)
   \/ resolution = NONE \/ resolution = OPEN) ->
  exists s', resolveDispute caller taskId resolution s = Ok (tt, s').
Proof.
  intros e Hrole Hopen Hle Hfunds. subst e.
  destruct (resolveDispute caller taskId resolution s) as [[[] s']|reason] eqn:E; [eauto|exfalso].
  unfold resolveDispute, onlyRole in E. mrev.
  all: try congruence.
  all: try (match goal with Hb : bool_decide _ = false |- _ =>
              apply bool_decide_eq_false in Hb; contradiction end).
  all: try lia.
  all: destruct Hfunds as [(? & ? & ? & ?)|[?|?]]; try discriminate.
  all: repeat match goal with Hor : _ \/ _ |- _ => destruct Hor end; try lia.
  all: rewrite ?balanceOf_moveTokens in *; repeat case_decide; try lia.
  all: match goal with
       | |- context [?r / 2] => pose proof (Z.div_le_upper_bound r 2 r); lia
       | Hx : context [?r / 2] |- _ =>
           assert (0 <= r / 2 <= r) by (split; [apply Z.div_pos | apply Z.div_le_upper_bound]; lia); lia
       end.
Qed.

Lemma emergencyRefund_Ok caller taskId s s' :
  emergencyRefund caller taskId s = Ok (tt, s') ->
  let e := escrowAt taskId s in
  hasRole DEFAULT_ADMIN_ROLE caller s = true /\ isActive e = true /\
  escrowAt taskId s' = set_isCompleted false (set_isActive false e) /\
  transfersOf (events s') =
    (transfersOf (events s) ++ [(this s, payer e, totalAmount e - paidAmount e)])%list.
Proof.
  intros H. unfold emergencyRefund, onlyRole in H. minv. unfold escrowAt; lnorm.
  repeat split; auto. rewrite !transfersOf_app. cbn. rewrite <- app_assoc. reflexivity.
Qed.

Lemma createEscrow_guard caller taskId agent amount milestones s :
  isActive (escrowAt taskId s) = true \/ isCompleted (escrowAt taskId s) = true ->
  exists reason, createEscrow caller taskId agent amount milestones s = Revert reason.
Proof.
  intros H. destruct (createEscrow caller taskId agent amount milestones s) as [[[] s']|reason] eqn:E;
    [exfalso|eauto].
  unfold createEscrow in E. minv.
  all: match goal with Hb : _ && _ = true |- _ => apply andb_prop in Hb as [Hna Hnc] end.
  all: apply negb_true_iff in Hna, Hnc; unfold escrowAt in H; destruct H; congruence.
Qed.

Lemma exec_Ok_dispatch tx s r :
  exec tx s = Ok r -> dispatch (sender tx) (now tx) (call tx) s = Ok r.
Proof. unfold exec. intros H. minv. assumption. Qed.

Ltac pick_task t :=
  match goal with
  | |- context [decide (?k = t)] =>
      destruct (decide (k = t)) as [->|?];
      [ rewrite ?lookup_insert_eq | rewrite ?lookup_insert_ne by congruence ]; lnorm
  end.

Lemma exec_escrowAt tx s s' t :
  exec tx s = Ok (tt, s') ->
  escrowAt t s' = escrowAfter tx t (escrowAt t s) /\ guardOf tx s.
Proof.
  intros H. apply exec_Ok_dispatch in H. destruct tx as [who time c]. lnorm.
  unfold escrowAfter, guardOf; lnorm.
  destruct c; cbn [dispatch] in H.
  4: { apply releaseMilestone_Ok in H as ((? & ? & ? & ? & ? & ? & ?) & He & Hother & _).
       cbv zeta in *. split; [|auto].
       destruct (decide (taskId = t)) as [->|?]; [exact He|]. apply Hother. congruence. }
  5: { apply resolveDispute_Ok in H as ((? & ? & ?) & He & Hother & _).
       cbv zeta in *. split; [|auto].
       destruct (decide (taskId = t)) as [->|?]; [exact He|]. apply Hother. congruence. }
  all: unfold_fns; unfold_token; minv; unfold escrowAt; lnorm.
  all: try (split; [reflexivity|exact I]).
  all: split; [try pick_task t; try reflexivity|].
  all: repeat match goal with
         | Hb : _ && _ = true |- _ => apply andb_prop in Hb as [? ?]
         | Hb : _ || _ = true |- _ => apply orb_prop in Hb
         | Hb : negb _ = true |- _ => apply negb_true_iff in Hb
         end.
  all: repeat split; auto; try lia.
Qed.

Lemma step_escrowAt tx s t :
  escrowAt t (step tx s) = escrowAt t s \/
  (escrowAt t (step tx s) = escrowAfter tx t (escrowAt t s) /\ guardOf tx s).
Proof.
  destruct (step_cases tx s) as [(s' & He & ->)| ->]; [right|left; reflexivity].
  apply exec_escrowAt. exact He.
Qed.

(** ** Along a run of transactions *)

Lemma open_stays_open taskId tx s :
  settles taskId tx = false ->
  disputeStatus (escrowAt taskId s) = OPEN ->
  disputeStatus (escrowAt taskId (step tx s)) = OPEN.
Proof.
  intros Hn Ho. destruct (step_escrowAt tx s taskId) as [-> | [-> Hg]]; [exact Ho|].
  unfold escrowAfter, guardOf, settles in *. destruct (call tx); try exact Ho.
  all: destruct (decide (taskId0 = taskId)) as [->|?]; try exact Ho.
  all: try (rewrite String.eqb_refl in Hn; discriminate).
  all: lcbn; try reflexivity; exact Ho.
Qed.

Lemma open_stays_open_run taskId txs s :
  forallb (fun tx => negb (settles taskId tx)) txs = true ->
  disputeStatus (escrowAt taskId s) = OPEN ->
  disputeStatus (escrowAt taskId (run txs s)) = OPEN.
Proof.
  revert s. induction txs as [|tx txs IH]; intros s Hn Ho; [exact Ho|].
  cbn in Hn. apply andb_prop in Hn as [H1 H2]. apply negb_true_iff in H1.
  cbn. apply IH; [exact H2|]. apply open_stays_open; assumption.
Qed.

Lemma release_blocked caller taskId milestoneIndex s :
  disputeStatus (escrowAt taskId s) = OPEN ->
  exists reason,
    releaseMilestone caller taskId milestoneIndex s = Revert reason /\
    (hasRole AGENT_ROLE caller s = true -> isActive (escrowAt taskId s) = true ->
     reason = "In dispute").
Proof.
  intros Ho. rewrite releaseMilestone_guards. cbv zeta. rewrite Ho.
  rewrite bool_decide_false by discriminate.
  destruct (hasRole AGENT_ROLE caller s); cbn [negb]; [|eexists; split; [reflexivity|discriminate]].
  destruct (isActive (escrowAt taskId s)); cbn [negb]; eexists; split;
    try reflexivity; try discriminate; auto.
Qed.

Lemma completed_inactive s t :
  ledger_ok s -> isCompleted (escrowAt t s) = true -> isActive (escrowAt t s) = false.
Proof.
  intros [Hesc _] Hc. destruct (Hesc t) as [(_ & _ & Hact) _].
  destruct (isActive (escrowAt t s)); [|reflexivity]. destruct Hact as (? & _); congruence.
Qed.

Lemma completed_stays tx s t :
  ledger_ok s -> isCompleted (escrowAt t s) = true -> isCompleted (escrowAt t (step tx s)) = true.
Proof.
  intros Hok Hc. pose proof (completed_inactive s t Hok Hc) as Hina.
  destruct (step_escrowAt tx s t) as [-> | [-> Hg]]; [exact Hc|].
  unfold escrowAfter, guardOf in *. destruct (call tx); try exact Hc.
  all: destruct (decide (taskId = t)) as [->|?]; try exact Hc.
  all: lcbn; try exact Hc.
  - destruct Hg as (_ & ? & _). congruence.
  - rewrite Hc. apply orb_true_r.
  - congruence.
Qed.

Lemma completed_stays_run txs s t :
  ledger_ok s -> isCompleted (escrowAt t s) = true ->
  isCompleted (escrowAt t (run txs s)) = true /\ isActive (escrowAt t (run txs s)) = false.
Proof.
  revert s. induction txs as [|tx txs IH]; intros s Hok Hc.
  - split; [exact Hc|]. apply completed_inactive; assumption.
  - cbn. apply IH; [apply step_ok; exact Hok | apply completed_stays; assumption].
Qed.

Lemma only_createEscrow_activates tx s t :
  isActive (escrowAt t s) = false -> isActive (escrowAt t (step tx s)) = true ->
  recreates t tx = true.
Proof.
  intros Hina Hact. destruct (step_escrowAt tx s t) as [E | [E Hg]]; rewrite E in Hact;
    [congruence|].
  unfold escrowAfter, guardOf, recreates in *. destruct (call tx); try congruence.
  all: destruct (decide (taskId = t)) as [->|?]; try congruence.
  all: try apply String.eqb_refl.
  all: cbn in Hact; try discriminate.
  all: destruct Hg; congruence.
Qed.

Lemma inactive_stays_run txs s t :
  forallb (fun tx => negb (recreates t tx)) txs = true ->
  isActive (escrowAt t s) = false -> isActive (escrowAt t (run txs s)) = false.
Proof.
  revert s. induction txs as [|tx txs IH]; intros s Hn Hina; [exact Hina|].
  cbn in Hn. apply andb_prop in Hn as [H1 H2]. apply negb_true_iff in H1.
  cbn. apply IH; [exact H2|].
  destruct (isActive (escrowAt t (step tx s))) eqn:E; [|reflexivity].
  rewrite (only_createEscrow_activates _ _ _ Hina E) in H1. discriminate.
Qed.

(** ** The properties of the escrow ledger

    A payment is read off the token: the transfers recorded in the event log
    ([transfersOf]) and the token balances ([moveTokens]). *)

(** On the values of an unsigned type, the division of [Z] is the
    truncating division of Solidity. *)
Lemma div_truncates a b : 0 <= a -> 0 < b -> a / b = Z.quot a b.
Proof. intros Ha Hb. symmetry. apply Z.quot_div_nonneg; lia. Qed.

(** C1. Every successful [releaseMilestone] transfers to the agent exactly
    [totalAmount / totalMilestones] when the milestone is not the last one,
    and exactly [totalAmount - paidAmount] when it is the last one (index
    [totalMilestones - 1]); the transfer is the only one of the call, the
    last event is [MilestoneReleased] with that amount, and [paidAmount]
    grows by it. Releasing the three milestones of an escrow of 100 in turn
    pays 33, 33 and 34, which add up to 100. *)
Theorem releaseMilestone_pays :
  (forall caller taskId milestoneIndex s s',
     releaseMilestone caller taskId milestoneIndex s = Ok (tt, s') ->
     let escrow := escrowAt taskId s in
     let amount :=
       if milestoneIndex =? totalMilestones escrow - 1
       then totalAmount escrow - paidAmount escrow
       else totalAmount escrow / totalMilestones escrow in
     transfersOf (events s') =
       (transfersOf (events s) ++ [(this s, agent escrow, amount)])%list /\
     tokenState s' = moveTokens (this s) (agent escrow) amount (tokenState s) /\
     last (events s') = Some (MilestoneReleased taskId milestoneIndex amount) /\
     paidAmount (escrowAt taskId s') = paidAmount escrow + amount) /\
  (forall c0 c1 c2 taskId s0 s1 s2 s3,
     totalAmount (escrowAt taskId s0) = 100 ->
     totalMilestones (escrowAt taskId s0) = 3 ->
     paidAmount (escrowAt taskId s0) = 0 ->
     releaseMilestone c0 taskId 0 s0 = Ok (tt, s1) ->
     releaseMilestone c1 taskId 1 s1 = Ok (tt, s2) ->
     releaseMilestone c2 taskId 2 s2 = Ok (tt, s3) ->
     let escrow := escrowAt taskId s0 in
     transfersOf (events s3) =
       (transfersOf (events s0) ++
        [(this s0, agent escrow, 33); (this s0, agent escrow, 33); (this s0, agent escrow, 34)])%list /\
     paidAmount (escrowAt taskId s3) = 100 /\
     33 + 33 + 34 = 100).
Proof.
  assert (Hone : forall caller taskId milestoneIndex s s',
     releaseMilestone caller taskId milestoneIndex s = Ok (tt, s') ->
     transfersOf (events s') =
       (transfersOf (events s) ++
        [(this s, agent (escrowAt taskId s), milestonePayout (escrowAt taskId s) milestoneIndex)])%list /\
     tokenState s' = moveTokens (this s) (agent (escrowAt taskId s))
                       (milestonePayout (escrowAt taskId s) milestoneIndex) (tokenState s) /\
     last (events s') = Some (MilestoneReleased taskId milestoneIndex
                 (milestonePayout (escrowAt taskId s) milestoneIndex)) /\
     paidAmount (escrowAt taskId s') =
       paidAmount (escrowAt taskId s) + milestonePayout (escrowAt taskId s) milestoneIndex).
  { intros caller taskId milestoneIndex s s' H.
    apply releaseMilestone_Ok in H as (_ & He & _ & _ & Htok & Hev & _). cbv zeta in *.
    repeat split.
    - rewrite Hev, !transfersOf_app. f_equal.
      destruct (_ =? _); cbn; reflexivity.
    - exact Htok.
    - rewrite Hev.
      match goal with
      | |- last (?l1 ++ ?l2 ++ [?a; ?b]) = _ =>
          change (l1 ++ l2 ++ [a; b])%list with (l1 ++ l2 ++ [a] ++ [b])%list
      end.
      rewrite !app_assoc. apply last_snoc.
    - rewrite He. reflexivity. }
  split; [exact Hone|].
  assert (Hkeep : forall caller taskId milestoneIndex s s',
     releaseMilestone caller taskId milestoneIndex s = Ok (tt, s') ->
     totalAmount (escrowAt taskId s') = totalAmount (escrowAt taskId s) /\
     totalMilestones (escrowAt taskId s') = totalMilestones (escrowAt taskId s) /\
     agent (escrowAt taskId s') = agent (escrowAt taskId s) /\
     this s' = this s).
  { intros caller taskId milestoneIndex s s' H.
    apply releaseMilestone_Ok in H as (_ & He & _ & (Hthis & _) & _). cbv zeta in *.
    rewrite He. auto. }
  intros c0 c1 c2 taskId s0 s1 s2 s3 Htotal Hn Hpaid H0 H1 H2 escrow. subst escrow.
  destruct (Hone _ _ _ _ _ H0) as (T0 & _ & _ & P0).
  destruct (Hone _ _ _ _ _ H1) as (T1 & _ & _ & P1).
  destruct (Hone _ _ _ _ _ H2) as (T2 & _ & _ & P2).
  destruct (Hkeep _ _ _ _ _ H0) as (A0 & N0 & G0 & S0).
  destruct (Hkeep _ _ _ _ _ H1) as (A1 & N1 & G1 & S1).
  unfold milestonePayout in *.
  rewrite Htotal, Hn, Hpaid in *. rewrite A0, N0 in *. rewrite A1, N1 in *.
  rewrite P0 in *. rewrite P1 in *.
  rewrite T2, T1, T0, P2, S1, S0, G1, G0, <- !app_assoc.
  repeat split.
Qed.

(** Witness of C1: the three releases on [threeProved] succeed and pay
    33, 33, 34 from the contract to the agent. *)
Lemma releaseMilestone_pays_witness :
  transfersOf (events (run [tx 1 (ReleaseMilestone "T1" 0); tx 1 (ReleaseMilestone "T1" 1);
                             tx 1 (ReleaseMilestone "T1" 2)] threeProved)) =
  (transfersOf (events threeProved) ++ [(1000, 7, 33); (1000, 7, 33); (1000, 7, 34)])%list.
Proof.
  refine (proj1 (proj2 releaseMilestone_pays 1 1 1 "T1" threeProved
            (step (tx 1 (ReleaseMilestone "T1" 0)) threeProved)
            (run [tx 1 (ReleaseMilestone "T1" 0); tx 1 (ReleaseMilestone "T1" 1)] threeProved)
            (run [tx 1 (ReleaseMilestone "T1" 0); tx 1 (ReleaseMilestone "T1" 1);
                  tx 1 (ReleaseMilestone "T1" 2)] threeProved)
            _ _ _ _ _ _)); vm_compute; reflexivity.
Defined.

(** C2. In every reachable ledger and for every task, [paidAmount] is at most
    [totalAmount], it equals the sum of the amounts released on the task's
    escrow since it was created, [milestonesCompleted] is at most
    [totalMilestones]; and the same holds after any further transaction. *)
Theorem paidAmount_invariant (s : Ledger) (Hs : reachable s) (taskId : string) :
  let holds (s : Ledger) :=
    paidAmount (escrowAt taskId s) <= totalAmount (escrowAt taskId s) /\
    paidAmount (escrowAt taskId s) = released taskId (events s) /\
    milestonesCompleted (escrowAt taskId s) <= totalMilestones (escrowAt taskId s) in
  holds s /\ forall tx, holds (step tx s).
Proof.
  assert (H : forall s, ledger_ok s ->
    paidAmount (escrowAt taskId s) <= totalAmount (escrowAt taskId s) /\
    paidAmount (escrowAt taskId s) = released taskId (events s) /\
    milestonesCompleted (escrowAt taskId s) <= totalMilestones (escrowAt taskId s)).
  { intros s0 [Hesc _]. destruct (Hesc taskId) as [(? & ? & _) ?]. repeat split; auto; lia. }
  cbv zeta. split; [|intros tx]; apply H; [|apply step_ok]; apply reachable_ok, Hs.
Qed.

(** Witness of C2: after two of three releases the stored [paidAmount] is
    the sum of the two released amounts. *)
Lemma paidAmount_invariant_witness :
  paidAmount (escrowAt "T1"
    (run [tx 1 (ReleaseMilestone "T1" 0); tx 1 (ReleaseMilestone "T1" 1)] threeProved)) =
  released "T1" (events
    (run [tx 1 (ReleaseMilestone "T1" 0); tx 1 (ReleaseMilestone "T1" 1)] threeProved)).
Proof.
  refine (proj1 (proj2 (proj1 (paidAmount_invariant
    (run [tx 1 (ReleaseMilestone "T1" 0); tx 1 (ReleaseMilestone "T1" 1)] threeProved)
    _ "T1")))).
  apply reachable_run. unfold threeProved. apply reachable_run.
  apply reachable_deployed. exists 1, 1000, 2000, (MNEE_constructor 1). vm_compute. reflexivity.
Defined.

(** C3, as amended. While [disputeStatus] is [OPEN], every [releaseMilestone]
    on the escrow reverts and changes nothing; the reason is [In dispute]
    when the caller holds the agent role and the escrow is active (the role
    check and [Not active] come first otherwise). [raiseDispute] succeeds
    only on an active escrow and only for its payer or its agent, it opens the
    dispute, and from then on no release on the task can succeed along any
    run of transactions that neither resolves the dispute nor creates an
    escrow anew under the same task. *)
Theorem open_dispute_freezes_release :
  (forall caller taskId milestoneIndex s,
     disputeStatus (escrowAt taskId s) = OPEN ->
     (exists reason,
        releaseMilestone caller taskId milestoneIndex s = Revert reason /\
        (hasRole AGENT_ROLE caller s = true -> isActive (escrowAt taskId s) = true ->
         reason = "In dispute")) /\
     exec_state (releaseMilestone caller taskId milestoneIndex) s = s) /\
  (forall raiser taskId s s',
     raiseDispute raiser taskId s = Ok (tt, s') ->
     isActive (escrowAt taskId s) = true /\
     (raiser = payer (escrowAt taskId s) \/ raiser = agent (escrowAt taskId s)) /\
     disputeStatus (escrowAt taskId s') = OPEN /\
     forall txs caller milestoneIndex,
       forallb (fun tx => negb (settles taskId tx)) txs = true ->
       exists reason,
         releaseMilestone caller taskId milestoneIndex (run txs s') = Revert reason).
Proof.
  split.
  - intros caller taskId milestoneIndex s Ho.
    destruct (release_blocked caller taskId milestoneIndex s Ho) as (reason & Hr & Hwhy).
    split; [eauto|]. apply (exec_state_Revert _ _ _ Hr).
  - intros raiser taskId s s' H.
    assert (Hopen : disputeStatus (escrowAt taskId s') = OPEN /\
                    isActive (escrowAt taskId s) = true /\
                    (raiser = payer (escrowAt taskId s) \/ raiser = agent (escrowAt taskId s))).
    { unfold raiseDispute in H. minv. unfold escrowAt; lnorm.
      split; [reflexivity|]. split; [assumption|].
      match goal with
      | Hb : _ || _ = true |- _ =>
          apply orb_prop in Hb as [Hc|Hc]; apply Z.eqb_eq in Hc; auto
      end. }
    destruct Hopen as (Ho & Ha & Hw). repeat split; auto.
    intros txs caller milestoneIndex Hn.
    destruct (release_blocked caller taskId milestoneIndex (run txs s')
                (open_stays_open_run _ _ _ Hn Ho)) as (reason & Hr & _).
    eauto.
Qed.

(** Witness of C3: after the agent raises a dispute on [disputed], a release
    attempted after an unrelated transaction reverts. *)
Lemma open_dispute_freezes_release_witness :
  exists reason,
    releaseMilestone 1 "T1" 0
      (run [tx 7 (TokenApprove 1000 5)] (step (tx 7 (RaiseDispute "T1")) disputed))
    = Revert reason.
Proof.
  refine (proj2 (proj2 (proj2 (proj2 open_dispute_freezes_release 7 "T1" disputed
             (step (tx 7 (RaiseDispute "T1")) disputed) _)))
           [tx 7 (TokenApprove 1000 5)] 1 0 _); vm_compute; reflexivity.
Defined.

(** Counterexample to C3 as stated: after a dispute and an emergency refund
    the escrow is inactive with its dispute still open, and a release by a
    holder of the agent role reverts with [Not active], not [In dispute]. *)
Lemma release_on_cancelled_dispute :
  let s := run [tx 7 (RaiseDispute "T1"); tx 1 (EmergencyRefund "T1")] disputed in
  disputeStatus (escrowAt "T1" s) = OPEN /\
  hasRole AGENT_ROLE 1 s = true /\
  releaseMilestone 1 "T1" 0 s = Revert "Not active" /\
  "Not active" <> "In dispute".
Proof.
  cbv zeta.
  split; [vm_compute; reflexivity|].
  split; [vm_compute; reflexivity|].
  split; [vm_compute; reflexivity|discriminate].
Qed.

(** C4, as amended. [releaseMilestone] succeeds only for the index equal to
    [milestonesCompleted]. After a successful release, the same call again
    reverts and changes nothing: with [Sequence error] when the released
    milestone was not the last one, and with [Not active] when it was, the
    escrow being complete by then. *)
Theorem releaseMilestone_in_order :
  (forall caller taskId milestoneIndex s s',
     releaseMilestone caller taskId milestoneIndex s = Ok (tt, s') ->
     milestoneIndex = milestonesCompleted (escrowAt taskId s)) /\
  (forall caller taskId milestoneIndex s s',
     releaseMilestone caller taskId milestoneIndex s = Ok (tt, s') ->
     releaseMilestone caller taskId milestoneIndex s' =
       Revert (if milestoneIndex =? totalMilestones (escrowAt taskId s) - 1
               then "Not active" else "Sequence error") /\
     exec_state (releaseMilestone caller taskId milestoneIndex) s' = s').
Proof.
  split.
  - intros caller taskId milestoneIndex s s' H.
    apply releaseMilestone_Ok in H as ((_ & _ & _ & Hi & _) & _). exact Hi.
  - intros caller taskId milestoneIndex s s' H.
    apply releaseMilestone_Ok in H
      as ((Hrole & Hact & Hnone & Hi & _ & Hpos & Hfinal) & He & _ & (_ & Hroles & _) & _).
    cbv zeta in *.
    assert (Hrev : releaseMilestone caller taskId milestoneIndex s' =
       Revert (if milestoneIndex =? totalMilestones (escrowAt taskId s) - 1
               then "Not active" else "Sequence error")).
    { rewrite releaseMilestone_guards. cbv zeta.
      rewrite (hasRole_roles _ _ _ _ Hroles), Hrole, He. lcbn. cbn [negb].
      rewrite <- Hfinal.
      destruct (milestonesCompleted (escrowAt taskId s) + 1 =? totalMilestones (escrowAt taskId s));
        cbn [negb]; [reflexivity|].
      rewrite Hnone. rewrite bool_decide_true by reflexivity. cbn [negb].
      destruct (Z.eqb_spec milestoneIndex (milestonesCompleted (escrowAt taskId s) + 1)); [lia|].
      reflexivity. }
    split; [exact Hrev|]. apply (exec_state_Revert _ _ _ Hrev).
Qed.

(** Witness of C4: releasing milestone 0 of three twice, the second call
    reverts with [Sequence error]. *)
Lemma releaseMilestone_in_order_witness :
  releaseMilestone 1 "T1" 0 (step (tx 1 (ReleaseMilestone "T1" 0)) threeProved) =
    Revert "Sequence error".
Proof.
  refine (proj1 (proj2 releaseMilestone_in_order 1 "T1" 0 threeProved
                   (step (tx 1 (ReleaseMilestone "T1" 0)) threeProved) _)).
  vm_compute. reflexivity.
Defined.

(** Counterexample to C4 as stated: on an escrow with a single milestone the
    first release of index 0 succeeds and the second reverts with
    [Not active], not [Sequence error]. *)
Lemma second_release_of_final_milestone :
  releaseMilestone 1 "T1" 0 oneProved = Ok (tt, step (tx 1 (ReleaseMilestone "T1" 0)) oneProved) /\
  releaseMilestone 1 "T1" 0 (step (tx 1 (ReleaseMilestone "T1" 0)) oneProved) = Revert "Not active" /\
  "Not active" <> "Sequence error".
Proof.
  split; [vm_compute; reflexivity|].
  split; [vm_compute; reflexivity|discriminate].
Qed.

(** What [resolveDispute] does on every reachable ledger. Called by a judge
    on an open dispute it succeeds when the contract holds the remaining
    amount [totalAmount - paidAmount] and no party is the zero address. When
    it succeeds the escrow is inactive in every branch; [RESOLVED_FULL] pays
    the agent the whole remaining amount and raises its reputation by 5,
    capped at 100; [REFUNDED] pays the payer the whole remaining amount and
    lowers the reputation of the agent by 10 when it is above 10, and leaves
    it as it is otherwise; [RESOLVED_PARTIAL] pays the agent the half
    rounded down and the payer the rest, with no change of reputation; with
    51 remaining these are 25 and 26. *)
Theorem resolveDispute_settles :
  (forall caller taskId resolution s,
     reachable s ->
     hasRole JUDGE_ROLE caller s = true ->
     disputeStatus (escrowAt taskId s) = OPEN ->
     this s <> 0 /\ agent (escrowAt taskId s) <> 0 /\ payer (escrowAt taskId s) <> 0 /\
     totalAmount (escrowAt taskId s) - paidAmount (escrowAt taskId s)
       <= balanceOf (this s) (tokenState s) ->
     exists s', resolveDispute caller taskId resolution s = Ok (tt, s')) /\
  (forall caller taskId resolution s s',
     reachable s ->
     resolveDispute caller taskId resolution s = Ok (tt, s') ->
     let e := escrowAt taskId s in
     let remaining := totalAmount e - paidAmount e in
     let score := reputationOf (agent e) s in
     disputeStatus e = OPEN /\
     isActive (escrowAt taskId s') = false /\
     match resolution with
     | RESOLVED_FULL =>
         transfersOf (events s') = (transfersOf (events s) ++ [(this s, agent e, remaining)])%list /\
         reputationOf (agent e) s' = Z.min 100 (score + 5)
     | REFUNDED =>
         transfersOf (events s') = (transfersOf (events s) ++ [(this s, payer e, remaining)])%list /\
         reputationOf (agent e) s' = (if 10 <? score then score - 10 else score)
     | RESOLVED_PARTIAL =>
         transfersOf (events s') =
           (transfersOf (events s) ++
            [(this s, agent e, remaining / 2); (this s, payer e, remaining - remaining / 2)])%list /\
         (forall a, reputationOf a s' = reputationOf a s) /\
         (remaining = 51 ->
          transfersOf (events s') =
            (transfersOf (events s) ++ [(this s, agent e, 25); (this s, payer e, 26)])%list)
     | _ => True
     end).
Proof.
  split.
  - intros caller taskId resolution s Hr Hrole Hopen Hfunds.
    apply resolveDispute_succeeds; auto.
    destruct (reachable_ok _ Hr) as [Hesc _]. destruct (Hesc taskId) as [(? & _) _]. lia.
  - intros caller taskId resolution s s' Hr H.
    apply resolveDispute_Ok in H as ((_ & Hopen & _) & He & _ & _ & _ & Htr & _ & Hrep).
    cbv zeta in *. destruct (reachable_ok _ Hr) as [_ Hrange].
    split; [exact Hopen|]. split; [rewrite He; reflexivity|].
    unfold resolutionTransfers in Htr.
    destruct resolution; try exact I.
    + split; [exact Htr|]. rewrite Hrep, bool_decide_true by reflexivity.
      apply nextReputation_success, Hrange.
    + split; [exact Htr|]. split; [exact Hrep|].
      intros H51. rewrite Htr, H51. reflexivity.
    + split; [exact Htr|]. rewrite Hrep, bool_decide_true by reflexivity.
      unfold nextReputation. repeat case_match; lia.
Qed.

(** A partial resolution of [dispute51] pays 25 to the agent and 26 to the
    payer. *)
Lemma resolveDispute_settles_witness :
  transfersOf (events (step (tx 1 (ResolveDispute "D" RESOLVED_PARTIAL)) dispute51)) =
  (transfersOf (events dispute51) ++ [(1000, 7, 25); (1000, 1, 26)])%list.
Proof.
  refine (proj2 (proj2 (proj2 (proj2 (proj2 resolveDispute_settles 1 "D" RESOLVED_PARTIAL dispute51
            (step (tx 1 (ResolveDispute "D" RESOLVED_PARTIAL)) dispute51) _ _)))) _).
  - unfold dispute51. apply reachable_run, genesis_reachable.
  - vm_compute. reflexivity.
  - vm_compute. reflexivity.
Defined.

(** For an agent whose reputation is 100 a full resolution succeeds and
    leaves the reputation at the cap of 100. *)
Lemma full_resolution_at_the_cap :
  let s' := step (tx 1 (ResolveDispute "D" RESOLVED_FULL)) veteranDispute in
  disputeStatus (escrowAt "D" veteranDispute) = OPEN /\
  reputationOf 7 veteranDispute = 100 /\
  resolveDispute 1 "D" RESOLVED_FULL veteranDispute = Ok (tt, s') /\
  reputationOf 7 s' = 100 /\
  reputationOf 7 s' <> reputationOf 7 veteranDispute + 5.
Proof.
  cbv zeta.
  split; [vm_compute; reflexivity|].
  split; [vm_compute; reflexivity|].
  split; [vm_compute; reflexivity|].
  split; [vm_compute; reflexivity|].
  vm_compute. discriminate.
Qed.

(** C5, the code at the input the claim fails on. The agent of [lowDispute]
    has come down to a reputation of 10 and the payer has raised a dispute
    over 51 tokens. [resolveDispute] with [REFUNDED] succeeds, pays the payer
    the whole remaining amount and leaves the escrow inactive, as the claim
    says; but the reputation of the agent stays at 10, where the claim takes
    10 off it. *)
Theorem resolveDispute_refund_at_ten :
  let s' := step (tx 1 (ResolveDispute "D" REFUNDED)) lowDispute in
  reachable lowDispute /\
  disputeStatus (escrowAt "D" lowDispute) = OPEN /\
  agent (escrowAt "D" lowDispute) = 7 /\
  totalAmount (escrowAt "D" lowDispute) - paidAmount (escrowAt "D" lowDispute) = 51 /\
  reputationOf 7 lowDispute = 10 /\
  resolveDispute 1 "D" REFUNDED lowDispute = Ok (tt, s') /\
  transfersOf (events s') = (transfersOf (events lowDispute) ++ [(1000, 1, 51)])%list /\
  isActive (escrowAt "D" s') = false /\
  reputationOf 7 s' = 10 /\
  reputationOf 7 s' <> Z.max 0 (reputationOf 7 lowDispute - 10).
Proof.
  cbv zeta.
  split; [unfold lowDispute; apply reachable_run, genesis_reachable|].
  repeat (split; [vm_compute; reflexivity|]).
  vm_compute. discriminate.
Qed.

(** C6, as amended. [createEscrow] reverts for a task whose escrow is active
    or completed. A completed escrow stays completed and inactive along
    every run from a reachable ledger, and [createEscrow] for its task
    reverts forever. An inactive escrow stays inactive along every run that
    does not create an escrow anew under its task. An emergency refund
    leaves the escrow inactive and not completed, and so does the
    resolution of a dispute raised on an active escrow: the guard of
    [createEscrow] does not stand in the way of a new escrow for the
    task. *)
Theorem one_escrow_per_task :
  (forall caller taskId agent amount milestones s,
     isActive (escrowAt taskId s) = true \/ isCompleted (escrowAt taskId s) = true ->
     exists reason, createEscrow caller taskId agent amount milestones s = Revert reason) /\
  (forall s taskId txs,
     reachable s -> isCompleted (escrowAt taskId s) = true ->
     isCompleted (escrowAt taskId (run txs s)) = true /\
     isActive (escrowAt taskId (run txs s)) = false /\
     forall caller agent amount milestones,
       exists reason,
         createEscrow caller taskId agent amount milestones (run txs s) = Revert reason) /\
  (forall s taskId txs,
     isActive (escrowAt taskId s) = false ->
     forallb (fun tx => negb (recreates taskId tx)) txs = true ->
     isActive (escrowAt taskId (run txs s)) = false) /\
  (forall s taskId caller s',
     emergencyRefund caller taskId s = Ok (tt, s') ->
     isActive (escrowAt taskId s') = false /\ isCompleted (escrowAt taskId s') = false) /\
  (forall s taskId caller resolution s',
     reachable s ->
     resolveDispute caller taskId resolution s = Ok (tt, s') ->
     isActive (escrowAt taskId s') = false /\
     (isActive (escrowAt taskId s) = true -> isCompleted (escrowAt taskId s') = false)).
Proof.
  split; [exact createEscrow_guard|].
  split.
  { intros s taskId txs Hr Hc.
    destruct (completed_stays_run txs s taskId (reachable_ok _ Hr) Hc) as [H1 H2].
    repeat split; auto. intros. apply createEscrow_guard. auto. }
  split.
  { intros s taskId txs Hina Hn. apply inactive_stays_run; assumption. }
  split.
  { intros s taskId caller s' H. apply emergencyRefund_Ok in H as (_ & _ & -> & _).
    split; reflexivity. }
  intros s taskId caller resolution s' Hr H.
  apply resolveDispute_Ok in H as (_ & -> & _). cbv zeta. lcbn. split; [reflexivity|].
  intros Ha. destruct (reachable_ok _ Hr) as [Hesc _].
  destruct (Hesc taskId) as [(_ & _ & Hact) _]. apply Hact in Ha as (? & _). assumption.
Qed.

(** Witness of C6: the completed escrow of [completedOnce] is still
    completed after an attempt to fund the task again. *)
Lemma one_escrow_per_task_witness :
  isCompleted (escrowAt "T1" (run (fund "T1" 5 1) completedOnce)) = true.
Proof.
  refine (proj1 (proj1 (proj2 one_escrow_per_task) completedOnce "T1" (fund "T1" 5 1) _ _)).
  - unfold completedOnce, oneProved. apply reachable_step, reachable_run, genesis_reachable.
  - vm_compute. reflexivity.
Defined.

(** Counterexample to C6 as stated: after an emergency refund cancelled the
    escrow of a task, [createEscrow] for the same task succeeds and
    [isActive] is true again. *)
Lemma escrow_recreated_after_refund :
  let cancelled := run (fund "T1" 100 2 ++ [tx 1 (EmergencyRefund "T1")]) genesis in
  let again := tx 1 (CreateEscrow "T1" 7 50 1) in
  isActive (escrowAt "T1" cancelled) = false /\
  In (EscrowCancelled "T1" 1 100) (events cancelled) /\
  succeeds (exec again) cancelled = true /\
  isActive (escrowAt "T1" (step again cancelled)) = true.
Proof.
  cbv zeta.
  split; [vm_compute; reflexivity|].
  split; [vm_compute; tauto|].
  split; vm_compute; reflexivity.
Qed.

(** C7, the code at the score the claim fails on. After four disputes
    resolved against it the agent has reputation 10; a failure update, run
    directly or through a fifth refund, leaves it at 10, where a decrease by
    10 floored at 0 gives 0. *)
Theorem updateReputation_failure_at_ten :
  reputationOf 7 fourRefunds = 10 /\
  reputationOf 7 (exec_state (_updateReputation 7 false) fourRefunds) = 10 /\
  Z.max 0 (10 - 10) = 0 /\
  reputationOf 7 (run (refund "R5") fourRefunds) = 10.
Proof.
  split; [vm_compute; reflexivity|].
  split; [vm_compute; reflexivity|].
  split; vm_compute; reflexivity.
Qed.

(** C9, as amended. On a reachable ledger, [resolveDispute] called by a judge
    with [NONE] or [OPEN] on an open dispute succeeds; it leaves the escrow
    inactive with the given status, moves no tokens, so that the remaining
    amount [totalAmount - paidAmount] stays with the contract, and the
    escrow stays inactive along every run that does not create an escrow
    anew under the same task. *)
Theorem resolveDispute_without_outcome :
  forall caller taskId resolution s,
    resolution = NONE \/ resolution = OPEN ->
    reachable s ->
    hasRole JUDGE_ROLE caller s = true ->
    disputeStatus (escrowAt taskId s) = OPEN ->
    exists s',
      resolveDispute caller taskId resolution s = Ok (tt, s') /\
      isActive (escrowAt taskId s') = false /\
      disputeStatus (escrowAt taskId s') = resolution /\
      transfersOf (events s') = transfersOf (events s) /\
      tokenState s' = tokenState s /\
      totalAmount (escrowAt taskId s') - paidAmount (escrowAt taskId s') =
        totalAmount (escrowAt taskId s) - paidAmount (escrowAt taskId s) /\
      forall txs,
        forallb (fun tx => negb (recreates taskId tx)) txs = true ->
        isActive (escrowAt taskId (run txs s')) = false.
Proof.
  intros caller taskId resolution s Hres Hr Hrole Hopen.
  destruct (resolveDispute_succeeds caller taskId resolution s) as [s' H]; auto.
  { destruct (reachable_ok _ Hr) as [Hesc _]. destruct (Hesc taskId) as [(? & _) _]. lia. }
  exists s'. split; [exact H|].
  apply resolveDispute_Ok in H as (_ & He & _ & _ & Htok & Htr & _).
  cbv zeta in *. unfold resolutionTransfers in Htr.
  assert (Hina : isActive (escrowAt taskId s') = false) by (rewrite He; reflexivity).
  split; [exact Hina|]. split; [rewrite He; reflexivity|].
  split; [destruct Hres as [->| ->]; rewrite Htr, app_nil_r; reflexivity|].
  split; [destruct Hres as [->| ->]; exact Htok|].
  split; [rewrite He; reflexivity|].
  intros txs Hn. apply inactive_stays_run; assumption.
Qed.

(** Witness of C9: resolving [dispute100] with [NONE]. *)
Lemma resolveDispute_without_outcome_witness :
  exists s',
    resolveDispute 1 "T1" NONE dispute100 = Ok (tt, s') /\
    isActive (escrowAt "T1" s') = false /\
    disputeStatus (escrowAt "T1" s') = NONE /\
    transfersOf (events s') = transfersOf (events dispute100) /\
    tokenState s' = tokenState dispute100 /\
    totalAmount (escrowAt "T1" s') - paidAmount (escrowAt "T1" s') =
      totalAmount (escrowAt "T1" dispute100) - paidAmount (escrowAt "T1" dispute100) /\
    forall txs,
      forallb (fun tx => negb (recreates "T1" tx)) txs = true ->
      isActive (escrowAt "T1" (run txs s')) = false.
Proof.
  refine (resolveDispute_without_outcome 1 "T1" NONE dispute100 _ _ _ _).
  - left. reflexivity.
  - unfold dispute100. apply reachable_run, genesis_reachable.
  - vm_compute. reflexivity.
  - vm_compute. reflexivity.
Defined.

(** Counterexample to C9 as stated: after a resolution with [NONE] the
    escrow is inactive, [createEscrow] for the same task succeeds, and
    [isActive] is true again. *)
Lemma escrow_recreated_after_empty_resolution :
  let resolved := step (tx 1 (ResolveDispute "T1" NONE)) dispute100 in
  let again := tx 1 (CreateEscrow "T1" 7 50 1) in
  resolveDispute 1 "T1" NONE dispute100 = Ok (tt, resolved) /\
  isActive (escrowAt "T1" resolved) = false /\
  succeeds (exec again) resolved = true /\
  isActive (escrowAt "T1" (step again resolved)) = true.
Proof.
  cbv zeta.
  split; [vm_compute; reflexivity|].
  split; [vm_compute; reflexivity|].
  split; vm_compute; reflexivity.
Qed.

(** C10. A successful [createEscrow] sets the reputation of the named agent
    to 50 exactly when the stored score is 0, emitting [ReputationUpdated]
    with 50 in that case only; a score other than 0 is kept, and no other
    account's score changes. *)
Theorem createEscrow_default_reputation :
  forall caller taskId agent amount milestones s s',
    createEscrow caller taskId agent amount milestones s = Ok (tt, s') ->
    reputationOf agent s' = (if reputationOf agent s =? 0 then 50 else reputationOf agent s) /\
    (forall a, a <> agent -> reputationOf a s' = reputationOf a s) /\
    (reputationOf agent s = 0 <->
     In (ReputationUpdated agent 50) (skipn (length (events s)) (events s'))).
Proof.
  intros caller taskId agent amount milestones s s' H.
  unfold createEscrow in H. minv.
  all: unfold reputationOf; lnorm.
  all: match goal with Hb : (_ =? 0) = _ |- _ => rename Hb into Hz end.
  all: split; [reflexivity|].
  all: split; [intros a Hne; rewrite ?lookup_insert_ne by congruence; reflexivity|].
  all: rewrite <- ?app_assoc, skipn_app, skipn_all, Nat.sub_diag; cbn.
  - split; [auto|]. intros _. apply Z.eqb_eq in Hz. exact Hz.
  - split; [intros Hx; rewrite Hx in Hz; discriminate|].
    intros [Hx|[Hx|[]]]; discriminate.
Qed.

(** Witness of C10: an agent at 10 keeps its score, an agent never seen
    starts at 50. *)
Lemma createEscrow_default_reputation_witness :
  reputationOf 7 (step (tx 1 (CreateEscrow "T9" 7 10 1)) fourRefunds) = 10 /\
  reputationOf 7 (step (tx 1 (CreateEscrow "T1" 7 100 3)) approved) = 50.
Proof.
  split.
  - refine (proj1 (createEscrow_default_reputation 1 "T9" 7 10 1 fourRefunds
                     (step (tx 1 (CreateEscrow "T9" 7 10 1)) fourRefunds) _)).
    vm_compute. reflexivity.
  - refine (proj1 (createEscrow_default_reputation 1 "T1" 7 100 3 approved
                     (step (tx 1 (CreateEscrow "T1" 7 100 3)) approved) _)).
    vm_compute. reflexivity.
Defined.

(** ** Further properties of the escrow ledger and the token *)

(** What a transaction does to a stored work proof. *)
Lemma exec_proofAt tx s s' t i :
  exec tx s = Ok (tt, s') ->
  let p := proofAt t i s in
  proofAt t i s' = p \/
  (timestamp p = 0 /\ exists who h, proofAt t i s' = mkWorkProof who h (now tx) false) \/
  (0 < timestamp p /\ isVerified p = false /\ proofAt t i s' = set_isVerified true p).
Proof.
  intros H. apply exec_Ok_dispatch in H. destruct tx as [who time c]. lnorm.
  cbv zeta. destruct c; cbn [dispatch] in H.
  4: { apply releaseMilestone_Ok in H as (_ & _ & _ & (_ & _ & Hp) & _).
       left. unfold proofAt. rewrite Hp. reflexivity. }
  5: { apply resolveDispute_Ok in H as (_ & _ & _ & (_ & _ & Hp) & _).
       left. unfold proofAt. rewrite Hp. reflexivity. }
  all: unfold_fns; unfold_token; minv; unfold proofAt; lnorm.
  all: try (left; reflexivity).
  all: match goal with
       | |- context [<[(?k, ?j) := _]> _ !! (?t', ?i')] =>
           destruct (decide ((k, j) = (t', i'))) as [E|E];
           [ injection E as -> ->; rewrite ?lookup_insert_eq
           | rewrite ?lookup_insert_ne by congruence; left; reflexivity ]
       end; lnorm.
  - right; left. split; [lia|]. eauto.
  - right; right. repeat split; try lia.
    match goal with Hb : negb _ = true |- _ => apply negb_true_iff in Hb; exact Hb end.
Qed.

Lemma step_proofAt tx s t i :
  let p := proofAt t i s in
  proofAt t i (step tx s) = p \/
  (timestamp p = 0 /\ exists who h, proofAt t i (step tx s) = mkWorkProof who h (now tx) false) \/
  (0 < timestamp p /\ isVerified p = false /\ proofAt t i (step tx s) = set_isVerified true p).
Proof.
  destruct (step_cases tx s) as [(s' & He & ->)| ->]; [|left; reflexivity].
  apply exec_proofAt. exact He.
Qed.

(** A verified proof was submitted at a time after 0. *)
Lemma verified_was_submitted s t i :
  reachable s -> isVerified (proofAt t i s) = true -> 0 < timestamp (proofAt t i s).
Proof.
  induction 1 as [s (d & self & tok & token & H)|s tx Hr IH].
  - unfold constructor, blankLedger, _grantRole in H. minv.
    all: unfold proofAt; lnorm; rewrite ?lookup_empty; cbn; discriminate.
  - destruct (step_proofAt tx s t i) as [-> | [(H0 & who & h & ->) | (Hpos & Hnv & ->)]];
      cbn; auto; discriminate.
Qed.

Lemma submitted_proof_kept tx s t i :
  let p := proofAt t i s in
  let p' := proofAt t i (step tx s) in
  timestamp p <> 0 ->
  proofAgent p' = proofAgent p /\ workHash p' = workHash p /\ timestamp p' = timestamp p /\
  (isVerified p = true -> p' = p).
Proof.
  cbv zeta. intros Hne.
  destruct (step_proofAt tx s t i) as [-> | [(H0 & _) | (Hpos & Hnv & ->)]]; auto.
  - contradiction.
  - destruct (proofAt t i s); cbn in *. repeat split. intros; congruence.
Qed.

(** X1. Once a proof is submitted for a milestone, who submitted it, its hash
    and its time never change, and once it is verified the whole proof stays
    as it is, whatever transactions follow, also when the escrow is
    cancelled and created anew under the same task. *)
Theorem work_proof_is_final s taskId milestoneIndex txs :
  reachable s ->
  let p := proofAt taskId milestoneIndex s in
  let p' := proofAt taskId milestoneIndex (run txs s) in
  (timestamp p <> 0 ->
   proofAgent p' = proofAgent p /\ workHash p' = workHash p /\ timestamp p' = timestamp p) /\
  (isVerified p = true -> p' = p).
Proof.
  intros Hr. cbv zeta.
  assert (Hkeep : forall txs s, timestamp (proofAt taskId milestoneIndex s) <> 0 ->
            let p := proofAt taskId milestoneIndex s in
            let p' := proofAt taskId milestoneIndex (run txs s) in
            proofAgent p' = proofAgent p /\ workHash p' = workHash p /\
            timestamp p' = timestamp p /\ (isVerified p = true -> p' = p)).
  { clear. induction txs as [|tx txs IH]; intros s Hne; cbv zeta; [auto|].
    cbn [run fold_left]. fold (run txs (step tx s)).
    destruct (submitted_proof_kept tx s taskId milestoneIndex Hne) as (Ha & Hh & Ht & Hv).
    destruct (IH (step tx s)) as (Ha' & Hh' & Ht' & Hv'); [congruence|].
    repeat split; try congruence.
    intros Hver. specialize (Hv Hver). rewrite Hv in Hv'. rewrite Hv'; auto. }
  split.
  - intros Hne. destruct (Hkeep txs s Hne) as (? & ? & ? & _). auto.
  - intros Hver. pose proof (verified_was_submitted s _ _ Hr Hver).
    destruct (Hkeep txs s) as (_ & _ & _ & Hv); [lia|]. auto.
Qed.

(** X2. [submitWorkProof] succeeds only for the agent of an active escrow, on an
    index below [totalMilestones] that has no proof yet; it stores the proof
    unverified, with the block time, and touches nothing else. When the block
    time is not 0, any further submission for the same milestone reverts. *)
Theorem submitWorkProof_once caller time taskId milestoneIndex hash s s' :
  0 < time ->
  submitWorkProof caller time taskId milestoneIndex hash s = Ok (tt, s') ->
  let e := escrowAt taskId s in
  (isActive e = true /\ caller = agent e /\ milestoneIndex < totalMilestones e /\
   timestamp (proofAt taskId milestoneIndex s) = 0) /\
  proofAt taskId milestoneIndex s' = mkWorkProof caller hash time false /\
  (forall t i, (t, i) <> (taskId, milestoneIndex) -> proofAt t i s' = proofAt t i s) /\
  (escrows s' = escrows s /\ tokenState s' = tokenState s /\ reputations s' = reputations s /\
   roles s' = roles s) /\
  forall caller2 time2 hash2,
    exists reason,
      submitWorkProof caller2 time2 taskId milestoneIndex hash2 s' = Revert reason /\
      (caller2 = caller -> reason = "Already submitted").
Proof.
  intros Htime H. cbv zeta. unfold submitWorkProof in H. minv.
  repeat match goal with
         | Hb : (_ =? _) = true |- _ => apply Z.eqb_eq in Hb
         | Hb : (_ <? _) = true |- _ => apply Z.ltb_lt in Hb
         end.
  split; [auto|]. split; [unfold proofAt; lnorm; reflexivity|].
  split; [intros t i Hne; unfold proofAt; lnorm; rewrite lookup_insert_ne by congruence; reflexivity|].
  split; [auto|].
  intros caller2 time2 hash2. unfold submitWorkProof, mbind, M_bind, get, require. lnorm.
  match goal with Ha : isActive _ = true |- _ => rewrite Ha end.
  destruct (caller2 =? _) eqn:Ec; cbn.
  - match goal with Hl : _ < totalMilestones _ |- _ => apply Z.ltb_lt in Hl; rewrite Hl end.
    cbn. destruct (Z.eqb_spec time 0); [lia|]. eauto.
  - eexists; split; [reflexivity|]. apply Z.eqb_neq in Ec. intros E. congruence.
Qed.

Lemma submitWorkProof_once_witness :
  let s := run (fund "T1" 100 2) genesis in
  let s' := exec_state (submitWorkProof 7 1700000000 "T1" 0 99) s in
  0 < 1700000000 /\
  submitWorkProof 7 1700000000 "T1" 0 99 s = Ok (tt, s') /\
  proofAt "T1" 0 s' = mkWorkProof 7 99 1700000000 false.
Proof.
  cbv zeta. split; [lia|]. split; [vm_compute; reflexivity|].
  refine (proj1 (proj2 (submitWorkProof_once 7 1700000000 "T1" 0 99
            (run (fund "T1" 100 2) genesis)
            (exec_state (submitWorkProof 7 1700000000 "T1" 0 99) (run (fund "T1" 100 2) genesis))
            _ _))); [lia|].
  vm_compute. reflexivity.
Defined.

Lemma work_proof_is_final_witness :
  proofAt "T1" 0 (run (refund "T1" ++ fund "T1" 100 3) threeProved) = proofAt "T1" 0 threeProved.
Proof.
  refine (proj2 (work_proof_is_final threeProved "T1" 0 _ _) _).
  - apply reachable_run, genesis_reachable.
  - vm_compute. reflexivity.
Defined.

Lemma transferFrom_moves spender from to value s r :
  transferFrom spender from to value s = Ok r ->
  let t := tokenState s in
  let granted := allowance from spender t in
  (from <> 0 /\ to <> 0 /\ value <= balanceOf from t /\
   (granted < MAX_UINT256 -> value <= granted)) /\
  r = (true, set_events (events s ++ [Transfer from to value])
        (set_tokenState
           (moveTokens from to value
              (if granted <? MAX_UINT256 then set_allowance from spender (granted - value) t
               else t)) s)).
Proof.
  unfold transferFrom, _spendAllowance, _approve. intros H. cbv zeta.
  minv; unfold allowance, balanceOf in *; lnorm.
  all: try match goal with Hb : (_ <? MAX_UINT256) = _ |- _ => rewrite Hb end.
  all: repeat match goal with
              | Hb : (_ <=? _) = true |- _ => apply Z.leb_le in Hb
              | Hb : (_ <? _) = false |- _ => apply Z.ltb_ge in Hb
              end.
  all: split; [repeat split; auto; lia|].
  all: match goal with x : Ledger |- _ => destruct x; reflexivity end.
Qed.

Lemma balanceOf_set_allowance a o sp v t :
  balanceOf a (set_allowance o sp v t) = balanceOf a t.
Proof. reflexivity. Qed.

Lemma createEscrow_Ok payer taskId agent amount milestones s s' :
  createEscrow payer taskId agent amount milestones s = Ok (tt, s') ->
  let t := tokenState s in
  let granted := allowance payer (this s) t in
  (0 < amount /\ 0 < milestones /\ agent <> 0 /\ amount <= balanceOf payer t /\
   (granted < MAX_UINT256 -> amount <= granted)) /\
  (forall a, balanceOf a (tokenState s') =
     balanceOf a t - (if decide (a = payer) then amount else 0)
                   + (if decide (a = this s) then amount else 0)) /\
  allowance payer (this s) (tokenState s') =
    (if granted <? MAX_UINT256 then granted - amount else granted) /\
  totalSupply (tokenState s') = totalSupply t /\
  escrowAt taskId s' = mkEscrow payer agent amount 0 milestones 0 true false NONE /\
  (forall k, k <> taskId -> escrowAt k s' = escrowAt k s) /\
  milestoneProofs s' = milestoneProofs s /\
  transfersOf (events s') = (transfersOf (events s) ++ [(payer, this s, amount)])%list.
Proof.
  intros H. cbv zeta. unfold createEscrow in H.
  apply bind_Ok in H as (u & s1 & H1 & H). minv_prim H1.
  apply bind_Ok in H as (u & s1 & H1 & H). minv_prim H1.
  apply bind_Ok in H as (u & s1 & H1 & H). minv_prim H1.
  apply bind_Ok in H as (s0 & s1 & H1 & H). unfold get in H1. injection H1 as <- <-.
  apply bind_Ok in H as (u & s1 & H1 & H). minv_prim H1.
  apply bind_Ok in H as (ok & s1 & H1 & H).
  apply transferFrom_moves in H1 as ((Hf & Ht & Hbal & Hall) & H1). injection H1 as -> ->.
  repeat match goal with
         | Hb : (_ <? _) = true |- _ => apply Z.ltb_lt in Hb
         | Hb : negb (_ =? _) = true |- _ => apply negb_true_iff, Z.eqb_neq in Hb
         end.
  split; [repeat split; auto|].
  assert (Hsupply : forall t0, totalSupply
            (moveTokens payer (this s) amount
               (if allowance payer (this s) t0 <? MAX_UINT256
                then set_allowance payer (this s) (allowance payer (this s) t0 - amount) t0
                else t0)) = totalSupply t0).
  { intros t0. destruct (allowance payer (this s) t0 <? MAX_UINT256); reflexivity. }
  assert (Hallow : forall t0, allowance payer (this s)
            (moveTokens payer (this s) amount
               (if allowance payer (this s) t0 <? MAX_UINT256
                then set_allowance payer (this s) (allowance payer (this s) t0 - amount) t0
                else t0)) =
            if allowance payer (this s) t0 <? MAX_UINT256
            then allowance payer (this s) t0 - amount else allowance payer (this s) t0).
  { intros t0. destruct (allowance payer (this s) t0 <? MAX_UINT256); [|reflexivity].
    unfold allowance, moveTokens, set_balance, set_allowance; cbn.
    rewrite lookup_insert_eq. reflexivity. }
  assert (Hbalance : forall a t0, balanceOf a
            (moveTokens payer (this s) amount
               (if allowance payer (this s) t0 <? MAX_UINT256
                then set_allowance payer (this s) (allowance payer (this s) t0 - amount) t0
                else t0)) =
            balanceOf a t0 - (if decide (a = payer) then amount else 0)
                           + (if decide (a = this s) then amount else 0)).
  { intros a t0. rewrite balanceOf_moveTokens. destruct (allowance payer (this s) t0 <? MAX_UINT256); reflexivity. }
  minv; unfold escrowAt; lnorm.
  all: rewrite ?transfersOf_app; cbn [transfersOf flat_map app]; rewrite ?app_nil_r.
  all: repeat split; auto.
  all: try (intros k Hk; rewrite lookup_insert_ne by congruence; reflexivity).
Qed.

(** X3. A successful [createEscrow] takes exactly [amount] from the payer into
    the contract: the payer's balance covers it and so does the allowance
    given to the contract, which goes down by [amount] unless it is the
    unlimited one; the supply is unchanged, the task's escrow is the new
    one, no other escrow and no work proof is touched. *)
Theorem createEscrow_takes_custody payer taskId agent amount milestones s s' :
  createEscrow payer taskId agent amount milestones s = Ok (tt, s') ->
  let t := tokenState s in
  let granted := allowance payer (this s) t in
  (0 < amount /\ 0 < milestones /\ agent <> 0 /\ amount <= balanceOf payer t /\
   (granted < MAX_UINT256 -> amount <= granted)) /\
  (forall a, balanceOf a (tokenState s') =
     balanceOf a t - (if decide (a = payer) then amount else 0)
                   + (if decide (a = this s) then amount else 0)) /\
  allowance payer (this s) (tokenState s') =
    (if granted <? MAX_UINT256 then granted - amount else granted) /\
  totalSupply (tokenState s') = totalSupply t /\
  escrowAt taskId s' = mkEscrow payer agent amount 0 milestones 0 true false NONE /\
  (forall k, k <> taskId -> escrowAt k s' = escrowAt k s) /\
  milestoneProofs s' = milestoneProofs s /\
  transfersOf (events s') = (transfersOf (events s) ++ [(payer, this s, amount)])%list.
Proof. exact (createEscrow_Ok payer taskId agent amount milestones s s'). Qed.

Lemma createEscrow_takes_custody_witness :
  let s' := exec_state (createEscrow 1 "T1" 7 100 3) approved in
  createEscrow 1 "T1" 7 100 3 approved = Ok (tt, s') /\
  balanceOf 1000 (tokenState s') = balanceOf 1000 (tokenState approved) - 0 + 100.
Proof.
  cbv zeta. split; [vm_compute; reflexivity|].
  refine (proj1 (proj2 (createEscrow_takes_custody 1 "T1" 7 100 3 approved
            (exec_state (createEscrow 1 "T1" 7 100 3) approved) _)) 1000).
  vm_compute. reflexivity.
Defined.

Lemma exec_sender tx s s' : exec tx s = Ok (tt, s') -> sender tx <> 0.
Proof.
  unfold exec. intros H. minv.
  repeat match goal with Hb : _ && _ = true |- _ => apply andb_prop in Hb as [Hb ?] end.
  match goal with Hb : negb _ = true |- _ => apply negb_true_iff, Z.eqb_neq in Hb; exact Hb end.
Qed.

Lemma exec_createEscrow_agent who time k a amount m s s' :
  exec (mkTx who time (CreateEscrow k a amount m)) s = Ok (tt, s') -> a <> 0.
Proof.
  intros H. apply exec_Ok_dispatch in H. cbn in H.
  apply createEscrow_Ok in H as ((_ & _ & Ha & _) & _). exact Ha.
Qed.

Lemma step_sound tx s t :
  escrow_ok (escrowAt t s) -> escrow_sound (escrowAt t s) ->
  escrow_sound (escrowAt t (step tx s)).
Proof.
  intros Hok Hs.
  destruct (step_cases tx s) as [(s' & He & ->)| ->]; [|exact Hs].
  pose proof (exec_sender _ _ _ He) as Hsender.
  destruct (exec_escrowAt tx s s' t He) as [-> Hg].
  destruct tx as [who time c]. unfold escrowAfter, guardOf in *. cbn [call sender] in *.
  destruct c; try exact Hs.
  all: destruct (decide (taskId = t)) as [->|?]; [|exact Hs].
  all: destruct Hok as (Hpaid & Hmc & Hact), Hs as [Hc Ha].
  all: set (e := escrowAt t s) in *; clearbody e;
    destruct e as [whoPays whoWorks total paid count done active completed status];
    cbn in *.
  - pose proof (exec_createEscrow_agent _ _ _ _ _ _ _ _ He).
    destruct Hg as (_ & _ & ? & _).
    split; [discriminate|]. intros _. repeat split; auto; lia.
  - destruct Hg as (-> & -> & ->). destruct (Hact eq_refl) as (-> & Hlt & Hp).
    destruct (Ha eq_refl) as (? & ? & ? & _).
    unfold milestonePayout; cbn.
    destruct (Z.eqb_spec (done + 1) count) as [E|E]; cbn.
    + split; [|discriminate]. intros _.
      destruct (Z.eqb_spec done (count - 1)); [|lia].
      repeat split; cbn; try reflexivity; lia.
    + split; [discriminate|]. intros _. cbn. repeat split; auto.
  - destruct Hg as [-> _]. destruct (Hact eq_refl) as (-> & _).
    split; [discriminate|]. intros _. destruct (Ha eq_refl) as (? & ? & ? & _). auto.
  - cbn in Hg. subst. split; [|discriminate]. intros Hcomp.
    destruct (Hc Hcomp) as (_ & _ & ?). discriminate.
  - split; discriminate.
Qed.

Lemma reachable_sound s t : reachable s -> escrow_sound (escrowAt t s).
Proof.
  induction 1 as [s (d & self & tok & token & H)|s tx Hr IH].
  - unfold constructor, blankLedger, _grantRole in H. minv.
    all: unfold escrowAt; lnorm; rewrite ?lookup_empty; cbn; split; discriminate.
  - apply step_sound; [|exact IH]. apply (reachable_ok s Hr).
Qed.

(** X4. In every reachable ledger a completed escrow has paid out its whole
    amount, in as many releases as it has milestones: nothing of it is left
    in the contract, it is inactive and it was never in dispute at the end. *)
Theorem completed_escrow_paid_in_full s taskId :
  reachable s ->
  let e := escrowAt taskId s in
  isCompleted e = true ->
  paidAmount e = totalAmount e /\ released taskId (events s) = totalAmount e /\
  milestonesCompleted e = totalMilestones e /\ isActive e = false /\
  disputeStatus e = NONE.
Proof.
  intros Hr e Hc. subst e.
  destruct (reachable_sound s taskId Hr) as [Hs _]. destruct (Hs Hc) as (Hp & Hm & Hd).
  destruct (reachable_ok s Hr) as [Hesc _]. destruct (Hesc taskId) as [Hok Hrel].
  repeat split; auto; try congruence.
  apply (completed_inactive s taskId (reachable_ok s Hr) Hc).
Qed.

Lemma completed_escrow_paid_in_full_witness :
  paidAmount (escrowAt "T1" completedOnce) = 100 /\
  released "T1" (events completedOnce) = 100.
Proof.
  assert (Hr : reachable completedOnce).
  { unfold completedOnce. apply reachable_step, reachable_run, genesis_reachable. }
  destruct (completed_escrow_paid_in_full completedOnce "T1" Hr) as (Hp & Hrel & _).
  - vm_compute. reflexivity.
  - split; [rewrite Hp | rewrite Hrel]; vm_compute; reflexivity.
Defined.

Lemma releaseMilestone_succeeds caller taskId milestoneIndex s :
  let e := escrowAt taskId s in
  let amount := milestonePayout e milestoneIndex in
  hasRole AGENT_ROLE caller s = true -> isActive e = true -> disputeStatus e = NONE ->
  milestoneIndex = milestonesCompleted e ->
  isVerified (proofAt taskId milestoneIndex s) = true ->
  0 < totalMilestones e -> paidAmount e <= totalAmount e ->
  paidAmount e + amount <= MAX_UINT256 -> milestonesCompleted e + 1 <= MAX_UINT8 ->
  this s <> 0 -> agent e <> 0 -> amount <= balanceOf (this s) (tokenState s) ->
  exists s', releaseMilestone caller taskId milestoneIndex s = Ok (tt, s').
Proof.
  intros e amount Hrole Hact Hnone Hidx Hver Htm Hpaid Hmax Hmc Hthis Hagent Hbal.
  subst e amount. unfold milestonePayout in *.
  destruct (releaseMilestone caller taskId milestoneIndex s) as [[[] s']|reason] eqn:E;
    [eauto|exfalso].
  unfold releaseMilestone, onlyRole in E.
  unfold checked_add in E.
  repeat (first [ progress mrev | progress minv
                | match goal with
                  | Hx : (if ?b then _ else _) _ = Revert _ |- _ =>
                      destruct b eqn:?; try discriminate
                  end ]).
  all: try congruence.
  all: try (match goal with Hb : bool_decide _ = false |- _ =>
              apply bool_decide_eq_false in Hb; contradiction end).
  all: unfold checked_add in *.
  all: repeat match goal with
         | Hx : (if ?b then _ else _) _ = Revert _ |- _ => destruct b eqn:?; try discriminate
         end.
  all: repeat match goal with
         | Hb : (_ <=? _) = false |- _ => apply Z.leb_gt in Hb
         | Hb : (_ =? _) = true |- _ => apply Z.eqb_eq in Hb
         | Hb : (_ =? _) = false |- _ => apply Z.eqb_neq in Hb
         | Hx : checked_sub _ _ _ = Revert _ |- _ => apply checked_sub_Revert in Hx
         | Hor : _ \/ _ |- _ => destruct Hor
         end.
  all: rewrite ?Z.eqb_refl in *.
  all: try lia.
  all: try congruence.
Qed.

(** X5. [createEscrow] leaves the stored work proofs alone. So an escrow created
    anew under a task whose first milestone was proved and verified for an
    earlier escrow starts with that milestone verified: any holder of the
    agent role can release it at once, with no new proof. *)
Theorem recreated_escrow_inherits_proofs
    who time taskId worker amount milestones caller s s' :
  exec (mkTx who time (CreateEscrow taskId worker amount milestones)) s = Ok (tt, s') ->
  (forall t i, proofAt t i s' = proofAt t i s) /\
  (isVerified (proofAt taskId 0 s) = true ->
   hasRole AGENT_ROLE caller s = true ->
   0 <= balanceOf (this s) (tokenState s) ->
   exists s'',
     releaseMilestone caller taskId 0 s' = Ok (tt, s'') /\
     transfersOf (events s'') =
       (transfersOf (events s') ++
        [(this s, worker, if milestones =? 1 then amount else amount / milestones)])%list).
Proof.
  intros H. pose proof H as Habi. unfold exec in Habi. minv.
  apply exec_Ok_dispatch in H. cbn [sender now call dispatch] in H.
  pose proof H as Hc.
  apply createEscrow_Ok in Hc
    as ((Hamount & Hm & Hagent & Hbal & _) & Hbalances & _ & _ & He & _ & Hproofs & _).
  assert (Hframe : this s' = this s /\ roles s' = roles s).
  { unfold createEscrow in H. minv; auto. }
  destruct Hframe as [Hthis Hroles].
  assert (Hto : this s <> 0).
  { unfold createEscrow in H.
    repeat (apply bind_Ok in H as (? & ? & H1 & H);
            first [ minv_prim H1
                  | unfold get in H1; injection H1 as <- <-
                  | apply transferFrom_moves in H1 as ((_ & Ht & _) & _); exact Ht ]). }
  split; [intros t i; unfold proofAt; rewrite Hproofs; reflexivity|].
  intros Hver Hrole Hpos.
  cbn [abi_ok] in *.
  repeat match goal with
         | Hb : _ && _ = true |- _ => apply andb_prop in Hb as [Hb ?]
         end.
  unfold is_uint256, is_uint8, MAX_UINT8 in *.
  repeat match goal with
         | Hb : _ && _ = true |- _ => apply andb_prop in Hb as [Hb ?]
         | Hb : (_ <=? _) = true |- _ => apply Z.leb_le in Hb
         end.
  assert (Hpay : milestonePayout (escrowAt taskId s') 0 =
                 if milestones =? 1 then amount else amount / milestones).
  { rewrite He. unfold milestonePayout; cbn [totalMilestones totalAmount paidAmount].
    destruct (Z.eqb_spec 0 (milestones - 1)), (Z.eqb_spec milestones 1); lia. }
  assert (Hle : 0 <= milestonePayout (escrowAt taskId s') 0 <= amount).
  { rewrite Hpay. destruct (milestones =? 1); [lia|].
    split; [apply Z.div_pos; lia | apply Z.div_le_upper_bound; nia]. }
  destruct (releaseMilestone_succeeds caller taskId 0 s') as [s'' Hs''].
  all: rewrite ?He; cbn [isActive disputeStatus milestonesCompleted totalMilestones
                         paidAmount totalAmount agent]; auto; try lia.
  - rewrite (hasRole_roles _ _ _ _ Hroles). exact Hrole.
  - unfold proofAt. rewrite Hproofs. exact Hver.
  - rewrite <- He. lia.
  - unfold MAX_UINT8. lia.
  - rewrite <- He, Hthis, Hbalances. repeat case_decide; subst; try congruence; lia.
  - exists s''. split; [exact Hs''|].
    apply releaseMilestone_Ok in Hs'' as (_ & _ & _ & _ & _ & Hev & _). cbv zeta in Hev.
    rewrite Hev, !transfersOf_app, Hpay, Hthis, He. cbn [agent].
    cbn [milestonesCompleted totalMilestones].
    destruct (0 + 1 =? milestones); reflexivity.
Qed.

Lemma recreated_escrow_inherits_proofs_witness :
  let s := step (tx 1 (EmergencyRefund "T1")) threeProved in
  let s' := step (tx 1 (CreateEscrow "T1" 7 90 3)) s in
  exists s'',
    releaseMilestone 1 "T1" 0 s' = Ok (tt, s'') /\
    transfersOf (events s'') =
      (transfersOf (events s') ++ [(this s, 7, if 3 =? 1 then 90 else 90 / 3)])%list.
Proof.
  cbv zeta.
  refine (proj2 (recreated_escrow_inherits_proofs 1 1700000000 "T1" 7 90 3 1
                   (step (tx 1 (EmergencyRefund "T1")) threeProved)
                   (step (tx 1 (CreateEscrow "T1" 7 90 3))
                      (step (tx 1 (EmergencyRefund "T1")) threeProved)) _) _ _ _).
  all: vm_compute; try reflexivity.
  discriminate.
Defined.

(** On [threeProved], refunded and funded again with 90 over three milestones,
    the first release needs no new proof and pays 30. *)
Example stale_proof_release :
  let s' := run [tx 1 (EmergencyRefund "T1"); tx 1 (CreateEscrow "T1" 7 90 3)] threeProved in
  succeeds (releaseMilestone 1 "T1" 0) s' = true /\
  paidAmount (escrowAt "T1" (step (tx 1 (ReleaseMilestone "T1" 0)) s')) = 30.
Proof. vm_compute. auto. Qed.

Lemma emergencyRefund_frame caller taskId s s' :
  emergencyRefund caller taskId s = Ok (tt, s') ->
  let e := escrowAt taskId s in
  let rest := totalAmount e - paidAmount e in
  (this s <> 0 /\ payer e <> 0 /\ paidAmount e <= totalAmount e /\
   rest <= balanceOf (this s) (tokenState s)) /\
  tokenState s' = moveTokens (this s) (payer e) rest (tokenState s) /\
  (this s' = this s /\ roles s' = roles s /\ milestoneProofs s' = milestoneProofs s /\
   reputations s' = reputations s) /\
  (forall k, k <> taskId -> escrowAt k s' = escrowAt k s) /\
  exists l, events s' = (l ++ [EscrowCancelled taskId (payer e) rest])%list.
Proof.
  intros H. cbv zeta. unfold emergencyRefund, onlyRole in H. minv.
  split; [repeat split; auto|]. split; [reflexivity|]. split; [auto|].
  split; [intros k Hk; unfold escrowAt; lnorm; rewrite !lookup_insert_ne by congruence; reflexivity|].
  eexists. reflexivity.
Qed.

(** X6. A successful [emergencyRefund] is called by an admin on an active
    escrow and sends the payer what the escrow has not paid out, so that what
    was released to the agent and the refund add up to the deposit. It leaves
    the escrow inactive and not completed, keeps its dispute status and
    changes no reputation. *)
Theorem emergencyRefund_returns_the_rest s caller taskId s' :
  reachable s ->
  emergencyRefund caller taskId s = Ok (tt, s') ->
  let e := escrowAt taskId s in
  let rest := totalAmount e - paidAmount e in
  (hasRole DEFAULT_ADMIN_ROLE caller s = true /\ isActive e = true) /\
  (0 <= rest /\ released taskId (events s) + rest = totalAmount e) /\
  tokenState s' = moveTokens (this s) (payer e) rest (tokenState s) /\
  transfersOf (events s') = (transfersOf (events s) ++ [(this s, payer e, rest)])%list /\
  escrowAt taskId s' = set_isCompleted false (set_isActive false e) /\
  reputations s' = reputations s.
Proof.
  intros Hr H. cbv zeta.
  destruct (emergencyRefund_Ok _ _ _ _ H) as (Hrole & Hact & He & Htr).
  destruct (emergencyRefund_frame _ _ _ _ H) as ((_ & _ & Hle & _) & Htok & (_ & _ & _ & Hrep) & _).
  destruct (reachable_ok s Hr) as [Hesc _]. destruct (Hesc taskId) as [_ Hrel].
  repeat split; auto; lia.
Qed.

Lemma emergencyRefund_returns_the_rest_witness :
  let s := step (tx 1 (ReleaseMilestone "T1" 0)) threeProved in
  let s' := exec_state (emergencyRefund 1 "T1") s in
  transfersOf (events s') = (transfersOf (events s) ++ [(1000, 1, 100 - 33)])%list.
Proof.
  cbv zeta.
  refine (proj1 (proj2 (proj2 (proj2
            (emergencyRefund_returns_the_rest
               (step (tx 1 (ReleaseMilestone "T1" 0)) threeProved) 1 "T1"
               (exec_state (emergencyRefund 1 "T1")
                  (step (tx 1 (ReleaseMilestone "T1" 0)) threeProved)) _ _))))).
  - apply reachable_step, reachable_run, genesis_reachable.
  - vm_compute. reflexivity.
Defined.

(** X7. [resolveDispute] does not ask whether the escrow is still active. When
    an escrow in dispute is cancelled by [emergencyRefund], its dispute stays
    open, and a later resolution with [REFUNDED] succeeds whenever the
    contract still holds that much: the payer is sent the unpaid rest a
    second time, out of what the contract holds for other escrows. *)
Theorem resolution_after_refund_pays_again s admin judge taskId s1 :
  reachable s ->
  disputeStatus (escrowAt taskId s) = OPEN ->
  emergencyRefund admin taskId s = Ok (tt, s1) ->
  hasRole JUDGE_ROLE judge s = true ->
  let e := escrowAt taskId s in
  let rest := totalAmount e - paidAmount e in
  rest <= balanceOf (this s) (tokenState s1) ->
  exists s2,
    resolveDispute judge taskId REFUNDED s1 = Ok (tt, s2) /\
    transfersOf (events s2) =
      (transfersOf (events s) ++ [(this s, payer e, rest); (this s, payer e, rest)])%list.
Proof.
  intros Hr Hopen H1 Hjudge e rest Hfunds. subst e rest.
  destruct (emergencyRefund_Ok _ _ _ _ H1) as (_ & Hact & He & Htr).
  destruct (emergencyRefund_frame _ _ _ _ H1)
    as ((Hthis & Hpayer & Hle & _) & _ & (Hthis' & Hroles & _) & _).
  destruct (reachable_sound s taskId Hr) as [_ Hs]. destruct (Hs Hact) as (Hagent & _).
  destruct (resolveDispute_succeeds judge taskId REFUNDED s1) as [s2 H2].
  - rewrite (hasRole_roles _ _ _ _ Hroles). exact Hjudge.
  - rewrite He. exact Hopen.
  - rewrite He. exact Hle.
  - left. rewrite He, Hthis'. auto.
  - exists s2. split; [exact H2|].
    apply resolveDispute_Ok in H2 as (_ & _ & _ & _ & _ & Htr2 & _). cbv zeta in Htr2.
    rewrite Htr2, Htr, He, Hthis', <- app_assoc. reflexivity.
Qed.

Lemma resolution_after_refund_pays_again_witness :
  let s := run (fund "T1" 100 2 ++ fund "T2" 100 2 ++ [tx 7 (RaiseDispute "T1")]) genesis in
  let s1 := exec_state (emergencyRefund 1 "T1") s in
  exists s2,
    resolveDispute 1 "T1" REFUNDED s1 = Ok (tt, s2) /\
    transfersOf (events s2) = (transfersOf (events s) ++ [(1000, 1, 100); (1000, 1, 100)])%list.
Proof.
  cbv zeta.
  refine (resolution_after_refund_pays_again
            (run (fund "T1" 100 2 ++ fund "T2" 100 2 ++ [tx 7 (RaiseDispute "T1")]) genesis)
            1 1 "T1"
            (exec_state (emergencyRefund 1 "T1")
               (run (fund "T1" 100 2 ++ fund "T2" 100 2 ++ [tx 7 (RaiseDispute "T1")]) genesis))
            _ _ _ _ _).
  - apply reachable_run, genesis_reachable.
  - vm_compute. reflexivity.
  - vm_compute. reflexivity.
  - vm_compute. reflexivity.
  - vm_compute. discriminate.
Defined.

Lemma exec_reputationOf tx s s' a :
  exec tx s = Ok (tt, s') ->
  let r := reputationOf a s in
  reputationOf a s' = r \/ (r = 0 /\ reputationOf a s' = 50) \/
  exists success, reputationOf a s' = nextReputation r success.
Proof.
  intros H. apply exec_Ok_dispatch in H. destruct tx as [who time c]. lnorm.
  cbv zeta. destruct c; cbn [dispatch] in H.
  4: { apply releaseMilestone_Ok in H as (_ & _ & _ & _ & _ & _ & Hrep). cbv zeta in Hrep.
       fold (reputationOf a s') (reputationOf a s). rewrite Hrep.
       destruct (_ && _); [right; right; exists true|left]; reflexivity. }
  5: { apply resolveDispute_Ok in H as (_ & _ & _ & _ & _ & _ & _ & Hrep). cbv zeta in Hrep.
       fold (reputationOf a s') (reputationOf a s). rewrite Hrep.
       destruct resolution; try (left; reflexivity).
       all: destruct (bool_decide _); [right; right; eexists|left]; reflexivity. }
  all: unfold_fns; unfold_token; minv; unfold reputationOf; lnorm.
  all: try (left; reflexivity).
  all: match goal with
       | |- context [<[?k := _]> _ !! ?x] =>
           destruct (decide (k = x)) as [->|?];
           [ rewrite lookup_insert_eq | rewrite lookup_insert_ne by congruence; left; reflexivity ]
       end.
  all: right; left; split; [|reflexivity].
  all: match goal with Hb : (_ =? 0) = true |- _ => apply Z.eqb_eq in Hb; exact Hb end.
Qed.

Lemma step_reputationOf tx s a :
  let r := reputationOf a s in
  reputationOf a (step tx s) = r \/ (r = 0 /\ reputationOf a (step tx s) = 50) \/
  exists success, reputationOf a (step tx s) = nextReputation r success.
Proof.
  destruct (step_cases tx s) as [(s' & He & ->)| ->]; [|left; reflexivity].
  exact (exec_reputationOf tx s s' a He).
Qed.

Lemma nextReputation_score r success : score_ok r -> score_ok (nextReputation r success).
Proof.
  unfold score_ok, nextReputation. intros [->|[Hr Hm]].
  - destruct success; [right; change (5 <= 5 <= 100 /\ 5 mod 5 = 0); split; [lia|reflexivity] | left; reflexivity].
  - right. destruct success; repeat case_match;
      repeat match goal with
             | Hb : (_ <? _) = true |- _ => apply Z.ltb_lt in Hb
             | Hb : (_ <? _) = false |- _ => apply Z.ltb_ge in Hb
             end.
    all: split; Z.div_mod_to_equations; lia.
Qed.

Lemma nextReputation_positive r success : 0 < r -> 0 < nextReputation r success.
Proof.
  unfold nextReputation. intros Hr. destruct success; repeat case_match;
    repeat match goal with
           | Hb : (_ <? _) = true |- _ => apply Z.ltb_lt in Hb
           | Hb : (_ <? _) = false |- _ => apply Z.ltb_ge in Hb
           end; lia.
Qed.

Lemma reachable_score s a : reachable s -> score_ok (reputationOf a s).
Proof.
  induction 1 as [s (d & self & tok & token & H)|s tx Hr IH].
  - unfold constructor, blankLedger, _grantRole in H. minv.
    all: unfold reputationOf; lnorm; rewrite ?lookup_empty; left; reflexivity.
  - destruct (step_reputationOf tx s a) as [-> | [[_ ->] | [b ->]]]; auto.
    + right. split; [lia|reflexivity].
    + apply nextReputation_score, IH.
Qed.

(** X8. In every reachable ledger a reputation is 0, for an account never named
    as the agent of an escrow, or a multiple of 5 between 5 and 100. A
    reputation that is not 0 never comes back to 0, whatever transactions
    follow: [createEscrow] gives the starting score of 50 to an agent once
    only. *)
Theorem reputation_scores s account txs :
  reachable s ->
  let r := reputationOf account s in
  (r = 0 \/ (5 <= r <= 100 /\ r mod 5 = 0)) /\
  (r <> 0 -> reputationOf account (run txs s) <> 0).
Proof.
  intros Hr. cbv zeta. split; [exact (reachable_score s account Hr)|].
  intros Hne.
  assert (Hpos : 0 < reputationOf account s).
  { destruct (reachable_score s account Hr) as [?|[? _]]; [contradiction|lia]. }
  clear Hne Hr.
  enough (0 < reputationOf account (run txs s)) by lia.
  revert s Hpos. induction txs as [|tx txs IH]; intros s Hpos; [exact Hpos|].
  cbn [run fold_left]. fold (run txs (step tx s)). apply IH.
  destruct (step_reputationOf tx s account) as [-> | [[H0 _] | [b ->]]]; auto.
  - lia.
  - apply nextReputation_positive, Hpos.
Qed.

Lemma reputation_scores_witness :
  reputationOf 7 (run (refund "R5" ++ refund "R6" ++ fund "T9" 10 1) fourRefunds) <> 0.
Proof.
  refine (proj2 (reputation_scores fourRefunds 7 _ _) _).
  - unfold fourRefunds. apply reachable_run, genesis_reachable.
  - vm_compute. discriminate.
Defined.

Lemma onlyRole_Revert role who s :
  hasRole role who s = false ->
  forall B (k : unit -> M B), (onlyRole role who ≫= k) s = Revert "AccessControlUnauthorizedAccount".
Proof.
  intros H B k. unfold onlyRole, mbind, M_bind, get, require. cbn. rewrite H. reflexivity.
Qed.

(** X9. A call restricted to a role reverts for a caller who does not hold it,
    and the ledger stays as it was: verifying a proof and releasing a
    milestone need the agent role, resolving a dispute the judge role, the
    emergency refund and every grant or revocation the admin role. *)
Theorem privileged_calls_need_their_role tx s role :
  requiredRole (call tx) = Some role ->
  hasRole role (sender tx) s = false ->
  (exists reason, exec tx s = Revert reason) /\ step tx s = s.
Proof.
  intros Hreq Hno.
  assert (H : exists reason, exec tx s = Revert reason).
  { unfold exec. destruct tx as [who time c]. cbn [sender now call] in *.
    unfold mbind at 1, M_bind at 1, require at 1.
    destruct (_ && _); [|eauto]. cbn.
    destruct c; cbn in Hreq; try discriminate; injection Hreq as <-; cbn [dispatch].
    all: unfold verifyWorkProof, releaseMilestone, resolveDispute, emergencyRefund,
           grantAgentRole, grantJudgeRole.
    all: rewrite (onlyRole_Revert _ _ _ Hno); eauto. }
  split; [exact H|]. destruct H as [reason H]. unfold step. apply (exec_state_Revert _ _ _ H).
Qed.

Lemma privileged_calls_need_their_role_witness :
  step (tx 7 (EmergencyRefund "T1")) threeProved = threeProved.
Proof.
  refine (proj2 (privileged_calls_need_their_role (tx 7 (EmergencyRefund "T1")) threeProved
                   DEFAULT_ADMIN_ROLE _ _)).
  - reflexivity.
  - vm_compute. reflexivity.
Defined.

Lemma exec_roles tx s s' :
  exec tx s = Ok (tt, s') ->
  roles s' = roles s \/
  (hasRole DEFAULT_ADMIN_ROLE (sender tx) s = true /\
   exists role account,
     roles s' = {[(role, account)]} ∪ roles s \/ roles s' = roles s ∖ {[(role, account)]}) \/
  (exists role, roles s' = roles s ∖ {[(role, sender tx)]}).
Proof.
  intros H. apply exec_Ok_dispatch in H. destruct tx as [who time c]. lnorm.
  destruct c; cbn [dispatch] in H.
  4: { apply releaseMilestone_Ok in H as (_ & _ & _ & (_ & Hr & _) & _). left. exact Hr. }
  5: { apply resolveDispute_Ok in H as (_ & _ & _ & (_ & Hr & _) & _). left. exact Hr. }
  all: unfold_fns; unfold_token; minv.
  all: try (left; reflexivity).
  all: try (right; left; split; [assumption|]; eexists _, _; first [left; reflexivity | right; reflexivity]).
  all: right; right.
  all: match goal with Hb : (_ =? _) = true |- _ => apply Z.eqb_eq in Hb; subst end.
  all: eexists; reflexivity.
Qed.

Lemma step_roles_granted tx s role account :
  hasRole role account (step tx s) = true -> hasRole role account s = false ->
  hasRole DEFAULT_ADMIN_ROLE (sender tx) s = true.
Proof.
  intros Hafter Hbefore.
  destruct (step_cases tx s) as [(s' & He & Hs)| Hs]; rewrite Hs in Hafter; [|congruence].
  unfold hasRole in Hafter, Hbefore.
  apply bool_decide_eq_true in Hafter. apply bool_decide_eq_false in Hbefore.
  destruct (exec_roles tx s s' He) as [Hr | [[Hadmin _] | [r Hr]]];
    [rewrite Hr in Hafter; contradiction | exact Hadmin |].
  rewrite Hr in Hafter. apply elem_of_difference in Hafter as [Hin _]. contradiction.
Qed.

Lemma step_roles_lost tx s role account :
  hasRole role account s = true -> hasRole role account (step tx s) = false ->
  hasRole DEFAULT_ADMIN_ROLE (sender tx) s = true \/ sender tx = account.
Proof.
  intros Hbefore Hafter.
  destruct (step_cases tx s) as [(s' & He & Hs)| Hs]; rewrite Hs in Hafter; [|congruence].
  unfold hasRole in Hafter, Hbefore.
  apply bool_decide_eq_true in Hbefore. apply bool_decide_eq_false in Hafter.
  destruct (exec_roles tx s s' He) as [Hr | [[Hadmin _] | [r Hr]]];
    [rewrite Hr in Hafter; contradiction | left; exact Hadmin |].
  right. rewrite Hr in Hafter.
  destruct (decide (sender tx = account)) as [|Hne]; [assumption|].
  exfalso. apply Hafter. apply elem_of_difference. split; [exact Hbefore|].
  rewrite elem_of_singleton. intros [= _ E]. congruence.
Qed.

(** X10. Roles change through the admin only: an account gains a role only by a
    transaction sent by a holder of the admin role, and loses one only by
    such a transaction or by its own. Once no account holds the admin role,
    no account ever gains a role again. *)
Theorem roles_change_through_the_admin :
  (forall tx s role account,
     hasRole role account s = false -> hasRole role account (step tx s) = true ->
     hasRole DEFAULT_ADMIN_ROLE (sender tx) s = true) /\
  (forall tx s role account,
     hasRole role account s = true -> hasRole role account (step tx s) = false ->
     hasRole DEFAULT_ADMIN_ROLE (sender tx) s = true \/ sender tx = account) /\
  (forall s, (forall a, hasRole DEFAULT_ADMIN_ROLE a s = false) ->
     forall txs role account,
       hasRole role account (run txs s) = true -> hasRole role account s = true).
Proof.
  split; [intros; eapply step_roles_granted; eauto|].
  split; [intros; eapply step_roles_lost; eauto|].
  intros s Hno txs. revert s Hno. induction txs as [|tx txs IH]; intros s Hno role account H;
    [exact H|].
  cbn [run fold_left] in H. fold (run txs (step tx s)) in H.
  assert (Hstep : forall r a, hasRole r a (step tx s) = true -> hasRole r a s = true).
  { intros r a Hr. destruct (hasRole r a s) eqn:E; [reflexivity|].
    pose proof (step_roles_granted tx s r a Hr E) as Hadmin. rewrite Hno in Hadmin. discriminate. }
  apply Hstep, (IH (step tx s)); [|exact H].
  intros a. destruct (hasRole DEFAULT_ADMIN_ROLE a (step tx s)) eqn:E; [|reflexivity].
  apply Hstep in E. rewrite Hno in E. discriminate.
Qed.

Lemma roles_change_through_the_admin_witness :
  hasRole AGENT_ROLE 7 genesis = false /\
  hasRole AGENT_ROLE 7 (step (tx 1 (GrantAgentRole 7)) genesis) = true /\
  hasRole DEFAULT_ADMIN_ROLE (sender (tx 1 (GrantAgentRole 7))) genesis = true.
Proof.
  split; [vm_compute; reflexivity|]. split; [vm_compute; reflexivity|].
  apply (proj1 roles_change_through_the_admin (tx 1 (GrantAgentRole 7)) genesis AGENT_ROLE 7);
    vm_compute; reflexivity.
Defined.

Lemma milestonePayout_nonneg e i :
  escrow_ok e -> 0 < totalMilestones e -> 0 <= milestonePayout e i.
Proof.
  intros (Hp & _) Hm. unfold milestonePayout. destruct (_ =? _); [lia|].
  apply Z.div_pos; lia.
Qed.

Lemma step_terms tx s t :
  ledger_ok s -> recreates t tx = false ->
  let e := escrowAt t s in
  let e' := escrowAt t (step tx s) in
  payer e' = payer e /\ agent e' = agent e /\ totalAmount e' = totalAmount e /\
  totalMilestones e' = totalMilestones e /\
  paidAmount e <= paidAmount e' /\ milestonesCompleted e <= milestonesCompleted e'.
Proof.
  intros [Hesc _] Hn. cbv zeta. destruct (Hesc t) as [Hok _].
  destruct (step_escrowAt tx s t) as [-> | [-> Hg]]; [repeat split; lia|].
  unfold escrowAfter, guardOf, recreates in *. destruct (call tx); try (repeat split; lia).
  all: destruct (decide (taskId = t)) as [->|?]; try (repeat split; lia).
  - rewrite String.eqb_refl in Hn. discriminate.
  - cbn. destruct Hg as (Ha & _ & _). destruct Hok as (Hp & Hm & Hact).
    destruct (Hact Ha) as (_ & Hlt & _).
    pose proof (milestonePayout_nonneg (escrowAt t s) milestoneIndex (conj Hp (conj Hm Hact))).
    repeat split; lia.
  - destruct (escrowAt t s); cbn; repeat split; lia.
  - destruct (escrowAt t s); cbn; repeat split; lia.
  - destruct (escrowAt t s); cbn; repeat split; lia.
Qed.

(** X11. The terms of an escrow are fixed when it is created: as long as no
    escrow is created anew under its task, no transaction changes its payer,
    its agent, its total amount or its number of milestones, and the amount
    paid and the count of completed milestones never go down. *)
Theorem escrow_terms_are_fixed s taskId txs :
  reachable s ->
  forallb (fun tx => negb (recreates taskId tx)) txs = true ->
  let e := escrowAt taskId s in
  let e' := escrowAt taskId (run txs s) in
  payer e' = payer e /\ agent e' = agent e /\ totalAmount e' = totalAmount e /\
  totalMilestones e' = totalMilestones e /\
  paidAmount e <= paidAmount e' /\ milestonesCompleted e <= milestonesCompleted e'.
Proof.
  intros Hr. apply reachable_ok in Hr. revert s Hr.
  induction txs as [|tx txs IH]; intros s Hok Hn; cbv zeta; [cbn [run fold_left]; repeat split; lia|].
  cbn [forallb] in Hn. apply andb_prop in Hn as [Hn1 Hn]. apply negb_true_iff in Hn1.
  cbn [run fold_left]. fold (run txs (step tx s)).
  destruct (step_terms tx s taskId Hok Hn1) as (H1 & H2 & H3 & H4 & H5 & H6).
  destruct (IH (step tx s) (step_ok tx s Hok) Hn) as (G1 & G2 & G3 & G4 & G5 & G6).
  repeat split; try congruence; lia.
Qed.

Lemma escrow_terms_are_fixed_witness :
  totalAmount (escrowAt "T1" (run (prove "T1" 0 ++ [tx 1 (ReleaseMilestone "T1" 0)])
                                (run (fund "T1" 100 2) genesis))) =
  totalAmount (escrowAt "T1" (run (fund "T1" 100 2) genesis)).
Proof.
  refine (proj1 (proj2 (proj2 (escrow_terms_are_fixed (run (fund "T1" 100 2) genesis) "T1"
            (prove "T1" 0 ++ [tx 1 (ReleaseMilestone "T1" 0)]) _ _)))).
  - apply reachable_run, genesis_reachable.
  - reflexivity.
Defined.

Lemma sumOf_insert m a v : sumOf (<[a := v]> m) = sumOf m - default 0 (m !! a) + v.
Proof.
  unfold sumOf. destruct (m !! a) as [x|] eqn:E; cbn.
  - rewrite <- insert_delete_eq.
    rewrite map_fold_insert_L; [|intros; lia|apply lookup_delete_eq].
    rewrite (map_fold_delete_L _ _ a x m); [lia|intros; lia|exact E].
  - rewrite map_fold_insert_L; [lia|intros; lia|exact E].
Qed.

Lemma sumBalances_moveTokens from to v t :
  sumBalances (moveTokens from to v t) = sumBalances t.
Proof.
  unfold sumBalances, moveTokens, set_balance, balanceOf; cbn.
  rewrite !sumOf_insert.
  destruct (decide (from = to)) as [->|Hne];
    [rewrite !lookup_insert_eq | rewrite !lookup_insert_ne by congruence]; cbn;
    unfold address in *; lia.
Qed.

Lemma exec_supply tx s s' :
  exec tx s = Ok (tt, s') ->
  let t := tokenState s in
  let t' := tokenState s' in
  sumBalances t' - totalSupply t' = sumBalances t - totalSupply t /\
  (totalSupply t' = totalSupply t \/
   (exists to amount, call tx = TokenMint to amount /\ sender tx = tokenOwner t /\
      totalSupply t' = totalSupply t + amount) \/
   (exists amount, call tx = TokenBurn amount /\ amount <= balanceOf (sender tx) t /\
      totalSupply t' = totalSupply t - amount)).
Proof.
  intros H. apply exec_Ok_dispatch in H. destruct tx as [who time c]. lnorm.
  cbv zeta. destruct c; cbn [dispatch] in H.
  1: { apply bind_Ok in H as (u & s1 & H1 & H). minv_prim H1.
       apply bind_Ok in H as (u & s1 & H1 & H). minv_prim H1.
       apply bind_Ok in H as (u & s1 & H1 & H). minv_prim H1.
       apply bind_Ok in H as (s0 & s1 & H1 & H). unfold get in H1. injection H1 as <- <-.
       apply bind_Ok in H as (u & s1 & H1 & H). minv_prim H1.
       apply bind_Ok in H as (ok & s1 & H1 & H).
       apply transferFrom_moves in H1 as (_ & H1). injection H1 as -> ->.
       minv.
       all: rewrite sumBalances_moveTokens.
       all: destruct (_ <? MAX_UINT256); split; auto. }
  3: { apply releaseMilestone_Ok in H as (_ & _ & _ & _ & -> & _).
       rewrite sumBalances_moveTokens. split; auto. }
  4: { apply resolveDispute_Ok in H as (_ & _ & _ & _ & -> & _).
       destruct resolution; rewrite ?sumBalances_moveTokens; split; auto. }
  12: { cbn [dispatch] in H. apply bind_Ok in H as (ok & s1 & H1 & H).
        apply transferFrom_moves in H1 as (_ & H1). injection H1 as -> ->. minv.
        rewrite sumBalances_moveTokens. destruct (_ <? MAX_UINT256); split; auto. }
  all: unfold_fns; unfold_token; minv.
  all: try (match goal with Hb : (0 =? 0) = false |- _ => discriminate Hb end).
  all: try (match goal with Hb : negb true = true |- _ => discriminate Hb end).
  all: try (match goal with
            | Hb : negb ?b = true, Hc : ?b = true |- _ => rewrite Hc in Hb; discriminate Hb
            end).
  all: rewrite ?sumBalances_moveTokens.
  all: unfold sumBalances, balanceOf in *; lcbn; rewrite ?sumOf_insert; unfold address in *.
  all: try (split; [lia|left; reflexivity]).
  all: try (split; [reflexivity|left; reflexivity]).
  all: repeat match goal with
         | Hb : (_ =? _) = true |- _ => apply Z.eqb_eq in Hb
         | Hb : (_ <=? _) = true |- _ => apply Z.leb_le in Hb
         end.
  all: split; [lia|].
  - right; left. eexists _, _. repeat split; auto.
  - right; right. eexists. repeat split; auto; lia.
Qed.

(** X12. No transaction creates or destroys tokens except [mint], which only the
    owner of the token can call, and [burn], which takes them from the
    caller: every other call, and every call of the escrow contract, leaves
    the total supply as it is and only moves balances. When the balances add
    up to the total supply they do so after every run of transactions. *)
Theorem token_supply_is_conserved :
  (forall tx s,
     let t := tokenState s in
     let t' := tokenState (step tx s) in
     sumBalances t' - totalSupply t' = sumBalances t - totalSupply t /\
     (totalSupply t' = totalSupply t \/
      (exists to amount, call tx = TokenMint to amount /\ sender tx = tokenOwner t /\
         totalSupply t' = totalSupply t + amount) \/
      (exists amount, call tx = TokenBurn amount /\ amount <= balanceOf (sender tx) t /\
         totalSupply t' = totalSupply t - amount))) /\
  (forall txs s,
     sumBalances (tokenState s) = totalSupply (tokenState s) ->
     sumBalances (tokenState (run txs s)) = totalSupply (tokenState (run txs s))).
Proof.
  assert (Hstep : forall tx s,
            sumBalances (tokenState (step tx s)) - totalSupply (tokenState (step tx s)) =
            sumBalances (tokenState s) - totalSupply (tokenState s) /\
            (totalSupply (tokenState (step tx s)) = totalSupply (tokenState s) \/
             (exists to amount, call tx = TokenMint to amount /\
                sender tx = tokenOwner (tokenState s) /\
                totalSupply (tokenState (step tx s)) = totalSupply (tokenState s) + amount) \/
             (exists amount, call tx = TokenBurn amount /\
                amount <= balanceOf (sender tx) (tokenState s) /\
                totalSupply (tokenState (step tx s)) = totalSupply (tokenState s) - amount))).
  { intros tx s. destruct (step_cases tx s) as [(s' & He & ->)| ->]; [|auto].
    exact (exec_supply tx s s' He). }
  split; [exact Hstep|].
  induction txs as [|tx txs IH]; intros s H; [exact H|].
  cbn [run fold_left]. fold (run txs (step tx s)). apply IH.
  destruct (Hstep tx s) as [Hd _]. lia.
Qed.

Lemma token_supply_is_conserved_witness :
  sumBalances (tokenState genesis) = totalSupply (tokenState genesis) /\
  sumBalances (tokenState (run (newOwnerMints ++ flat_map refund ["R1"; "R2"]) genesis)) =
    totalSupply (tokenState (run (newOwnerMints ++ flat_map refund ["R1"; "R2"]) genesis)).
Proof.
  split; [vm_compute; reflexivity|].
  apply (proj2 token_supply_is_conserved). vm_compute. reflexivity.
Defined.

(** The right to mint goes with the ownership of the token: after
    [transferOwnership] the new owner mints and the deployer no longer can;
    after [renounceOwnership] nobody can. *)
Example mint_follows_the_owner :
  let s := step (tx 1 (TokenTransferOwnership 5)) genesis in
  let s' := step (tx 5 (TokenMint 7 100)) s in
  tokenOwner (tokenState s) = 5 /\
  totalSupply (tokenState s') = totalSupply (tokenState genesis) + 100 /\
  balanceOf 7 (tokenState s') = 100 /\
  mint 1 7 100 s = Revert "OwnableUnauthorizedAccount" /\
  transferOwnership 5 0 s = Revert "OwnableInvalidOwner" /\
  tokenOwner (tokenState (step (tx 5 TokenRenounceOwnership) s)) = 0 /\
  mint 5 7 100 (step (tx 5 TokenRenounceOwnership) s) = Revert "OwnableUnauthorizedAccount".
Proof. vm_compute. repeat split; reflexivity. Qed.

(** The token as deployed: the deployer holds the whole supply, and still
    after escrows were funded, released and refunded the balances add up. *)
Example supply_after_escrows :
  sumBalances (tokenState genesis) = totalSupply (tokenState genesis) /\
  sumBalances (tokenState fourRefunds) = 10000000 * 10 ^ 18.
Proof. vm_compute. auto. Qed.

(** X13. [verifyWorkProof] looks at the role of the caller and at the proof,
    and at nothing else: it succeeds exactly when the caller holds the agent
    role and the proof was submitted and is not verified yet, whether or not
    the escrow is still active and whoever submitted the proof. It marks the
    proof verified and changes nothing else; a second verification reverts
    with [Already verified]. *)
Theorem verifyWorkProof_conditions caller taskId milestoneIndex s :
  let p := proofAt taskId milestoneIndex s in
  let verified :=
    set_events (events s ++ [WorkProofVerified taskId milestoneIndex])
      (set_milestoneProofs
         (<[(taskId, milestoneIndex) := set_isVerified true p]> (milestoneProofs s)) s) in
  (forall s',
     verifyWorkProof caller taskId milestoneIndex s = Ok (tt, s') <->
     hasRole AGENT_ROLE caller s = true /\ 0 < timestamp p /\ isVerified p = false /\
     s' = verified) /\
  (hasRole AGENT_ROLE caller s = true -> 0 < timestamp p -> isVerified p = false ->
   verifyWorkProof caller taskId milestoneIndex verified = Revert "Already verified").
Proof.
  cbv zeta. split.
  - intros s'. split.
    + intros H. unfold verifyWorkProof, onlyRole in H. minv.
      repeat match goal with
             | Hb : (_ <? _) = true |- _ => apply Z.ltb_lt in Hb
             | Hb : negb _ = true |- _ => apply negb_true_iff in Hb
             end.
      repeat split; auto.
    + intros (Hrole & Hts & Hver & ->).
      unfold verifyWorkProof, onlyRole, mbind, M_bind, get, require, updateProof, modify, emit,
        modify. rewrite Hrole. cbn.
      apply Z.ltb_lt in Hts. unfold proofAt in *. rewrite Hts, Hver. reflexivity.
  - intros Hrole Hts Hver.
    unfold verifyWorkProof, onlyRole, mbind, M_bind, get, require.
    unfold hasRole in *. cbn [roles set_events set_milestoneProofs]. rewrite Hrole.
    unfold proofAt in *. unfold mret, M_ret.
    cbn [milestoneProofs set_events set_milestoneProofs].
    rewrite lookup_insert_eq. cbn [from_option id timestamp isVerified set_isVerified negb].
    apply Z.ltb_lt in Hts. rewrite Hts. reflexivity.
Qed.

Lemma verifyWorkProof_conditions_witness :
  let s := run (fund "T1" 100 3 ++ [tx 7 (SubmitWorkProof "T1" 0 11)]) genesis in
  exists s',
    verifyWorkProof 1 "T1" 0 s = Ok (tt, s') /\
    verifyWorkProof 1 "T1" 0 s' = Revert "Already verified".
Proof.
  cbv zeta.
  pose proof (verifyWorkProof_conditions 1 "T1" 0
                (run (fund "T1" 100 3 ++ [tx 7 (SubmitWorkProof "T1" 0 11)]) genesis)) as H.
  cbv zeta in H. destruct H as [Hiff Hsecond].
  eexists. split.
  - apply Hiff.
    split; [vm_compute; reflexivity|]. split; [vm_compute; reflexivity|].
    split; [vm_compute; reflexivity|reflexivity].
  - apply Hsecond; vm_compute; reflexivity.
Defined.

Lemma _grantRole_run who role account s :
  _grantRole who role account s =
  Ok (tt, if hasRole role account s then s
          else set_events (events s ++ [RoleGranted role account who])
                 (set_roles ({[(role, account)]} ∪ roles s) s)).
Proof. unfold _grantRole, mbind, M_bind, get. destruct (hasRole role account s); reflexivity. Qed.

Lemma constructor_Ok deployer tokenAddress self token s :
  constructor deployer tokenAddress (blankLedger self token) = Ok (tt, s) ->
  tokenAddress <> 0 /\ mneeToken s = tokenAddress /\ this s = self /\ tokenState s = token /\
  (forall role account, hasRole role account s = true <-> account = deployer) /\
  escrows s = ∅ /\ milestoneProofs s = ∅ /\ reputations s = ∅.
Proof.
  intros H. unfold constructor in H.
    apply bind_Ok in H as (u1 & s1 & H1 & H). minv_prim H1.
  apply bind_Ok in H as (u2 & s2 & H2 & H). unfold modify in H2. injection H2 as _ <-.
  apply bind_Ok in H as (u3 & s3 & H3 & H). rewrite _grantRole_run in H3. injection H3 as _ <-.
  apply bind_Ok in H as (u4 & s4 & H4 & H). rewrite _grantRole_run in H4. injection H4 as _ <-.
  rewrite _grantRole_run in H. injection H as <-.
  match goal with Hb : negb (_ =? _) = true |- _ => apply negb_true_iff, Z.eqb_neq in Hb end.
  assert (Hr1 : hasRole DEFAULT_ADMIN_ROLE deployer
                 (set_mneeToken tokenAddress (blankLedger self token)) = false).
  { apply bool_decide_eq_false. cbn. apply not_elem_of_empty. }
  rewrite Hr1.
  match goal with
  | |- context [hasRole AGENT_ROLE deployer ?s1] =>
      assert (Hr2 : hasRole AGENT_ROLE deployer s1 = false)
  end.
  { apply bool_decide_eq_false. cbn.
    rewrite elem_of_union, elem_of_singleton. intros [[=]|Hin].
    revert Hin. apply not_elem_of_empty. }
  rewrite Hr2.
  match goal with
  | |- context [hasRole JUDGE_ROLE deployer ?s1] =>
      assert (Hr3 : hasRole JUDGE_ROLE deployer s1 = false)
  end.
  { apply bool_decide_eq_false. cbn.
    rewrite !elem_of_union, !elem_of_singleton. intros [[=]|[[=]|Hin]].
    revert Hin. apply not_elem_of_empty. }
  rewrite Hr3. cbn.
  repeat split; auto.
  + unfold hasRole; cbn. intros Hin. apply bool_decide_eq_true in Hin.
    rewrite !elem_of_union, !elem_of_singleton in Hin.
    destruct Hin as [Hin|[Hin|[Hin|Hin]]]; try congruence.
    exfalso. revert Hin. apply not_elem_of_empty.
  + intros ->. unfold hasRole; cbn. apply bool_decide_eq_true.
    rewrite !elem_of_union, !elem_of_singleton. destruct role; auto.
Qed.

(** X14. The constructor refuses the zero address as token. With any other
    address it succeeds, and right after it the deployer holds the admin, the
    agent and the judge role and nobody else holds any, the token is the
    address given, and there is no escrow, no work proof and no reputation
    yet. *)
Theorem deployer_holds_every_role deployer tokenAddress self token :
  tokenAddress <> 0 ->
  constructor deployer 0 (blankLedger self token) = Revert "Invalid token address" /\
  exists s,
    constructor deployer tokenAddress (blankLedger self token) = Ok (tt, s) /\
    mneeToken s = tokenAddress /\ this s = self /\ tokenState s = token /\
    (forall role account, hasRole role account s = true <-> account = deployer) /\
    escrows s = ∅ /\ milestoneProofs s = ∅ /\ reputations s = ∅.
Proof.
  intros Hne. split; [reflexivity|].
  destruct (constructor deployer tokenAddress (blankLedger self token)) as [[[] s]|reason] eqn:E.
  - exists s. split; [reflexivity|]. apply constructor_Ok in E as (_ & E). exact E.
  - exfalso. unfold constructor, require in E.
    rewrite (proj2 (Z.eqb_neq _ _) Hne) in E. cbn [negb] in E.
    unfold mbind, M_bind, mret, M_ret, modify in E.
    repeat (rewrite _grantRole_run in E; cbn beta iota in E).
    discriminate.
Qed.

Lemma deployer_holds_every_role_witness :
  2000 <> 0 /\
  constructor 1 0 (blankLedger 1000 (MNEE_constructor 1)) = Revert "Invalid token address" /\
  exists s,
    constructor 1 2000 (blankLedger 1000 (MNEE_constructor 1)) = Ok (tt, s) /\
    mneeToken s = 2000 /\ this s = 1000 /\ tokenState s = MNEE_constructor 1 /\
    (forall role account, hasRole role account s = true <-> account = 1) /\
    escrows s = ∅ /\ milestoneProofs s = ∅ /\ reputations s = ∅.
Proof.
  split; [lia|]. apply (deployer_holds_every_role 1 2000 1000 (MNEE_constructor 1)). lia.
Defined.

(** ** The transaction executor of the escrow agent

    The facts below hold for every chain behaviour [env] whose random source
    returns a jitter below one second, as [Math.random() * 1000] does, and
    for every interleaving of submissions and resumptions. *)

Import Executor.

Section WithEnv.
Variable env : Env.
Hypothesis jitter : forall t, 0 <= random env t < 1000.

Ltac wstep :=
  unfold iteration, attempt, operation, getTxOptions, onError, catchQueueError, ask, record,
    mbind, W_bind, mret, W_ret in *; cbn [fst snd clock trace] in *.

Ltac wcases :=
  repeat match goal with
  | |- context [match ?x with _ => _ end] =>
      match x with
      | getTransactionCount _ _ => destruct x eqn:?
      | getNonce _ _ => destruct x eqn:?
      | sendTransaction _ _ _ _ => destruct x eqn:?
      | waitForReceipt _ _ _ => destruct x eqn:?
      end
  | |- context [if ?b then _ else _] => destruct b eqn:?
  end; cbn [fst snd clock trace].

Lemma iteration_stepOk k job attempts w :
  let r := (iteration env k job attempts ≫= catchQueueError k job) w in
  let seg := drop (length (trace w)) (trace (snd r)) in
  trace (snd r) = (trace w ++ seg)%list /\ stepOk k attempts (fst r) seg.
Proof.
  cbv zeta. wstep. unfold maxAttempts in *.
  wcases.
  all: repeat rewrite <- app_assoc.
  all: try (rewrite drop_all, app_nil_r; split; [reflexivity|]).
  all: try (rewrite drop_app_length; split; [reflexivity|]).
  all: unfold stepOk, nonceOk, execsIn, sleepsIn, maxAttempts in *; cbn.
  all: split; [repeat constructor|].
  all: split; [intros st; eexists; repeat case_decide; try reflexivity; congruence|].
  all: try (split; [lia|reflexivity]).
  all: match goal with
       | Hb : _ && _ = true |- _ => apply andb_prop in Hb as [_ Hlt]; apply Z.ltb_lt in Hlt
       end.
  all: split; [reflexivity|]; split; [lia|]; split; [reflexivity|].
  all: eexists; split; [reflexivity|].
  all: match goal with |- context [random env ?t] => pose proof (jitter t) end; lia.
Qed.

Lemma resume_cases k a :
  resume env k a = a \/
  exists job before after seg,
    mutationQueue a !! k = Some (job, before) /\ isDone before = false /\
    (before = Queued -> isDone (previous k a) = true) /\
    mutationQueue (resume env k a) = <[k := (job, after)]> (mutationQueue a) /\
    trace (world (resume env k a)) = (trace (world a) ++ seg)%list /\
    stepOk k (attemptsBefore before) after seg.
Proof.
  unfold resume.
  destruct (mutationQueue a !! k) as [[job [| n | o]]|] eqn:Hk; auto.
  - destruct (previous k a) as [| ? | [r | e]] eqn:Hp; auto.
    + right. pose proof (iteration_stepOk k job 0 (world a)) as [Htr Hok]. cbv zeta in *.
      destruct ((iteration env k job 0 ≫= catchQueueError k job) (world a)) as [after w'] eqn:E.
      exists job, Queued, after, (drop (length (trace (world a))) (trace w')).
      cbn [fst snd] in *.
      split; [reflexivity|]. split; [reflexivity|]. split; [intros _; reflexivity|].
      split; [reflexivity|]. split; [exact Htr|exact Hok].
    + right. exists job, Queued, (Done (Rejected e)), [(k, LogQueueError (context job) (message e))].
      split; [reflexivity|]. split; [reflexivity|]. split; [intros _; reflexivity|].
      split; [reflexivity|]. split; [reflexivity|].
      split; [repeat constructor|]. split; [intros st; eexists; reflexivity|].
      split; [cbn; lia|reflexivity].
  - right. pose proof (iteration_stepOk k job n (world a)) as [Htr Hok]. cbv zeta in *.
    destruct ((iteration env k job n ≫= catchQueueError k job) (world a)) as [after w'] eqn:E.
    exists job, (InLoop n), after, (drop (length (trace (world a))) (trace w')).
    cbn [fst snd] in *.
    split; [reflexivity|]. split; [reflexivity|]. split; [discriminate|].
    split; [reflexivity|]. split; [exact Htr|exact Hok].
Qed.

Lemma effectsOf_app k t seg :
  effectsOf k (t ++ seg) = (effectsOf k t ++ effectsOf k seg)%list.
Proof. unfold effectsOf. rewrite List.filter_app, map_app. reflexivity. Qed.

Lemma effectsOf_same k seg :
  Forall (fun p => fst p = k) seg -> effectsOf k seg = map snd seg.
Proof.
  unfold effectsOf. induction 1 as [|p seg Hp _ IH]; [reflexivity|].
  cbn. rewrite Hp, Nat.eqb_refl. cbn. f_equal. exact IH.
Qed.

Lemma effectsOf_other k j seg :
  j <> k -> Forall (fun p => fst p = k) seg -> effectsOf j seg = [].
Proof.
  unfold effectsOf. intros Hne. induction 1 as [|p seg Hp _ IH]; [reflexivity|].
  cbn. rewrite Hp. destruct (Nat.eqb_spec k j); [congruence|]. exact IH.
Qed.

Lemma effectsOf_nil_of_tags k t :
  (forall p, In p t -> fst p <> k) -> effectsOf k t = [].
Proof.
  unfold effectsOf. induction t as [|p t IH]; intros H; [reflexivity|].
  cbn. destruct (Nat.eqb_spec (fst p) k) as [E|_].
  - exfalso. apply (H p); [left; reflexivity|exact E].
  - apply IH. intros p' Hp'. apply H. right. exact Hp'.
Qed.

Lemma sorted_snoc_lt (l : list Z) bound ms :
  StronglySorted Z.lt l -> Forall (fun x => x < bound) l -> bound <= ms ->
  StronglySorted Z.lt (l ++ [ms]).
Proof.
  induction 1 as [|x l Hs IH Hx]; intros Hb Hms; cbn.
  - constructor; constructor.
  - inversion Hb; subst. constructor; [apply IH; assumption|].
    apply Forall_app; split; [exact Hx|]. constructor; [lia|constructor].
Qed.

Lemma sorted_app_tags (l : list nat) k (l' : list nat) :
  StronglySorted le l -> Forall (fun x => (x <= k)%nat) l -> Forall (fun x => x = k) l' ->
  StronglySorted le (l ++ l').
Proof.
  intros Hs Hb Hk. induction Hs as [|x l Hs IH Hx]; cbn.
  - induction Hk as [|y l' Hy Hk IH]; constructor; [exact IH|].
    subst y. clear IH. induction Hk; constructor; [lia|assumption].
  - inversion Hb; subst. constructor; [apply IH; assumption|].
    apply Forall_app; split; [exact Hx|].
    clear - Hk H1. induction Hk; constructor; [lia|assumption].
Qed.


Lemma agentInv_initial : agentInv initialAgent.
Proof.
  unfold agentInv, initialAgent; cbn.
  split; [intros k Hk; exfalso; apply Hk; destruct k; reflexivity|].
  split; [constructor|].
  split; [intros p []|].
  split; [intros k; destruct k; (split; [constructor|reflexivity])|].
  eexists. reflexivity.
Qed.

Lemma agentInv_call a context request :
  agentInv a -> agentInv (executeTransaction context request a).
Proof.
  intros (G & S & T & L & N).
  assert (Hlink : forall k, linkAt k (executeTransaction context request a) = linkAt k a).
  { intros k. unfold linkAt, executeTransaction; cbn.
    destruct (Nat.lt_ge_cases k (length (mutationQueue a))) as [Hlt|Hge].
    - rewrite lookup_app_l by exact Hlt. reflexivity.
    - rewrite lookup_app_r by exact Hge.
      rewrite (lookup_ge_None_2 (mutationQueue a) k) by exact Hge.
      destruct (k - length (mutationQueue a))%nat; reflexivity. }
  unfold agentInv. cbn [executeTransaction mutationQueue world].
  rewrite length_app; cbn [length].
  split; [|split; [exact S|split; [|split; [|exact N]]]].
  - intros k Hk. rewrite Hlink in Hk. destruct (G k Hk) as [Hlt Hd].
    split; [lia|]. intros i Hi. rewrite Hlink. apply Hd, Hi.
  - intros p Hp. destruct (T p Hp) as [Hlt Hle]. split; [lia|].
    intros j Hj Hnd. rewrite Hlink in Hnd.
    destruct (Nat.lt_ge_cases j (length (mutationQueue a))); [apply Hle; assumption|lia].
  - intros k. rewrite Hlink. apply L.
Qed.

Lemma In_tags_le (t : list (nat * Effect)) k :
  (forall p, In p t -> (fst p <= k)%nat) -> Forall (fun x => (x <= k)%nat) (map fst t).
Proof.
  intros H. apply List.Forall_forall. intros x Hx. apply in_map_iff in Hx as (p & <- & Hp). auto.
Qed.

Lemma tags_eq (seg : list (nat * Effect)) k :
  Forall (fun p => fst p = k) seg -> Forall (fun x => x = k) (map fst seg).
Proof. induction 1; constructor; auto. Qed.

Lemma agentInv_resume a k : agentInv a -> agentInv (resume env k a).
Proof.
  intros Hinv.
  destruct (resume_cases k a)
    as [-> | (job & before & after & seg & Hk & Hnd & Hprev & Hq & Htr & Hok)]; [exact Hinv|].
  destruct Hinv as (G & S & T & L & N). destruct Hok as (Htags & Hnonce & Hafter).
  assert (Hlen : (k < length (mutationQueue a))%nat) by (eapply lookup_lt_Some; exact Hk).
  assert (HlinkK : linkAt k a = before) by (unfold linkAt; rewrite Hk; reflexivity).
  assert (Hlink : forall j, linkAt j (resume env k a) = if decide (j = k) then after else linkAt j a).
  { intros j. unfold linkAt at 1. rewrite Hq. destruct (decide (j = k)) as [->|Hne].
    - rewrite list_lookup_insert_eq by exact Hlen. reflexivity.
    - rewrite list_lookup_insert_ne by congruence. reflexivity. }
  assert (Hlen' : length (mutationQueue (resume env k a)) = length (mutationQueue a))
    by (rewrite Hq; apply length_insert).
  assert (Hearlier : forall i, (i < k)%nat -> isDone (linkAt i a) = true).
  { destruct before as [| n | o]; [| |discriminate].
    - specialize (Hprev eq_refl). destruct k as [|k0]; [intros i Hi; lia|].
      assert (Hk0 : isDone (linkAt k0 a) = true) by exact Hprev.
      intros i Hi. destruct (decide (i = k0)) as [->|Hne]; [exact Hk0|].
      apply (G k0); [intros Hq0; rewrite Hq0 in Hk0; discriminate | lia].
    - apply (G k). rewrite HlinkK. discriminate. }
  assert (Hlater : forall j, (k < j)%nat -> linkAt j a = Queued).
  { intros j Hj. destruct (linkAt j a) eqn:E; [reflexivity| |].
    - assert (Hne : linkAt j a <> Queued) by (rewrite E; discriminate).
      destruct (G j Hne) as [_ Hd]. specialize (Hd k Hj). rewrite HlinkK, Hnd in Hd. discriminate.
    - assert (Hne : linkAt j a <> Queued) by (rewrite E; discriminate).
      destruct (G j Hne) as [_ Hd]. specialize (Hd k Hj). rewrite HlinkK, Hnd in Hd. discriminate. }
  assert (Hold : forall p, In p (trace (world a)) -> (fst p <= k)%nat).
  { intros p Hp. destruct (T p Hp) as [_ Hle]. apply Hle; [exact Hlen|].
    rewrite HlinkK. exact Hnd. }
  unfold agentInv. cbv zeta. rewrite Hlen', Htr.
  split; [|split; [|split; [|split]]].
  - (* gating *)
    intros j Hj. rewrite Hlink in Hj. destruct (decide (j = k)) as [->|Hne].
    + split; [exact Hlen|]. intros i Hi. rewrite Hlink.
      destruct (decide (i = k)); [lia|]. apply Hearlier, Hi.
    + destruct (Nat.lt_ge_cases j k) as [Hlt|Hge].
      * destruct (G j Hj) as [Hjl Hd]. split; [exact Hjl|]. intros i Hi. rewrite Hlink.
        destruct (decide (i = k)); [lia|]. apply Hd, Hi.
      * exfalso. apply Hj, Hlater. lia.
  - (* one link at a time, in order *)
    rewrite map_app. apply (sorted_app_tags _ k); [exact S | apply In_tags_le, Hold | apply tags_eq, Htags].
  - intros p Hp. apply in_app_or in Hp as [Hp|Hp].
    + destruct (T p Hp) as [Hpl Hle]. split; [exact Hpl|]. intros j Hj Hjd.
      rewrite Hlink in Hjd. destruct (decide (j = k)) as [->|Hne]; [apply Hold, Hp|].
      apply Hle; assumption.
    + assert (Hpk : fst p = k) by (eapply List.Forall_forall in Htags; eauto).
      rewrite Hpk. split; [exact Hlen|]. intros j Hj Hjd.
      rewrite Hlink in Hjd. destruct (decide (j = k)) as [->|Hne]; [lia|].
      destruct (Nat.lt_ge_cases j k) as [Hlt|Hge]; [|lia].
      rewrite (Hearlier j Hlt) in Hjd. discriminate.
  - (* attempts and backoff of every link *)
    intros j. rewrite Hlink. unfold linkInv, sleepsOf, attemptsOf. rewrite effectsOf_app.
    destruct (decide (j = k)) as [->|Hne].
    + rewrite (effectsOf_same k seg Htags).
      destruct (L k) as [Lsort Lk]. rewrite HlinkK in Lk.
      unfold sleepsOf, attemptsOf in *.
      rewrite flat_map_app, List.filter_app, length_app.
      fold (sleepsIn seg). fold (execsIn seg).
      destruct after as [| n | o]; [contradiction| |].
      * destruct Hafter as (Hn & Hmax & Hex & ms & Hsl & Hms). rewrite Hsl, Hex.
        destruct before as [| m | ?]; [| |discriminate]; cbn [attemptsBefore] in Hn.
        -- rewrite Lk. cbn. unfold maxAttempts in *.
           split; [repeat constructor|]. split; [lia|]. split; [lia|].
           constructor; [lia|constructor].
        -- destruct Lk as (Hm & Hatt & Hall). unfold maxAttempts in *.
           split; [apply (sorted_snoc_lt _ (1500 + (m + 1) * 1000)); auto; lia|].
           split; [lia|]. split; [lia|].
           apply Forall_app; split; [|constructor; [lia|constructor]].
           eapply List.Forall_impl; [|exact Hall]. cbn. intros; lia.
      * destruct Hafter as (Hex & Hsl). rewrite Hsl, app_nil_r.
        split; [exact Lsort|].
        destruct before as [| m | ?]; [| |discriminate].
        -- rewrite Lk. cbn. lia.
        -- destruct Lk as (Hm & Hatt & _). unfold maxAttempts in *. lia.
    + rewrite (effectsOf_other k j seg Hne Htags), app_nil_r. apply L.
  - destruct N as [st Hst]. rewrite map_app, fold_left_app, Hst. apply Hnonce.
Qed.

Lemma agentInv_run acts a : agentInv a -> agentInv (runActions env acts a).
Proof.
  revert a. induction acts as [|x acts IH]; intros a H; [exact H|].
  cbn. apply IH. destruct x; [apply agentInv_call | apply agentInv_resume]; exact H.
Qed.


Lemma onError_throws k job attempts error w :
  isNonceError error && (attempts + 1 <? maxAttempts) = false ->
  onError env k job attempts error w =
    (Done (Rejected error),
     mkWorld (clock w) (trace w ++ [(k, LogFailed (context job) (message error))])).
Proof. intros H. unfold onError. rewrite H. reflexivity. Qed.


End WithEnv.

Section Blocked.
Variable env : Env.
Hypothesis jitter : forall t, 0 <= random env t < 1000.

Lemma linkAt_executeTransaction k context request a :
  linkAt k (executeTransaction context request a) = linkAt k a.
Proof.
  unfold linkAt, executeTransaction; cbn.
  destruct (Nat.lt_ge_cases k (length (mutationQueue a))) as [Hlt|Hge].
  - rewrite lookup_app_l by exact Hlt. reflexivity.
  - rewrite lookup_app_r by exact Hge.
    rewrite (lookup_ge_None_2 (mutationQueue a) k) by exact Hge.
    destruct (k - length (mutationQueue a))%nat; reflexivity.
Qed.

Lemma attemptsOf_app k t seg :
  attemptsOf k (t ++ seg) = (attemptsOf k t + attemptsOf k seg)%nat.
Proof. unfold attemptsOf. rewrite effectsOf_app, List.filter_app, length_app. reflexivity. Qed.

Lemma attemptsOf_other k j seg :
  j <> k -> Forall (fun p => fst p = k) seg -> attemptsOf j seg = 0%nat.
Proof. intros Hne Ht. unfold attemptsOf. rewrite (effectsOf_other k j seg Hne Ht). reflexivity. Qed.

(** What a resumption that does something does. *)
Lemma resume_blocked_cases k a :
  agentInv a ->
  resume env k a = a \/
  exists job after seg,
    isDone (linkAt k a) = false /\
    (forall j, (k < j)%nat -> linkAt j a = Queued) /\
    (k < length (mutationQueue a))%nat /\
    mutationQueue (resume env k a) = <[k := (job, after)]> (mutationQueue a) /\
    trace (world (resume env k a)) = (trace (world a) ++ seg)%list /\
    Forall (fun p => fst p = k) seg /\
    (linkAt k a = Queued ->
       isDone (previous k a) = true /\
       forall error, previous k a = Done (Rejected error) ->
         after = Done (Rejected error) /\ attemptsOf k seg = 0%nat).
Proof.
  intros (G & _ & _ & _ & _).
  destruct (resume_cases env jitter k a)
    as [-> | (job & before & after & seg & Hk & Hnd & Hprev & Hq & Htr & (Htags & _))];
    [left; reflexivity|].
  right. exists job, after, seg.
  assert (HlinkK : linkAt k a = before) by (unfold linkAt; rewrite Hk; reflexivity).
  assert (Hlen : (k < length (mutationQueue a))%nat) by (eapply lookup_lt_Some; exact Hk).
  split; [rewrite HlinkK; exact Hnd|].
  split.
  { intros j Hj. destruct (linkAt j a) eqn:E; [reflexivity| |].
    all: assert (Hne : linkAt j a <> Queued) by (rewrite E; discriminate).
    all: destruct (G j Hne) as [_ Hd]; specialize (Hd k Hj); rewrite HlinkK, Hnd in Hd;
         discriminate. }
  split; [exact Hlen|]. split; [exact Hq|]. split; [exact Htr|]. split; [exact Htags|].
  intros Hqd. subst before. rewrite Hqd in Hk. split; [apply Hprev, Hqd|].
  intros error Hp. unfold resume in Hq, Htr. rewrite Hk, Hp in Hq, Htr.
  unfold catchQueueError, record, mbind, W_bind, mret, W_ret in Hq, Htr.
  cbn [mutationQueue world trace clock] in Hq, Htr.
  assert (Hafter : after = Done (Rejected error)).
  { apply (f_equal (fun q => q !! k)) in Hq.
    rewrite !list_lookup_insert_eq in Hq by exact Hlen. congruence. }
  split; [exact Hafter|].
  apply app_inv_head in Htr. subst seg.
  unfold attemptsOf, effectsOf. cbn. rewrite Nat.eqb_refl. reflexivity.
Qed.

Lemma queueBlocked_resume k a :
  agentInv a -> queueBlocked a -> queueBlocked (resume env k a).
Proof.
  intros Hinv Hb.
  destruct (resume_blocked_cases k a Hinv)
    as [-> | (job & after & seg & Hnd & Hlater & Hlen & Hq & Htr & Htags & Hpoison)];
    [exact Hb|].
  assert (Hlink : forall j, linkAt j (resume env k a) = if decide (j = k) then after else linkAt j a).
  { intros j. unfold linkAt at 1. rewrite Hq. destruct (decide (j = k)) as [->|Hne].
    - rewrite list_lookup_insert_eq by exact Hlen. reflexivity.
    - rewrite list_lookup_insert_ne by congruence. reflexivity. }
  intros i j error Hij Hi. rewrite Hlink in Hi. rewrite Hlink, Htr, attemptsOf_app.
  destruct (decide (i = k)) as [->|Hik].
  - destruct (decide (j = k)); [lia|]. left. apply Hlater. exact Hij.
  - destruct (decide (j = k)) as [->|Hjk].
    + right.
      destruct (Hb i k error Hij Hi) as [Hqd | [Hdone _]]; [|rewrite Hdone in Hnd; discriminate].
      destruct (Hpoison Hqd) as [Hpd Hrej].
      assert (Hprev : previous k a = Done (Rejected error)).
      { destruct k as [|k0]; [lia|]. change (previous (S k0) a) with (linkAt k0 a) in *.
        destruct (decide (i = k0)) as [->|Hne]; [exact Hi|].
        destruct (Hb i k0 error ltac:(lia) Hi) as [Hq0 | [Hd0 _]]; [|exact Hd0].
        rewrite Hq0 in Hpd. discriminate. }
      destruct (Hrej error Hprev) as [-> Hzero]. split; [reflexivity|].
      destruct Hinv as (_ & _ & _ & L & _). destruct (L k) as [_ Lk]. rewrite Hqd in Lk.
      unfold attemptsOf at 1. rewrite Lk. cbn. exact Hzero.
    + rewrite (attemptsOf_other k j seg Hjk Htags), Nat.add_0_r. apply (Hb i j error Hij Hi).
Qed.

Lemma queueBlocked_run acts a :
  agentInv a -> queueBlocked a -> queueBlocked (runActions env acts a).
Proof.
  revert a. induction acts as [|x acts IH]; intros a Hinv Hb; [exact Hb|].
  change (runActions env (x :: acts) a) with (runActions env acts (act env a x)).
  destruct x as [context request|k]; cbn [act].
  - apply IH; [apply agentInv_call; exact Hinv|].
    intros i j error Hij Hi. rewrite linkAt_executeTransaction in *.
    apply (Hb i j error Hij Hi).
  - apply IH; [apply (agentInv_resume env jitter); exact Hinv|].
    apply queueBlocked_resume; assumption.
Qed.
End Blocked.

Section Progress.
Variable env : Env.
Hypothesis jitter : forall t, 0 <= random env t < 1000.

Ltac wstep :=
  unfold iteration, attempt, operation, getTxOptions, onError, catchQueueError, ask, record,
    mbind, W_bind, mret, W_ret in *; cbn [fst snd clock trace] in *.

Ltac wcases :=
  repeat match goal with
  | |- context [match ?x with _ => _ end] =>
      match x with
      | getTransactionCount _ _ => destruct x eqn:?
      | getNonce _ _ => destruct x eqn:?
      | sendTransaction _ _ _ _ => destruct x eqn:?
      | waitForReceipt _ _ _ => destruct x eqn:?
      end
  | |- context [if ?b then _ else _] => destruct b eqn:?
  end; cbn [fst snd clock trace].

Lemma sleepsOf_app k t seg : sleepsOf k (t ++ seg) = (sleepsOf k t ++ sleepsOf k seg)%list.
Proof. unfold sleepsOf. rewrite effectsOf_app, flat_map_app. reflexivity. Qed.

Lemma sleepsOf_same k seg : Forall (fun p => fst p = k) seg -> sleepsOf k seg = sleepsIn seg.
Proof. intros H. unfold sleepsOf, sleepsIn. rewrite (effectsOf_same k seg H). reflexivity. Qed.











End Progress.




(** On [busyChain] the first call meets one nonce conflict, waits 2750 ms and
    succeeds at its second attempt; the second call runs once, after it. *)
Example busyChain_run :
  let a := runActions busyChain twoCalls initialAgent in
  map snd (mutationQueue a) =
    [Done (Fulfilled (Some (mkReceipt 77 9))); Done (Fulfilled (Some (mkReceipt 77 9)))] /\
  attemptsOf 0 (trace (world a)) = 2%nat /\
  sleepsOf 0 (trace (world a)) = [2750] /\
  attemptsOf 1 (trace (world a)) = 1%nat.
Proof. vm_compute. auto. Qed.

(** ** Further properties of the transaction executor *)


(** X15. A rejected call blocks the queue for good. Once a call of
    [executeTransaction] is rejected, no call made after it is ever
    executed: whenever the runtime comes to one, it is rejected with the same
    error without a single attempt, and until then it stays queued. *)
Theorem rejected_call_blocks_the_queue
    (env : Env) (jitter : forall t, 0 <= random env t < 1000) (acts : list Action)
    (i j : nat) (error : JsError) :
  let a := runActions env acts initialAgent in
  (i < j)%nat ->
  linkAt i a = Done (Rejected error) ->
  linkAt j a = Queued \/
  (linkAt j a = Done (Rejected error) /\ attemptsOf j (trace (world a)) = 0%nat).
Proof.
  cbv zeta. apply (queueBlocked_run env jitter acts initialAgent (agentInv_initial)).
  intros i' j' e _ H. destruct i'; discriminate H.
Qed.

Lemma rejected_call_blocks_the_queue_witness :
  let a := runActions brokenChain (twoCalls ++ [Resume 1]) initialAgent in
  (forall t, 0 <= random brokenChain t < 1000) /\
  linkAt 0 a = Done (Rejected reverted) /\
  (linkAt 1 a = Queued \/
   (linkAt 1 a = Done (Rejected reverted) /\ attemptsOf 1 (trace (world a)) = 0%nat)).
Proof.
  cbv zeta. split; [intros t; cbn; lia|]. split; [vm_compute; reflexivity|].
  refine (rejected_call_blocks_the_queue brokenChain _ (twoCalls ++ [Resume 1]) 0 1 reverted _ _).
  - intros t. cbn. lia.
  - lia.
  - vm_compute. reflexivity.
Defined.

(** On [brokenChain] the first call fails at once; the second is never sent. *)
Example brokenChain_run :
  let a := runActions brokenChain twoCalls initialAgent in
  map snd (mutationQueue a) = [Done (Rejected reverted); Done (Rejected reverted)] /\
  attemptsOf 0 (trace (world a)) = 1%nat /\
  effectsOf 1 (trace (world a)) = [LogQueueError "Release Milestone" (message reverted)].
Proof. vm_compute. auto. Qed.

Section Backoff.
Variable env : Env.
Hypothesis jitter : forall t, 0 <= random env t < 1000.

Lemma backoffFrom_snoc n sleeps ms :
  backoffFrom n sleeps = true ->
  1500 + (n + Z.of_nat (length sleeps)) * 1000 <= ms
    < 1500 + (n + Z.of_nat (length sleeps) + 1) * 1000 ->
  backoffFrom n (sleeps ++ [ms]) = true.
Proof.
  revert n. induction sleeps as [|x sleeps IH]; intros n H Hms; cbn [app backoffFrom length] in *.
  - rewrite Z.add_0_r in Hms.
    destruct (Z.leb_spec (1500 + n * 1000) ms), (Z.ltb_spec ms (1500 + (n + 1) * 1000));
      first [lia | reflexivity].
  - apply andb_prop in H as [H1 H2]. rewrite H1. cbn [andb]. apply IH; [exact H2|]. lia.
Qed.

Lemma sleepsOf_other k j seg :
  j <> k -> Forall (fun p => fst p = k) seg -> sleepsOf j seg = [].
Proof. intros Hne H. unfold sleepsOf. rewrite (effectsOf_other k j seg Hne H). reflexivity. Qed.

Lemma backoffInv_resume k a : agentInv a -> backoffInv a -> backoffInv (resume env k a).
Proof.
  intros (_ & _ & _ & L & _) Hb.
  destruct (resume_cases env jitter k a)
    as [-> | (job & before & after & seg & Hk & Hnd & _ & Hq & Htr & (Htags & _ & Hafter))];
    [exact Hb|].
  assert (HlinkK : linkAt k a = before) by (unfold linkAt; rewrite Hk; reflexivity).
  assert (Hlen : (k < length (mutationQueue a))%nat) by (eapply lookup_lt_Some; exact Hk).
  assert (Hlink : forall j, linkAt j (resume env k a) = if decide (j = k) then after else linkAt j a).
  { intros j. unfold linkAt at 1. rewrite Hq. destruct (decide (j = k)) as [->|Hne].
    - rewrite list_lookup_insert_eq by exact Hlen. reflexivity.
    - rewrite list_lookup_insert_ne by congruence. reflexivity. }
  intros j. cbv zeta. rewrite Hlink, Htr, sleepsOf_app.
  destruct (decide (j = k)) as [->|Hne].
  - rewrite (sleepsOf_same k seg Htags). destruct (Hb k) as [Hok Hk0]. cbv zeta in *.
    rewrite HlinkK in Hk0. specialize (L k). rewrite HlinkK in L. destruct L as [_ Lk].
    assert (Hcount : Z.of_nat (length (sleepsOf k (trace (world a)))) = attemptsBefore before).
    { destruct before as [| n | o]; [rewrite Hk0; reflexivity | exact Hk0 | discriminate]. }
    destruct after as [| n | o]; [contradiction| |].
    + destruct Hafter as (Hn & Hmax & _ & ms & -> & Hms). split.
      * apply backoffFrom_snoc; [exact Hok|]. lia.
      * rewrite length_app. cbn [length]. lia.
    + destruct Hafter as (_ & ->). rewrite app_nil_r. split; [exact Hok|].
      destruct before as [| n | ?]; [rewrite Hk0; cbn; lia | | discriminate].
      cbn [attemptsBefore] in Hcount. destruct Lk as (Hn & _). unfold maxAttempts in Hn. lia.
  - rewrite (sleepsOf_other k j seg Hne Htags), app_nil_r. apply Hb.
Qed.

Lemma backoffInv_run acts a :
  agentInv a -> backoffInv a -> backoffInv (runActions env acts a).
Proof.
  revert a. induction acts as [|x acts IH]; intros a Hinv Hb; [exact Hb|].
  change (runActions env (x :: acts) a) with (runActions env acts (act env a x)).
  destruct x as [context request|k]; cbn [act].
  - apply IH; [apply agentInv_call; exact Hinv|].
    intros j. cbv zeta. rewrite linkAt_executeTransaction. apply (Hb j).
  - apply IH; [apply (agentInv_resume env jitter); exact Hinv|].
    apply backoffInv_resume; assumption.
Qed.
End Backoff.

(** X16. The backoff of a call is bounded. A call waits after a failed attempt
    at most four times; its first wait lasts from 2.5 to 3.5 seconds and
    each further one a second longer, so that a call spends less than 20
    seconds waiting in all. *)
Theorem backoff_is_bounded
    (env : Env) (jitter : forall t, 0 <= random env t < 1000) (acts : list Action) (k : nat) :
  let sleeps := sleepsOf k (trace (world (runActions env acts initialAgent))) in
  (length sleeps <= 4)%nat /\
  backoffFrom 1 sleeps = true /\
  fold_right Z.add 0 sleeps < 20000.
Proof.
  cbv zeta.
  assert (Hb : backoffInv (runActions env acts initialAgent)).
  { apply (backoffInv_run env jitter acts initialAgent agentInv_initial).
    intros j. cbv zeta. split; [reflexivity|]. destruct j; reflexivity. }
  destruct (Hb k) as [Hok Hk]. cbv zeta in *.
  assert (Hlen : (length (sleepsOf k (trace (world (runActions env acts initialAgent)))) <= 4)%nat).
  { destruct (linkAt k (runActions env acts initialAgent)) as [| n | o].
    - rewrite Hk. cbn. lia.
    - destruct (agentInv_run env jitter acts initialAgent agentInv_initial) as (_ & _ & _ & L & _).
      specialize (L k). destruct (Hb k) as [_ Hk']. cbv zeta in Hk'.
      destruct (linkAt k (runActions env acts initialAgent)) as [| m | ?] eqn:E.
      + rewrite Hk'. cbn. lia.
      + destruct L as (_ & (Hm & _)). unfold maxAttempts in Hm. lia.
      + exact Hk'.
    - exact Hk. }
  split; [exact Hlen|]. split; [exact Hok|].
  destruct (sleepsOf k (trace (world (runActions env acts initialAgent))))
    as [|s1 [|s2 [|s3 [|s4 [|s5 rest]]]]]; cbn [length] in Hlen; try lia.
  all: cbn [backoffFrom fold_right] in *.
  all: repeat match goal with
         | H : _ && _ = true |- _ => apply andb_prop in H as [? ?]
         | H : (_ <=? _) = true |- _ => apply Z.leb_le in H
         | H : (_ <? _) = true |- _ => apply Z.ltb_lt in H
         end.
  all: lia.
Qed.

Lemma backoff_is_bounded_witness :
  (forall t, 0 <= random busyChain t < 1000) /\
  fold_right Z.add 0 (sleepsOf 0 (trace (world (runActions busyChain twoCalls initialAgent)))) < 20000.
Proof.
  split; [intros t; cbn; lia|].
  refine (proj2 (proj2 (backoff_is_bounded busyChain _ twoCalls 0))).
  intros t. cbn. lia.
Defined.

(** ** The error reports *)

Lemma includes_empty sub : sub <> "" -> includes "" sub = false.
Proof. destruct sub; [contradiction|reflexivity]. Qed.




(** ** The budget agent *)

(** ** The budget agent *)

Section BudgetFacts.
Variable formatEther : Z -> string.

Lemma getTotalSpending_push a r :
  Budget.getTotalSpending (Budget.mkAgent (Budget.limits a) (Budget.spendingHistory a ++ [r])) =
  Budget.getTotalSpending a + Budget.amount r.
Proof. unfold Budget.getTotalSpending. cbn. rewrite fold_left_app. reflexivity. Qed.

Lemma getDailySpending_push now a r :
  Budget.getDailySpending now
    (Budget.mkAgent (Budget.limits a) (Budget.spendingHistory a ++ [r])) =
  Budget.getDailySpending now a +
  (if now - 24 * 60 * 60 * 1000 <=? Budget.timestamp r then Budget.amount r else 0).
Proof.
  unfold Budget.getDailySpending. cbn [Budget.spendingHistory].
  rewrite List.filter_app, fold_left_app. cbn [List.filter].
  destruct (_ <=? _); cbn; lia.
Qed.

(** With amounts that are not negative, what counts at a later time counted
    already at an earlier one. *)
Lemma getDailySpending_later now later a :
  Forall (fun r => 0 <= Budget.amount r) (Budget.spendingHistory a) -> now <= later ->
  0 <= Budget.getDailySpending later a <= Budget.getDailySpending now a.
Proof.
  unfold Budget.getDailySpending. intros Hall Hle. revert Hall.
  induction (Budget.spendingHistory a) as [|r l IH] using rev_ind; intros Hall; [cbn; lia|].
  apply Forall_app in Hall as [Hl Hr]. inversion Hr as [|? ? Hr0 _]; subst.
  specialize (IH Hl). cbv zeta in *.
  rewrite !List.filter_app, !fold_left_app. cbn [List.filter].
  destruct (Z.leb_spec (later - 24 * 60 * 60 * 1000) (Budget.timestamp r)),
           (Z.leb_spec (now - 24 * 60 * 60 * 1000) (Budget.timestamp r)); cbn; lia.
Qed.

Lemma handleBudgetCheck_cases c a :
  let r := Budget.handleBudgetCheck formatEther c a in
  fst r = a \/
  exists amount balance,
    Budget.requested c = Some amount /\ Budget.currentBalance c = Some balance /\
    amount <= balance /\ amount <= Budget.perTaskLimit (Budget.limits a) /\
    Budget.getDailySpending (Budget.clockAtCheck c) a + amount <= Budget.dailyLimit (Budget.limits a) /\
    Budget.getTotalSpending a + amount <= Budget.totalBudget (Budget.limits a) /\
    fst r = Budget.mkAgent (Budget.limits a)
              (Budget.spendingHistory a ++
               [Budget.mkRecord amount (Budget.clockAtRecord c) (Budget.reasonFor c)]).
Proof.
  cbv zeta. unfold Budget.handleBudgetCheck.
  destruct (Budget.requested c) as [amount|]; [|left; reflexivity].
  destruct (Budget.currentBalance c) as [balance|]; [|left; reflexivity].
  cbn [forallb id fst].
  destruct (Z.leb_spec amount balance); cbn [andb]; [|left; reflexivity].
  destruct (Z.leb_spec amount (Budget.perTaskLimit (Budget.limits a))); cbn [andb];
    [|left; reflexivity].
  destruct (Z.leb_spec (Budget.getDailySpending (Budget.clockAtCheck c) a + amount)
              (Budget.dailyLimit (Budget.limits a))); cbn [andb]; [|left; reflexivity].
  destruct (Z.leb_spec (Budget.getTotalSpending a + amount)
              (Budget.totalBudget (Budget.limits a))); cbn [andb]; [|left; reflexivity].
  right. exists amount, balance. repeat split; auto.
Qed.

Lemma runChecks_cons c checks a :
  Budget.runChecks formatEther (c :: checks) a =
  Budget.runChecks formatEther checks (fst (Budget.handleBudgetCheck formatEther c a)).
Proof. reflexivity. Qed.

Lemma runChecks_limits checks a :
  Budget.limits (Budget.runChecks formatEther checks a) = Budget.limits a.
Proof.
  revert a. induction checks as [|c checks IH]; intros a; [reflexivity|].
  rewrite runChecks_cons, IH. destruct (handleBudgetCheck_cases c a) as [-> | (? & ? & _ & _ & _ & _ & _ & _ & ->)];
    reflexivity.
Qed.
Lemma runChecks_within checks a :
  (Budget.spendingHistory a = [] \/
   Budget.getTotalSpending a <= Budget.totalBudget (Budget.limits a)) /\
  Forall (fun r => Budget.amount r <= Budget.perTaskLimit (Budget.limits a))
    (Budget.spendingHistory a) ->
  let a' := Budget.runChecks formatEther checks a in
  (Budget.spendingHistory a' = [] \/
   Budget.getTotalSpending a' <= Budget.totalBudget (Budget.limits a')) /\
  Forall (fun r => Budget.amount r <= Budget.perTaskLimit (Budget.limits a'))
    (Budget.spendingHistory a').
Proof.
  revert a. induction checks as [|c checks IH]; intros a H0; [exact H0|].
  rewrite runChecks_cons. apply IH.
  destruct (handleBudgetCheck_cases c a)
    as [-> | (amount & balance & _ & _ & _ & Htask & _ & Htotal & ->)]; [exact H0|].
  destruct H0 as [_ Hall]. cbn [Budget.limits Budget.spendingHistory]. split.
  - right. rewrite getTotalSpending_push. cbn. exact Htotal.
  - apply Forall_app. split; [exact Hall|]. constructor; [exact Htask|constructor].
Qed.
End BudgetFacts.

(** X18. Whatever requests the budget agent handles, with whatever balances and
    clock readings, its recorded spending never exceeds the total budget
    once anything is recorded, and no recorded amount exceeds the per-task
    limit; the limits themselves never change. *)
Theorem budget_is_never_exceeded formatEther given checks :
  let start := Budget.constructor given in
  let a := Budget.runChecks formatEther checks start in
  Budget.limits a = Budget.limits start /\
  (Budget.spendingHistory a = [] \/
   Budget.getTotalSpending a <= Budget.totalBudget (Budget.limits a)) /\
  Forall (fun r => Budget.amount r <= Budget.perTaskLimit (Budget.limits a))
    (Budget.spendingHistory a).
Proof.
  cbv zeta. split; [apply runChecks_limits|].
  apply runChecks_within. split; [left; reflexivity|constructor].
Qed.

Section DailyWindow.
Variable formatEther : Z -> string.

Lemma runChecks_daily checks a start limit :
  Budget.dailyLimit (Budget.limits a) = limit ->
  Forall (fun r => 0 <= Budget.amount r) (Budget.spendingHistory a) ->
  (forall t, start <= t -> Budget.getDailySpending t a <= limit) ->
  Budget.clockOk start checks = true ->
  forallb Budget.nonNegative checks = true ->
  let a' := Budget.runChecks formatEther checks a in
  Forall (fun r => 0 <= Budget.amount r) (Budget.spendingHistory a') /\
  forall t, Budget.lastClock start checks <= t -> Budget.getDailySpending t a' <= limit.
Proof.
  revert a start. induction checks as [|c checks IH]; intros a start Hlim Hpos Hday Hclock Hnn;
    cbv zeta; [split; [exact Hpos|exact Hday]|].
  cbn [Budget.clockOk] in Hclock.
  apply andb_prop in Hclock as [Hclock Hrest]. apply andb_prop in Hclock as [Hc1 Hc2].
  apply Z.leb_le in Hc1, Hc2.
  cbn [forallb] in Hnn. apply andb_prop in Hnn as [Hn Hnn].
  rewrite runChecks_cons.
  change (Budget.lastClock start (c :: checks))
    with (Budget.lastClock (Budget.clockAtRecord c) checks).
  destruct (handleBudgetCheck_cases formatEther c a)
    as [-> | (amount & balance & Hreq & _ & _ & _ & Hdaily & _ & ->)].
  - apply (IH a (Budget.clockAtRecord c)); auto.
    intros t Ht. apply Hday. lia.
  - assert (Hamount : 0 <= amount).
    { unfold Budget.nonNegative in Hn. rewrite Hreq in Hn. apply Z.leb_le. exact Hn. }
    apply (IH _ (Budget.clockAtRecord c)); auto.
    + cbn [Budget.spendingHistory]. apply Forall_app. split; [exact Hpos|].
      constructor; [exact Hamount|constructor].
    + intros t Ht. rewrite getDailySpending_push. cbn [Budget.timestamp Budget.amount].
      pose proof (getDailySpending_later (Budget.clockAtCheck c) t a Hpos ltac:(lia)).
      destruct (_ <=? _); lia.
Qed.
End DailyWindow.

(** X19. When no requested amount is negative and the clock never goes back, the
    spending recorded by the budget agent within any 24 hours that end now
    or later never exceeds the daily limit: at every time from the last
    clock reading on, [getDailySpending] is at most [dailyLimit]. *)
Theorem daily_limit_holds formatEther given checks start t :
  let a := Budget.runChecks formatEther checks (Budget.constructor given) in
  0 <= Budget.dailyLimit (Budget.limits (Budget.constructor given)) ->
  Budget.clockOk start checks = true ->
  forallb Budget.nonNegative checks = true ->
  Budget.lastClock start checks <= t ->
  Budget.getDailySpending t a <= Budget.dailyLimit (Budget.limits a).
Proof.
  cbv zeta. intros Hlimit Hclock Hnn Ht. rewrite runChecks_limits.
  refine (proj2 (runChecks_daily formatEther checks (Budget.constructor given) start _
                   eq_refl _ _ Hclock Hnn) t Ht).
  - constructor.
  - intros t0 _. exact Hlimit.
Qed.

Lemma daily_limit_holds_witness :
  let checks :=
    [Budget.mkCheck "StartupAgent" (Some (Budget.parseEther 60)) "hire" (Some (Budget.parseEther 5000)) 1000 1001;
     Budget.mkCheck "StartupAgent" (Some (Budget.parseEther 60)) "hire" (Some (Budget.parseEther 5000)) 2000 2002] in
  Budget.getDailySpending 5000
    (Budget.runChecks (fun _ => "") checks
       (Budget.constructor (Some (Budget.mkPartial None (Some (Budget.parseEther 100)) None))))
  <= Budget.parseEther 100.
Proof.
  cbv zeta.
  refine (daily_limit_holds (fun _ => "")
            (Some (Budget.mkPartial None (Some (Budget.parseEther 100)) None)) _ 0 5000 _ _ _ _).
  - vm_compute. discriminate.
  - reflexivity.
  - reflexivity.
  - vm_compute. discriminate.
Defined.

(** X20. A limit of 0 cannot be configured: the constructor takes the default in
    its place, as it does for a limit left out, so that no limit of the
    budget agent is ever 0; any other limit given is kept. *)
Theorem zero_limit_is_replaced given :
  let l := Budget.limits (Budget.constructor given) in
  (Budget.totalBudget l <> 0 /\ Budget.dailyLimit l <> 0 /\ Budget.perTaskLimit l <> 0) /\
  Budget.limits (Budget.constructor (Some (Budget.mkPartial (Some 0) (Some 0) (Some 0)))) =
    Budget.limits (Budget.constructor None) /\
  (forall total daily perTask,
     total <> 0 -> daily <> 0 -> perTask <> 0 ->
     Budget.limits (Budget.constructor
                      (Some (Budget.mkPartial (Some total) (Some daily) (Some perTask)))) =
     Budget.mkLimits total daily perTask).
Proof.
  cbv zeta. split; [|split; [reflexivity|]].
  - unfold Budget.constructor, Budget.orElse, Budget.parseEther. cbn [Budget.limits
      Budget.totalBudget Budget.dailyLimit Budget.perTaskLimit].
    destruct given as [[[t|] [d|] [p|]]|]; cbn [mbind option_bind Budget.givenTotal
      Budget.givenDaily Budget.givenPerTask].
    all: repeat split.
    all: repeat match goal with
           | |- context [?v =? 0] => destruct (Z.eqb_spec v 0)
           end; try assumption; try lia.
  - intros total daily perTask Ht Hd Hp.
    unfold Budget.constructor, Budget.orElse. cbn.
    destruct (Z.eqb_spec total 0), (Z.eqb_spec daily 0), (Z.eqb_spec perTask 0); try contradiction.
    reflexivity.
Qed.

(** X21. A rejection always says why and records nothing: its reason is never
    empty, the spending history stays as it was and the balance reported is
    the whole balance. An approval carries no reason, records exactly the
    amount asked with the time of recording, and reports the balance less
    that amount. A request is approved exactly when the balance covers the
    amount and the three limits allow it. *)
Theorem budget_answer formatEther c a amount balance :
  Budget.requested c = Some amount -> Budget.currentBalance c = Some balance ->
  let ok :=
    (amount <=? balance) && (amount <=? Budget.perTaskLimit (Budget.limits a)) &&
    (Budget.getDailySpending (Budget.clockAtCheck c) a + amount <=? Budget.dailyLimit (Budget.limits a)) &&
    (Budget.getTotalSpending a + amount <=? Budget.totalBudget (Budget.limits a)) in
  exists text,
    Budget.handleBudgetCheck formatEther c a =
      (if ok
       then Budget.mkAgent (Budget.limits a)
              (Budget.spendingHistory a ++
               [Budget.mkRecord amount (Budget.clockAtRecord c) (Budget.reasonFor c)])
       else a,
       Some (Budget.mkAnswer (Budget.sender c)
               (if ok then Budget.BUDGET_APPROVED else Budget.BUDGET_REJECTED)
               (Budget.mkApproval ok
                  (formatEther (if ok then balance - amount else balance))
                  (if ok then None else Some text)))) /\
    (ok = false -> text <> "").
Proof.
  intros Hreq Hbal. cbv zeta. unfold Budget.handleBudgetCheck. rewrite Hreq, Hbal.
  cbn [forallb id]. unfold Budget.reasonsOf.
  destruct (amount <=? balance), (amount <=? Budget.perTaskLimit (Budget.limits a)),
    (Budget.getDailySpending (Budget.clockAtCheck c) a + amount <=? Budget.dailyLimit (Budget.limits a)),
    (Budget.getTotalSpending a + amount <=? Budget.totalBudget (Budget.limits a));
    cbn [andb negb app String.concat].
  1: exists ""; split; [rewrite ?Z.sub_0_r; reflexivity | discriminate].
  all: eexists; split; [rewrite ?Z.sub_0_r; reflexivity|]; intros _; discriminate.
Qed.

Lemma budget_answer_witness :
  let c := Budget.mkCheck "StartupAgent" (Some (Budget.parseEther 150)) "hire"
             (Some (Budget.parseEther 5000)) 1000 1001 in
  fst (Budget.handleBudgetCheck (fun _ => "") c (Budget.constructor None)) =
  Budget.constructor None.
Proof.
  cbv zeta.
  destruct (budget_answer (fun _ => "")
              (Budget.mkCheck "StartupAgent" (Some (Budget.parseEther 150)) "hire"
                 (Some (Budget.parseEther 5000)) 1000 1001)
              (Budget.constructor None) (Budget.parseEther 150) (Budget.parseEther 5000)
              eq_refl eq_refl) as (text & -> & _).
  reflexivity.
Defined.

(** ** The message bus *)

Lemma accepted_direct slots history emitted recipient m :
  Bus.accepted (Bus.mkBus slots history (emitted ++ [(("message:" ++ recipient)%string, m)])%list) =
  (Bus.accepted (Bus.mkBus slots history emitted) ++ [m])%list.
Proof.
  unfold Bus.accepted. cbn [Bus.emitted]. rewrite List.filter_app, map_app. reflexivity.
Qed.

Lemma accepted_global slots history emitted m :
  Bus.accepted (Bus.mkBus slots history (emitted ++ [("message", m)])%list) =
  Bus.accepted (Bus.mkBus slots history emitted).
Proof.
  unfold Bus.accepted. cbn [Bus.emitted]. rewrite List.filter_app, map_app. cbn.
  apply app_nil_r.
Qed.

Lemma tl_skipn {A} (k : nat) (l : list A) : List.tl (skipn k l) = skipn (S k) l.
Proof.
  revert l. induction k as [|k IH]; intros [|z l]; try reflexivity.
  apply (IH l).
Qed.

Lemma lastOf_push {A} (n : nat) (l : list A) (x : A) :
  (0 < n)%nat ->
  (if (n <? length (Bus.lastOf n l ++ [x]))%nat
   then List.tl (Bus.lastOf n l ++ [x]) else (Bus.lastOf n l ++ [x])%list) =
  Bus.lastOf n (l ++ [x]).
Proof.
  intros Hn. unfold Bus.lastOf. rewrite !length_app, length_skipn. cbn [length].
  destruct (Nat.ltb_spec n (length l - (length l - n) + 1)) as [Hlt|Hge].
  - assert (Hle : (n <= length l)%nat) by lia.
    replace (length l + 1 - n)%nat with (S (length l - n)) by lia.
    rewrite skipn_app. replace (S (length l - n) - length l)%nat with 0%nat by lia.
    cbn [skipn]. rewrite <- tl_skipn.
    destruct (skipn (length l - n) l) as [|y rest] eqn:E; [|reflexivity].
    apply (f_equal (@length A)) in E. rewrite length_skipn in E. cbn in E. lia.
  - replace (length l + 1 - n)%nat with 0%nat by lia.
    replace (length l - n)%nat with 0%nat by lia. reflexivity.
Qed.

Lemma length_lastOf {A} (n : nat) (l : list A) : (length (Bus.lastOf n l) <= n)%nat.
Proof. unfold Bus.lastOf. rewrite length_skipn. lia. Qed.

Lemma sendMessage_steps on message b b' :
  Bus.sendMessage on message b = Some b' ->
  (Bus.has (Bus.to message) b = false /\ b' = b) \/
  (Bus.has (Bus.to message) b = true /\
   exists b1,
     on ("message:" ++ Bus.to message)%string message (Bus.pushedOn message b) = Some b1 /\
     on "message" message (Bus.noted message b1) = Some b').
Proof.
  unfold Bus.sendMessage. destruct (Bus.has (Bus.to message) b); cbn [negb].
  - intros H. right. split; [reflexivity|]. cbv zeta in H. unfold Bus.emit in H.
    cbn [Bus.entries Bus.messageHistory Bus.emitted] in H.
    fold (Bus.pushedOn message b) in H.
    destruct (on ("message:" ++ Bus.to message)%string message (Bus.pushedOn message b)) as [b1|] eqn:E;
      [|discriminate].
    exists b1. split; [reflexivity|]. exact H.
  - intros [= <-]. left. split; reflexivity.
Qed.

Section Invariant.
Variable mayRegister : bool.
Variable P : Bus.Bus -> Prop.
Hypothesis P_register :
  mayRegister = true -> forall agentName b, P b -> P (Bus.registerAgent agentName b).
Hypothesis P_unregister :
  mayRegister = true -> forall agentName b, P b -> P (Bus.unregisterAgent agentName b).
Hypothesis P_pushed :
  forall message b, P b -> Bus.has (Bus.to message) b = true -> P (Bus.pushedOn message b).
Hypothesis P_noted : forall message b, P b -> P (Bus.noted message b).

Lemma sendMessage_invariant on message :
  (forall event m b b', P b -> on event m b = Some b' -> P b') ->
  forall b b', P b -> Bus.sendMessage on message b = Some b' -> P b'.
Proof.
  intros Hon b b' Hb H. apply sendMessage_steps in H as [[_ ->]|(Hhas & b1 & H1 & H2)];
    [exact Hb|].
  eapply Hon; [|exact H2]. apply P_noted. eapply Hon; [|exact H1].
  apply P_pushed; assumption.
Qed.

Lemma forEach_invariant fuel callback :
  (forall agentName b b', P b -> callback agentName b = Some b' -> P b') ->
  forall index b b', P b -> Bus.forEach fuel callback index b = Some b' -> P b'.
Proof.
  intros Hcall. induction fuel as [|fuel IH]; intros index b b' Hb H; cbn [Bus.forEach] in H.
  - destruct (Bus.entries b !! index); [discriminate|]. injection H as <-. exact Hb.
  - destruct (Bus.entries b !! index) as [[agentName|]|]; [| |injection H as <-; exact Hb].
    + destruct (callback agentName b) as [b1|] eqn:E; [|discriminate]. cbn in H.
      eapply IH; [|exact H]. eapply Hcall; [exact Hb|exact E].
    + eapply IH; [exact Hb|exact H].
Qed.

Lemma busCode_invariant f :
  Bus.busCode mayRegister f -> forall b b', P b -> f b = Some b' -> P b'.
Proof.
  induction 1 as [| f1 f2 H1 IHf H2 IHg | X read k Hk IH | name Hr | name Hr
                  | on message Hon IH | fuel on message Hon IH]; intros b b' Hb H.
  - injection H as <-. exact Hb.
  - destruct (f1 b) as [b1|] eqn:E; [|discriminate]. cbn in H.
    eapply IHg; [|exact H]. eapply IHf; [exact Hb|exact E].
  - eapply IH; [exact Hb|exact H].
  - injection H as <-. apply P_register; assumption.
  - injection H as <-. apply P_unregister; assumption.
  - eapply sendMessage_invariant; [|exact Hb|exact H]. intros event m. apply IH.
  - unfold Bus.broadcast in H. eapply forEach_invariant; [|exact Hb|exact H].
    intros agentName b0 b0' Hb0 H0. unfold Bus.forward in H0.
    destruct (negb _); [|injection H0 as <-; exact Hb0].
    eapply sendMessage_invariant; [|exact Hb0|exact H0]. intros event m. apply IH.
Qed.
End Invariant.

(** The history holds the last messages taken in. *)
Lemma busCode_history r f :
  Bus.busCode r f ->
  forall b b', Bus.messageHistory b = Bus.lastOf Bus.maxHistorySize (Bus.accepted b) ->
               f b = Some b' ->
               Bus.messageHistory b' = Bus.lastOf Bus.maxHistorySize (Bus.accepted b').
Proof.
  apply (busCode_invariant r
           (fun b => Bus.messageHistory b = Bus.lastOf Bus.maxHistorySize (Bus.accepted b))).
  - intros _ name b Hb. unfold Bus.registerAgent. destruct (Bus.has name b); exact Hb.
  - intros _ name b Hb. exact Hb.
  - intros message b Hb _. unfold Bus.pushedOn. rewrite accepted_direct. cbn [Bus.messageHistory].
    rewrite Hb.
    change (Bus.accepted (Bus.mkBus (Bus.entries b) _ (Bus.emitted b))) with (Bus.accepted b).
    apply lastOf_push. unfold Bus.maxHistorySize. lia.
  - intros message b Hb. unfold Bus.noted. rewrite accepted_global. exact Hb.
Qed.

(** X22. The bus keeps the last 1000 messages it took in, oldest first, and
    never more, whatever the agents and their listeners do with it, also
    when listeners register or unregister agents while a broadcast walks
    over them: when a message comes in over a full history the oldest one
    is dropped. *)
Theorem history_keeps_the_last_thousand f b :
  Bus.busCode true f ->
  f Bus.newBus = Some b ->
  Bus.messageHistory b = Bus.lastOf 1000 (Bus.accepted b) /\
  (length (Bus.messageHistory b) <= 1000)%nat.
Proof.
  intros Hf Hb.
  assert (H : Bus.messageHistory b = Bus.lastOf Bus.maxHistorySize (Bus.accepted b)).
  { apply (busCode_history true f Hf Bus.newBus b); [reflexivity|exact Hb]. }
  split; [exact H|]. rewrite H. apply length_lastOf.
Qed.

Lemma history_keeps_the_last_thousand_witness :
  let hello := Bus.mkMessage "1" "TASK_REQUEST" "B" "" 0 "" in
  let f := fun b => Some (Bus.registerAgent "A" b) ≫=
                      (fun b => Some (Bus.registerAgent "B" b) ≫=
                         (fun b => Some (Bus.registerAgent "C" b) ≫=
                            Bus.broadcast 4 Bus.lateRegistration hello)) in
  Bus.busCode true f /\
  exists b,
    f Bus.newBus = Some b /\
    Bus.messageHistory b = [Bus.withTo "A" hello; Bus.withTo "C" hello; Bus.withTo "D" hello].
Proof.
  cbv zeta.
  assert (Hon : forall event m, Bus.busCode true (Bus.lateRegistration event m)).
  { intros event m. unfold Bus.lateRegistration.
    destruct (String.eqb event "message:A");
      [apply Bus.code_register; reflexivity|apply Bus.code_skip]. }
  assert (Hf : Bus.busCode true
                 (fun b => Some (Bus.registerAgent "A" b) ≫=
                      (fun b => Some (Bus.registerAgent "B" b) ≫=
                         (fun b => Some (Bus.registerAgent "C" b) ≫=
                            Bus.broadcast 4 Bus.lateRegistration
                              (Bus.mkMessage "1" "TASK_REQUEST" "B" "" 0 ""))))).
  { apply (Bus.code_seq true (fun b => Some (Bus.registerAgent "A" b)));
      [apply Bus.code_register; reflexivity|].
    apply (Bus.code_seq true (fun b => Some (Bus.registerAgent "B" b)));
      [apply Bus.code_register; reflexivity|].
    apply (Bus.code_seq true (fun b => Some (Bus.registerAgent "C" b)));
      [apply Bus.code_register; reflexivity|].
    apply Bus.code_broadcast. exact Hon. }
  split; [exact Hf|].
  eexists. split; [vm_compute; reflexivity|].
  match goal with
  | |- Bus.messageHistory ?b = _ =>
      rewrite (proj1 (history_keeps_the_last_thousand _ b Hf ltac:(vm_compute; reflexivity)))
  end.
  vm_compute. reflexivity.
Defined.

(** Code that does not register leaves the entries as they are, and no code
    takes back what was emitted. *)
Lemma busCode_entries f :
  Bus.busCode false f -> forall b b', f b = Some b' -> Bus.entries b' = Bus.entries b.
Proof.
  intros Hf b b' H.
  apply (busCode_invariant false (fun x => Bus.entries x = Bus.entries b)) with (f := f) (b := b);
    try discriminate; auto.
Qed.

Lemma busCode_accepted r f :
  Bus.busCode r f ->
  forall b b', f b = Some b' -> exists new, Bus.accepted b' = (Bus.accepted b ++ new)%list.
Proof.
  intros Hf b b' H.
  apply (busCode_invariant r (fun x => exists new, Bus.accepted x = (Bus.accepted b ++ new)%list))
    with (f := f) (b := b); auto.
  - intros _ name b0 Hb0. unfold Bus.registerAgent. destruct (Bus.has name b0); exact Hb0.
  - intros message b0 [new Hb0] _. unfold Bus.pushedOn. rewrite accepted_direct.
    change (Bus.accepted (Bus.mkBus (Bus.entries b0) _ (Bus.emitted b0))) with (Bus.accepted b0).
    rewrite Hb0. exists (new ++ [message])%list. rewrite app_assoc. reflexivity.
  - intros message b0 Hb0. unfold Bus.noted. rewrite accepted_global. exact Hb0.
  - exists []. rewrite app_nil_r. reflexivity.
Qed.

Lemma app_self_nil {A} (l new : list A) : l = (l ++ new)%list -> new = [].
Proof. intros H. apply (app_inv_head l). rewrite app_nil_r. symmetry. exact H. Qed.

Lemma has_In a b : In a (Bus.agents b) -> Bus.has a b = true.
Proof.
  intros H. unfold Bus.has. apply existsb_exists. exists a. split; [exact H|].
  apply String.eqb_refl.
Qed.

Lemma has_false a b : Bus.has a b = false -> ~ In a (Bus.agents b).
Proof. intros H Hin. rewrite (has_In a b Hin) in H. discriminate. Qed.

Lemma sendMessage_accepted on message b :
  (forall event m, Bus.busCode false (on event m)) ->
  (forall event m b0, is_Some (on event m b0)) ->
  Bus.has (Bus.to message) b = true ->
  exists b' new,
    Bus.sendMessage on message b = Some b' /\
    Bus.entries b' = Bus.entries b /\
    Bus.accepted b' = (Bus.accepted b ++ message :: new)%list.
Proof.
  intros Hon Hret Hhas.
  destruct (Hret ("message:" ++ Bus.to message)%string message (Bus.pushedOn message b))
    as [b1 H1].
  destruct (Hret "message" message (Bus.noted message b1)) as [b2 H2].
  assert (Hsend : Bus.sendMessage on message b = Some b2).
  { unfold Bus.sendMessage. rewrite Hhas. cbn [negb]. cbv zeta. unfold Bus.emit.
    cbn [Bus.entries Bus.messageHistory Bus.emitted]. fold (Bus.pushedOn message b).
    rewrite H1. cbn. exact H2. }
  destruct (busCode_accepted false _ (Hon _ _) _ _ H1) as [n1 Ha1].
  destruct (busCode_accepted false _ (Hon _ _) _ _ H2) as [n2 Ha2].
  exists b2, (n1 ++ n2)%list. split; [exact Hsend|]. split.
  - rewrite (busCode_entries _ (Hon _ _) _ _ H2). cbn [Bus.noted Bus.entries].
    rewrite (busCode_entries _ (Hon _ _) _ _ H1). reflexivity.
  - rewrite Ha2. unfold Bus.noted. rewrite accepted_global.
    change (Bus.accepted (Bus.mkBus (Bus.entries b1) _ (Bus.emitted b1))) with (Bus.accepted b1).
    rewrite Ha1. unfold Bus.pushedOn. rewrite accepted_direct.
    change (Bus.accepted (Bus.mkBus (Bus.entries b) _ (Bus.emitted b))) with (Bus.accepted b).
    rewrite <- !app_assoc. reflexivity.
Qed.

Lemma sendMessage_silent message b :
  Bus.has (Bus.to message) b = true ->
  exists b',
    Bus.sendMessage Bus.silent message b = Some b' /\
    Bus.entries b' = Bus.entries b /\
    Bus.accepted b' = (Bus.accepted b ++ [message])%list.
Proof.
  intros Hhas. unfold Bus.sendMessage. rewrite Hhas. cbn [negb]. cbv zeta.
  unfold Bus.emit, Bus.silent. cbn. eexists. split; [reflexivity|]. split; [reflexivity|].
  rewrite accepted_global, accepted_direct. reflexivity.
Qed.

Lemma keys_In slots index agentName :
  slots !! index = Some (Some agentName) -> In agentName (Bus.keys slots).
Proof.
  revert index. induction slots as [|slot slots IH]; intros [|index] H; try discriminate.
  - cbn in H. injection H as ->. left. reflexivity.
  - cbn in H. destruct slot; cbn; [right|]; eapply IH; exact H.
Qed.

(** The copies a walk from [index] on hands out. *)
Lemma forEach_walk on message fuel :
  (forall event m, Bus.busCode false (on event m)) ->
  (forall event m b0, is_Some (on event m b0)) ->
  forall index b,
    (length (Bus.entries b) <= index + fuel)%nat ->
    let copies :=
      map (fun a => Bus.withTo a message)
          (List.filter (fun a => negb (String.eqb a (Bus.from message)))
             (Bus.keys (drop index (Bus.entries b)))) in
    exists b' new,
      Bus.forEach fuel (Bus.forward on message) index b = Some b' /\
      Bus.entries b' = Bus.entries b /\
      Bus.accepted b' = (Bus.accepted b ++ new)%list /\
      sublist copies new /\
      (on = Bus.silent -> new = copies).
Proof.
  intros Hon Hret. induction fuel as [|fuel IH]; intros index b Hlen; cbv zeta.
  - cbn [Bus.forEach]. rewrite lookup_ge_None_2 by lia. rewrite drop_ge by lia.
    exists b, []. rewrite app_nil_r. repeat split; auto using sublist_nil.
  - cbn [Bus.forEach]. destruct (Bus.entries b !! index) as [slot|] eqn:E.
    + rewrite (drop_S _ _ _ E). destruct slot as [agentName|]; cbn [Bus.keys].
      * cbn [List.filter].
        assert (Hfw : Bus.forward on message agentName b =
                      if negb (String.eqb agentName (Bus.from message))
                      then Bus.sendMessage on (Bus.withTo agentName message) b else Some b)
          by reflexivity.
        rewrite Hfw. clear Hfw.
        destruct (negb (String.eqb agentName (Bus.from message))) eqn:Efrom.
        -- destruct (sendMessage_accepted on (Bus.withTo agentName message) b Hon Hret)
             as (b1 & n1 & Hs & He & Ha).
           { apply has_In. eapply keys_In. exact E. }
           rewrite Hs. cbn.
           destruct (IH (S index) b1) as (b' & n2 & Hw & He' & Ha' & Hsub & Hsil);
             [rewrite He; lia|].
           exists b', (Bus.withTo agentName message :: n1 ++ n2)%list.
           split; [exact Hw|]. split; [congruence|].
           split; [rewrite Ha', Ha, <- app_assoc; reflexivity|].
           rewrite He in Hsub, Hsil. split.
           ++ cbn [map]. apply sublist_skip, sublist_inserts_l. exact Hsub.
           ++ intros ->. cbn [map].
              destruct (sendMessage_silent (Bus.withTo agentName message) b) as (b1' & Hs' & _ & Ha1).
              { apply has_In. eapply keys_In. exact E. }
              rewrite Hs in Hs'. injection Hs' as <-. rewrite Ha in Ha1.
              apply app_inv_head in Ha1. injection Ha1 as ->.
              rewrite (Hsil eq_refl). reflexivity.
        -- cbn. destruct (IH (S index) b) as (b' & n2 & Hw & He' & Ha' & Hsub & Hsil); [lia|].
           exists b', n2. repeat split; assumption.
      * destruct (IH (S index) b) as (b' & n2 & Hw & He' & Ha' & Hsub & Hsil); [lia|].
        exists b', n2. repeat split; assumption.
    + rewrite drop_ge by (apply lookup_ge_None_1; exact E).
      exists b, []. rewrite app_nil_r. repeat split; auto using sublist_nil.
Qed.

(** X23. A broadcast reaches every registered agent but its sender, in the
    order in which the agents registered: as long as no listener registers
    or unregisters an agent meanwhile and every listener returns, the walk
    ends after it has looked at every entry, a copy addressed to each of
    them is taken in, in that order, among whatever the listeners send in
    reaction; with listeners that send nothing the copies are all that is
    taken in. The set of registered agents is as before. *)
Theorem broadcast_reaches_everyone_else fuel on message b :
  (forall event m, Bus.busCode false (on event m)) ->
  (forall event m b0, is_Some (on event m b0)) ->
  (length (Bus.entries b) <= fuel)%nat ->
  let copies :=
    map (fun a => Bus.withTo a message)
        (List.filter (fun a => negb (String.eqb a (Bus.from message))) (Bus.agents b)) in
  (exists b' new,
     Bus.broadcast fuel on message b = Some b' /\
     Bus.agents b' = Bus.agents b /\
     Bus.accepted b' = (Bus.accepted b ++ new)%list /\
     sublist copies new) /\
  (exists b',
     Bus.broadcast fuel Bus.silent message b = Some b' /\
     Bus.accepted b' = (Bus.accepted b ++ copies)%list).
Proof.
  intros Hon Hret Hfuel. cbv zeta. split.
  - destruct (forEach_walk on message fuel Hon Hret 0%nat b) as (b' & new & Hw & He & Ha & Hsub & _);
      [lia|].
    exists b', new. split; [exact Hw|]. split; [unfold Bus.agents; rewrite He; reflexivity|].
    split; [exact Ha|exact Hsub].
  - destruct (forEach_walk Bus.silent message fuel (fun _ _ => Bus.code_skip false)
                (fun _ _ b0 => ex_intro _ b0 eq_refl) 0%nat b)
      as (b' & new & Hw & _ & Ha & _ & Hsil); [lia|].
    exists b'. split; [exact Hw|]. rewrite Ha, (Hsil eq_refl). reflexivity.
Qed.

Lemma broadcast_reaches_everyone_else_witness :
  let hello := Bus.mkMessage "1" "TASK_REQUEST" "B" "" 0 "" in
  exists b',
    Bus.broadcast 3 Bus.silent hello Bus.threeAgents = Some b' /\
    Bus.accepted b' = [Bus.withTo "A" hello; Bus.withTo "C" hello].
Proof.
  cbv zeta.
  destruct (proj2 (broadcast_reaches_everyone_else 3 Bus.silent
                     (Bus.mkMessage "1" "TASK_REQUEST" "B" "" 0 "") Bus.threeAgents
                     (fun _ _ => Bus.code_skip false)
                     (fun _ _ b0 => ex_intro _ b0 eq_refl)
                     ltac:(vm_compute; lia))) as (b' & H & Ha).
  exists b'. split; [exact H|]. rewrite Ha. reflexivity.
Defined.

(** A broadcast comes to an agent registered while it walks: the copy for [D]
    is taken in after those for [A] and [C]. *)
Example broadcast_reaches_late_registration :
  let hello := Bus.mkMessage "1" "TASK_REQUEST" "B" "" 0 "" in
  exists b',
    Bus.broadcast 4 Bus.lateRegistration hello Bus.threeAgents = Some b' /\
    Bus.agents b' = ["A"; "B"; "C"; "D"] /\
    Bus.messageHistory b' = [Bus.withTo "A" hello; Bus.withTo "C" hello; Bus.withTo "D" hello].
Proof. cbv zeta. eexists. vm_compute. repeat split; reflexivity. Qed.

Lemma filter_sublist {A} (keep : A -> bool) (l : list A) : sublist (List.filter keep l) l.
Proof.
  induction l as [|x l IH]; [constructor|]. cbn [List.filter].
  destruct (keep x); [apply sublist_skip|apply sublist_cons]; exact IH.
Qed.

Lemma filter_all {A} (keep : A -> bool) (l : list A) :
  (forall x, keep x = true) -> List.filter keep l = l.
Proof.
  intros H. induction l as [|x l IH]; [reflexivity|]. cbn [List.filter].
  rewrite H. f_equal. exact IH.
Qed.

(** X24. [getHistory] returns, in the order of the history, exactly the messages
    that agree with every field of the filter that is given and is not the
    empty string; without a filter, or with a filter in which no field
    counts, it returns the whole history. *)
Theorem getHistory_filters filter b :
  (forall m,
     In m (Bus.getHistory (Some filter) b) <->
     In m (Bus.messageHistory b) /\
     (Bus.given (Bus.byFrom filter) = true -> Bus.byFrom filter = Some (Bus.from m)) /\
     (Bus.given (Bus.byTo filter) = true -> Bus.byTo filter = Some (Bus.to m)) /\
     (Bus.given (Bus.byType filter) = true -> Bus.byType filter = Some (Bus.type m))) /\
  sublist (Bus.getHistory (Some filter) b) (Bus.messageHistory b) /\
  (Bus.given (Bus.byFrom filter) = false -> Bus.given (Bus.byTo filter) = false ->
   Bus.given (Bus.byType filter) = false ->
   Bus.getHistory (Some filter) b = Bus.messageHistory b) /\
  Bus.getHistory None b = Bus.messageHistory b.
Proof.
  assert (Hfield : forall field value,
            Bus.given field && Bus.differs field value = false <->
            (Bus.given field = true -> field = Some value)).
  { intros [s|] value; cbn; [|split; [discriminate|reflexivity]].
    destruct (String.eqb_spec s ""), (String.eqb_spec value s); cbn; subst;
      split; try reflexivity; try discriminate; try congruence.
    intros H. specialize (H eq_refl). congruence. }
  split; [|split; [|split; [|reflexivity]]].
  - intros m. unfold Bus.getHistory. rewrite List.filter_In.
    rewrite <- !Hfield.
    destruct (Bus.given (Bus.byFrom filter) && Bus.differs (Bus.byFrom filter) (Bus.from m)),
             (Bus.given (Bus.byTo filter) && Bus.differs (Bus.byTo filter) (Bus.to m)),
             (Bus.given (Bus.byType filter) && Bus.differs (Bus.byType filter) (Bus.type m));
      intuition discriminate.
  - apply filter_sublist.
  - intros H1 H2 H3. unfold Bus.getHistory. rewrite H1, H2, H3. cbn [andb].
    apply filter_all. reflexivity.
Qed.

Lemma keys_app slots more : Bus.keys (slots ++ more) = (Bus.keys slots ++ Bus.keys more)%list.
Proof.
  induction slots as [|[a|] slots IH]; cbn; [reflexivity| |exact IH]. rewrite IH. reflexivity.
Qed.

Lemma keys_emptied agentName slots :
  Bus.keys (map (Bus.emptied agentName) slots) =
  List.filter (fun a => negb (String.eqb a agentName)) (Bus.keys slots).
Proof.
  induction slots as [|[a|] slots IH]; cbn; [reflexivity| |exact IH].
  destruct (String.eqb a agentName); cbn; rewrite IH; reflexivity.
Qed.

Lemma busCode_NoDup r f :
  Bus.busCode r f ->
  forall b b', List.NoDup (Bus.agents b) -> f b = Some b' -> List.NoDup (Bus.agents b').
Proof.
  apply (busCode_invariant r (fun b => List.NoDup (Bus.agents b))).
  - intros _ name b Hb. unfold Bus.registerAgent. destruct (Bus.has name b) eqn:E; [exact Hb|].
    unfold Bus.agents. cbn [Bus.entries]. rewrite keys_app. cbn [Bus.keys].
    apply NoDup_ListNoDup, NoDup_app.
    split; [apply NoDup_ListNoDup; exact Hb|]. split; [|apply NoDup_singleton].
    intros x Hx Hname. apply list_elem_of_singleton in Hname. subst x.
    apply list_elem_of_In in Hx. exact (has_false _ _ E Hx).
  - intros _ name b Hb. unfold Bus.unregisterAgent, Bus.agents. cbn [Bus.entries].
    rewrite keys_emptied. apply List.NoDup_filter. exact Hb.
  - intros message b Hb _. exact Hb.
  - intros message b Hb. exact Hb.
Qed.

(** X25. No agent is registered twice, whatever is done with the bus, also
    when listeners register or unregister agents while a broadcast walks
    over them: registering a name again changes nothing. Once an agent is
    unregistered it is no longer known, and a message sent to it is dropped
    without a trace: it is not put in the history and no listener hears of
    it. *)
Theorem unregistered_agent_gets_nothing f b name on message :
  Bus.busCode true f ->
  f Bus.newBus = Some b ->
  let gone := Bus.unregisterAgent name b in
  List.NoDup (Bus.getRegisteredAgents b) /\
  (In name (Bus.getRegisteredAgents (Bus.registerAgent name b)) /\
   Bus.registerAgent name (Bus.registerAgent name b) = Bus.registerAgent name b) /\
  ~ In name (Bus.getRegisteredAgents gone) /\
  (Bus.to message = name -> Bus.sendMessage on message gone = Some gone).
Proof.
  intros Hf Hb gone.
  assert (Hgone : ~ In name (Bus.agents gone)).
  { unfold gone, Bus.unregisterAgent, Bus.agents. cbn [Bus.entries]. rewrite keys_emptied.
    intros Hin. apply filter_In in Hin as [_ Hin]. rewrite String.eqb_refl in Hin. discriminate. }
  assert (Hin : In name (Bus.agents (Bus.registerAgent name b))).
  { unfold Bus.registerAgent. destruct (Bus.has name b) eqn:E.
    - unfold Bus.has in E. apply existsb_exists in E as (x & Hx & Ex).
      apply String.eqb_eq in Ex. subst x. exact Hx.
    - unfold Bus.agents. cbn [Bus.entries]. rewrite keys_app. apply in_or_app. right. left.
      reflexivity. }
  split; [apply (busCode_NoDup true f Hf Bus.newBus b); [constructor|exact Hb]|].
  split; [split; [exact Hin|]|split; [exact Hgone|]].
  - unfold Bus.registerAgent at 1. rewrite (has_In _ _ Hin). reflexivity.
  - intros Hto. unfold Bus.sendMessage. rewrite Hto.
    destruct (Bus.has name gone) eqn:E; [|reflexivity].
    exfalso. apply Hgone. unfold Bus.has in E. apply existsb_exists in E as (x & Hx & Ex).
    apply String.eqb_eq in Ex. subst x. exact Hx.
Qed.

Lemma unregistered_agent_gets_nothing_witness :
  let hello := Bus.mkMessage "1" "TASK_REQUEST" "B" "" 0 "" in
  let f := fun b => Some (Bus.registerAgent "A" b) ≫=
                      (fun b => Some (Bus.registerAgent "B" b) ≫=
                         (fun b => Some (Bus.registerAgent "C" b) ≫=
                            Bus.broadcast 4 Bus.lateRegistration hello)) in
  Bus.busCode true f /\
  exists b,
    f Bus.newBus = Some b /\
    Bus.getRegisteredAgents b = ["A"; "B"; "C"; "D"] /\
    Bus.sendMessage Bus.silent (Bus.withTo "D" hello) (Bus.unregisterAgent "D" b) =
      Some (Bus.unregisterAgent "D" b).
Proof.
  cbv zeta.
  assert (Hon : forall event m, Bus.busCode true (Bus.lateRegistration event m)).
  { intros event m. unfold Bus.lateRegistration.
    destruct (String.eqb event "message:A");
      [apply Bus.code_register; reflexivity|apply Bus.code_skip]. }
  assert (Hf : Bus.busCode true
                 (fun b => Some (Bus.registerAgent "A" b) ≫=
                      (fun b => Some (Bus.registerAgent "B" b) ≫=
                         (fun b => Some (Bus.registerAgent "C" b) ≫=
                            Bus.broadcast 4 Bus.lateRegistration
                              (Bus.mkMessage "1" "TASK_REQUEST" "B" "" 0 ""))))).
  { apply (Bus.code_seq true (fun b => Some (Bus.registerAgent "A" b)));
      [apply Bus.code_register; reflexivity|].
    apply (Bus.code_seq true (fun b => Some (Bus.registerAgent "B" b)));
      [apply Bus.code_register; reflexivity|].
    apply (Bus.code_seq true (fun b => Some (Bus.registerAgent "C" b)));
      [apply Bus.code_register; reflexivity|].
    apply Bus.code_broadcast. exact Hon. }
  split; [exact Hf|].
  eexists. split; [vm_compute; reflexivity|]. split; [vm_compute; reflexivity|].
  match goal with
  | |- Bus.sendMessage _ ?m (Bus.unregisterAgent _ ?b) = _ =>
      apply (proj2 (proj2 (proj2 (unregistered_agent_gets_nothing _ b "D" Bus.silent m Hf
                                    ltac:(vm_compute; reflexivity)))))
  end.
  reflexivity.
Defined.
